(** * Image-Stack: the averaging routine of [average_image_stack.py]

    A shallow embedding of [compute_average_image] and the properties its
    specification states about it.

    - Python [int] is [Z]; 8-bit samples are [Byte.byte]; a [float64] is a
      [spec_float] with the binary64 parameters (precision 53, [emax] 1024),
      so sums, the division and the cast are the IEEE-754 operations numpy
      performs, not idealised reals.
    - The operating system is a directory tree plus a working directory; the
      imaging library (PIL) is an interface, [Codec], with the guarantees the
      script relies on.
    - The function body runs in a state-and-exception monad over the local
      variables ([Frame]) and the outside world ([World]); an exception keeps
      every assignment made before it, as in Python.
    - [print] appends a structured line to the world's log when the console
      can encode it and raises [UnicodeEncodeError] otherwise; [time.time()]
      is not modelled (it only feeds the elapsed-time line).
    - File names are byte strings and [sorted] compares them byte by byte,
      which is Python's order of the decoded names as long as they are
      ASCII.
    - A directory entry is a regular file, a directory, or a special file
      that [open] refuses at once (a socket).  Entries on which [open] blocks
      (a FIFO without a writer) are not modelled.
    - Not modelled: memory exhaustion in numpy, symbolic links (".." is
      resolved on the path text), permissions, and exceptions that are not
      [Exception]s (KeyboardInterrupt). *)

From Stdlib Require Import ZArith List String Ascii Strings.Byte Bool Lia.
From Stdlib Require Import Sorting.Permutation.
From Stdlib Require Import Floats.SpecFloat.
Import ListNotations.

Local Open Scope string_scope.
Local Open Scope list_scope.
Local Open Scope Z_scope.

(* ================================================================== *)
(** * Part I: definitions *)
(* ================================================================== *)

(** ** binary64 arithmetic, as numpy's [float64] *)

Module Binary64.

Definition prec : Z := 53.
Definition emax : Z := 1024.

Definition float64 := spec_float.

(** [np.float64(k)] for a Python int, and uint8 -> float64 conversion. *)
Definition f64_of_Z (k : Z) : float64 := binary_normalize prec emax k 0 false.

Definition f64_add : float64 -> float64 -> float64 := SFadd prec emax.
Definition f64_div : float64 -> float64 -> float64 := SFdiv prec emax.

Definition f64_zero : float64 := S754_zero false.

(** [np.clip(x, lo, hi)] on one element: NaN is propagated. *)
Definition f64_clip (lo hi x : float64) : float64 :=
  match SFcompare x lo with
  | None => x
  | Some Lt => lo
  | Some _ =>
      match SFcompare x hi with
      | Some Gt => hi
      | _ => x
      end
  end.

(** The C conversion double -> integer: the fractional part is discarded
    (truncation toward zero).  Infinities and NaN give 0. *)
Definition f64_trunc (x : float64) : Z :=
  match x with
  | S754_finite s m e => cond_Zopp s (Z.shiftl (Zpos m) e)
  | _ => 0
  end.

Definition u8_to_Z (b : byte) : Z := Z.of_N (Byte.to_N b).

Definition u8_of_Z (z : Z) : byte :=
  match Byte.of_N (Z.to_N (z mod 256)) with
  | Some b => b
  | None => x00
  end.

Definition f64_of_u8 (b : byte) : float64 := f64_of_Z (u8_to_Z b).

(** [.astype(np.uint8)] on one element. *)
Definition astype_uint8 (x : float64) : byte := u8_of_Z (f64_trunc x).

(** [np.clip(_, 0, 255)] on one element. *)
Definition clip_u8 : float64 -> float64 := f64_clip (f64_of_Z 0) (f64_of_Z 255).

(** One element of [np.clip(sum_array / count, 0, 255).astype(np.uint8)]. *)
Definition average_sample (count : Z) (s : float64) : byte :=
  astype_uint8 (clip_u8 (f64_div s (f64_of_Z count))).

(** Number of binary digits of a positive mantissa. *)
Definition dig (p : positive) : Z := Zpos (digits2_pos p).

(** The 53-digit mantissa of the positive integer [k] (for [k < 2^53]). *)
Definition norm_mant (k : positive) : positive := Z.to_pos (Zpos k * 2 ^ (53 - dig k)).

(** The canonical binary64 representation of the positive integer [k]. *)
Definition canon (k : positive) : float64 := S754_finite false (norm_mant k) (dig k - 53).

Definition exact_rec (m : Z) : shr_record := {| shr_m := m; shr_r := false; shr_s := false |}.

(** The rational value of a float, as a numerator over a power of two:
    [x = fst / 2 ^ snd]. *)
Definition f64_value (x : float64) : Z * Z :=
  match x with
  | S754_finite s m e =>
      if 0 <=? e then (cond_Zopp s (Zpos m * 2 ^ e), 0) else (cond_Zopp s (Zpos m), - e)
  | _ => (0, 0)
  end.

End Binary64.
Export Binary64.

(** ** Strings and paths *)

Definition lower_ascii (c : ascii) : ascii :=
  let n := N_of_ascii c in
  if (65 <=? n)%N && (n <=? 90)%N then ascii_of_N (n + 32) else c.

(** [str.lower()].  File names are byte strings; only A-Z change.  (None of
    the letters of the allow-list is the lower case of a non-ASCII letter,
    so this decides [endswith] as Python's full lowering does.) *)
Fixpoint lower (s : string) : string :=
  match s with
  | EmptyString => EmptyString
  | String c r => String (lower_ascii c) (lower r)
  end.

(** [s.endswith(suffix)]: some tail of [s] is [suffix]. *)
Fixpoint endswith (s suffix : string) : bool :=
  if String.eqb s suffix then true
  else match s with
       | EmptyString => false
       | String _ r => endswith r suffix
       end.

(** [s.endswith(tuple)]. *)
Definition endswith_any (s : string) (suffixes : list string) : bool :=
  existsb (endswith s) suffixes.

Definition valid_extensions : list string := [".png"; ".jpg"; ".jpeg"; ".tiff"; ".bmp"].

Definition is_sep (c : ascii) : bool := Ascii.eqb c "/".
Definition is_dot (c : ascii) : bool := Ascii.eqb c ".".

(** The string holds no path separator. *)
Fixpoint no_sep (s : string) : bool :=
  match s with
  | EmptyString => true
  | String c r => negb (is_sep c) && no_sep r
  end.

Fixpoint drop_while {A} (f : A -> bool) (l : list A) : list A :=
  match l with
  | [] => []
  | x :: r => if f x then drop_while f r else l
  end.

Fixpoint take_while {A} (f : A -> bool) (l : list A) : list A :=
  match l with
  | [] => []
  | x :: r => if f x then x :: take_while f r else []
  end.

(** [os.path.join(a, b)] (posixpath). *)
Definition os_path_join (a b : string) : string :=
  if prefix "/" b then b
  else if String.eqb a "" || endswith a "/" then (a ++ b)%string
  else (a ++ "/" ++ b)%string.

(** [os.path.dirname(p)] (posixpath): everything up to the last slash, with
    trailing slashes stripped unless the head consists of slashes only. *)
Definition os_path_dirname (p : string) : string :=
  let r := rev (list_ascii_of_string p) in
  let h := drop_while (fun c => negb (is_sep c)) r in
  let h' := if forallb is_sep h then h else drop_while is_sep h in
  string_of_list_ascii (rev h').

(** [os.path.basename(p)]. *)
Definition os_path_basename (p : string) : string :=
  let r := rev (list_ascii_of_string p) in
  string_of_list_ascii (rev (take_while (fun c => negb (is_sep c)) r)).

(** [os.path.splitext(p)[1]]: the last dot of the base name starts the
    extension, unless only dots precede it. *)
Definition os_path_splitext_ext (p : string) : string :=
  let b := rev (list_ascii_of_string (os_path_basename p)) in
  let e := take_while (fun c => negb (is_dot c)) b in
  match drop_while (fun c => negb (is_dot c)) b with
  | [] => ""
  | d :: pre => if forallb is_dot pre then "" else string_of_list_ascii (rev (e ++ [d]))
  end.

Fixpoint split_on (c : ascii) (s : string) : list string :=
  match s with
  | EmptyString => [""]
  | String a r =>
      if Ascii.eqb a c then "" :: split_on c r
      else match split_on c r with
           | h :: t => String a h :: t
           | [] => [String a ""]
           end
  end.

(** One step of path resolution; the stack holds the components from the
    root, innermost first. *)
Definition resolve_step (stack : list string) (comp : string) : list string :=
  if String.eqb comp "" || String.eqb comp "." then stack
  else if String.eqb comp ".." then tl stack
  else comp :: stack.

(** The string holds ASCII characters only. *)
Definition ascii_name (s : string) : bool :=
  forallb (fun c => (N_of_ascii c <? 128)%N) (list_ascii_of_string s).

(** ** The filesystem *)

(** [Special] is an entry that is neither a regular file nor a directory
    and that [open] refuses with [OSError] (a socket: ENXIO). *)
Inductive node : Type :=
| File (data : list byte)
| Dir (entries : list (string * node))
| Special.

Fixpoint find_entry (name : string) (entries : list (string * node)) : option node :=
  match entries with
  | [] => None
  | (n, x) :: r => if String.eqb n name then Some x else find_entry name r
  end.

Fixpoint set_entry (name : string) (x : node) (entries : list (string * node))
  : list (string * node) :=
  match entries with
  | [] => [(name, x)]
  | (n, y) :: r => if String.eqb n name then (n, x) :: r else (n, y) :: set_entry name x r
  end.

Fixpoint lookup (n : node) (comps : list string) : option node :=
  match comps with
  | [] => Some n
  | c :: r =>
      match n with
      | Dir es => match find_entry c es with
                  | Some ch => lookup ch r
                  | None => None
                  end
      | _ => None
      end
  end.

(** ** Exceptions *)

(** The three [raise ValueError(...)] statements of the script. *)
Inductive script_error : Type :=
| InputFolderMissing (input_folder : string)   (* line 18 *)
| NoSupportedFiles                             (* line 27 *)
| NoImagesLoaded.                              (* line 70 *)

(** Exceptions that come out of the interpreter, [os], numpy or PIL. *)
Inductive library_error : Type :=
| LibValueError (msg : string)
| TypeError (msg : string)
| FileNotFoundError (path : string)
| IsADirectoryError (path : string)
| NotADirectoryError (path : string)
| FileExistsError (path : string)
| OSError (msg : string)
| UnicodeEncodeError (msg : string).

(** An exception is raised either by a [raise] statement of the script or
    inside a library call; [except Exception] catches both. *)
Inductive exn : Type :=
| ValueError (v : script_error)
| FromLibrary (e : library_error).

Coercion FromLibrary : library_error >-> exn.

(** [str(e)], as far as the script shows it. *)
Definition exn_str (e : exn) : string :=
  match e with
  | ValueError (InputFolderMissing f) => ("input folder missing: " ++ f)%string
  | ValueError NoSupportedFiles => "no supported image files"
  | ValueError NoImagesLoaded => "no image loaded"
  | FromLibrary (LibValueError m) => m
  | FromLibrary (TypeError m) => m
  | FromLibrary (FileNotFoundError p) => ("[Errno 2] No such file or directory: " ++ p)%string
  | FromLibrary (IsADirectoryError p) => ("[Errno 21] Is a directory: " ++ p)%string
  | FromLibrary (NotADirectoryError p) => ("[Errno 20] Not a directory: " ++ p)%string
  | FromLibrary (FileExistsError p) => ("[Errno 17] File exists: " ++ p)%string
  | FromLibrary (OSError m) => m
  | FromLibrary (UnicodeEncodeError m) => m
  end.

(** ** Images and arrays *)

(** A PIL image in mode RGB: [size] is (width, height); [img_data] holds the
    samples row by row, three per pixel. *)
Record rgb_image : Type := mk_rgb {
  img_size : nat * nat;
  img_data : list byte
}.

Definition n_samples (size : nat * nat) : nat := (snd size * fst size * 3)%nat.

Definition wf_rgb (i : rgb_image) : Prop :=
  List.length (img_data i) = n_samples (img_size i).

Definition size_eqb (a b : nat * nat) : bool :=
  Nat.eqb (fst a) (fst b) && Nat.eqb (snd a) (snd b).

(** A float64 array of shape (height, width, 3), flattened in C order. *)
Record ndarray : Type := mk_nd {
  nd_shape : nat * nat * nat;
  nd_data : list float64
}.

Definition shape_eqb (a b : nat * nat * nat) : bool :=
  Nat.eqb (fst (fst a)) (fst (fst b)) && Nat.eqb (snd (fst a)) (snd (fst b))
  && Nat.eqb (snd a) (snd b).

Definition shape_of_size (size : nat * nat) : nat * nat * nat := (snd size, fst size, 3%nat).

(** [np.zeros] of shape (height, width, 3), dtype float64 (line 51). *)
Definition np_zeros (size : nat * nat) : ndarray :=
  mk_nd (shape_of_size size) (repeat f64_zero (n_samples size)).

(** [np.array(rgb_img, dtype=np.float64)]. *)
Definition np_array (i : rgb_image) : ndarray :=
  mk_nd (shape_of_size (img_size i)) (map f64_of_u8 (img_data i)).

Fixpoint vadd (a b : list float64) : list float64 :=
  match a, b with
  | x :: a', y :: b' => f64_add x y :: vadd a' b'
  | _, _ => []
  end.

(** [a += b] on arrays: element-wise when the shapes agree.  (Broadcasting a
    smaller shape cannot arise here: both shapes are (h, w, 3).) *)
Definition np_iadd (a b : ndarray) : library_error + ndarray :=
  if shape_eqb (nd_shape a) (nd_shape b)
  then inr (mk_nd (nd_shape a) (vadd (nd_data a) (nd_data b)))
  else inl (LibValueError "operands could not be broadcast together").

(** [np.clip(a / count, 0, 255).astype(np.uint8)], then [Image.fromarray]. *)
Definition average_image (a : ndarray) (count : Z) : rgb_image :=
  mk_rgb (snd (fst (nd_shape a)), fst (fst (nd_shape a)))
         (map (average_sample count) (nd_data a)).

(** Keyword arguments of [Image.save]. *)
Inductive save_opts : Type :=
| SaveJpegBest        (* quality=100, subsampling=0 *)
| SavePngOptimize     (* optimize=True *)
| SaveDefault.

(** ** The imaging library *)

(** What the script uses of PIL.  [pil_open] identifies the file,
    [pil_convert_rgb] decodes it into an RGB raster, [pil_resize] resamples
    (Lanczos) and [pil_encode] produces the bytes [save] writes for a file
    name and options.  PIL returns rasters that have as many samples as their
    size says, and [resize] returns the size it was asked for. *)
Class Codec : Type := {
  pil_image : Type;
  pil_open : list byte -> library_error + pil_image;
  pil_convert_rgb : pil_image -> library_error + rgb_image;
  pil_resize : rgb_image -> nat * nat -> library_error + rgb_image;
  pil_encode : string -> save_opts -> rgb_image -> library_error + list byte;
  pil_convert_wf : forall p i, pil_convert_rgb p = inr i -> wf_rgb i;
  pil_resize_wf : forall i size i',
      pil_resize i size = inr i' -> img_size i' = size /\ wf_rgb i'
}.

(** ** The world and the local variables *)

Inductive line : Type :=
| LFound (total_files : Z)                               (* line 29 *)
| LProgress (current total_files : Z) (filename : string) (* line 41 *)
| LBaseSize (target_size : nat * nat)                    (* line 52 *)
| LSkip (filename msg : string)                          (* line 65 *)
| LDone                                                  (* line 91 *)
| LSuccessCount (count : Z)                              (* line 92 *)
| LResizeCount (resize_count : Z)                        (* line 93 *)
| LOutputSize (target_size : option (nat * nat))         (* line 94 *)
| LElapsed                                               (* line 95 *)
| LSkippedHeader (n : Z)                                 (* line 98 *)
| LSkippedItem (filename error : string)                 (* line 100 *)
| LSavedAt (abspath : list string).                      (* line 101 *)

(** [sys.stdout]: which lines it can encode, and the message of the
    [UnicodeEncodeError] for the others. *)
Class Console : Type := {
  accepts : line -> bool;
  refusal : line -> string
}.

(** A console that takes every line (an encoding with every character the
    lines hold, or an error handler such as [backslashreplace]).  The
    theorems that do not name a console are about this one. *)
#[global] Instance lenient_console : Console := {|
  accepts := fun _ => true;
  refusal := fun _ => ""
|}.

Inductive event : Type :=
| Print (l : line)
| Opened (filepath : string)                    (* Image.open(filepath) *)
| MadeDirs (path : string)                      (* os.makedirs(path, exist_ok=True) *)
| Saved (path : string) (opts : save_opts) (img : rgb_image).

Record World : Type := mk_world {
  root : node;
  cwd : list string;      (* components from the root, innermost first *)
  log : list event        (* oldest first *)
}.

Record Frame : Type := mk_frame {
  sum_array : option ndarray;
  target_size : option (nat * nat);
  count : Z;
  resize_count : Z;
  errors : list (string * string)
}.

(** Lines 32-36. *)
Definition init_frame : Frame := mk_frame None None 0 0 [].

Definition add_log (w : World) (evs : list event) : World :=
  mk_world (root w) (cwd w) (log w ++ evs).

Definition set_root (w : World) (r : node) : World :=
  mk_world r (cwd w) (log w).

(** Components of a path from the root, outermost first. *)
Definition resolve (w : World) (p : string) : list string :=
  rev (fold_left resolve_step (split_on "/" p) (if prefix "/" p then [] else cwd w)).

(** [os.stat]: the empty path names nothing. *)
Definition stat (w : World) (p : string) : option node :=
  if String.eqb p "" then None else lookup (root w) (resolve w p).

Definition isdir (w : World) (p : string) : bool :=
  match stat w p with
  | Some (Dir _) => true
  | _ => false
  end.

Definition listdir (w : World) (p : string) : library_error + list string :=
  match stat w p with
  | Some (Dir es) => inr (map fst es)
  | Some _ => inl (NotADirectoryError p)
  | None => inl (FileNotFoundError p)
  end.

Definition read_file (w : World) (p : string) : library_error + list byte :=
  match stat w p with
  | Some (File d) => inr d
  | Some (Dir _) => inl (IsADirectoryError p)
  | Some Special => inl (OSError p)
  | None => inl (FileNotFoundError p)
  end.

(** [os.makedirs(_, exist_ok=True)] on the tree: missing directories are
    created along the path; a component that exists and is not a directory
    is an error. *)
Fixpoint mkdir_p (p : string) (n : node) (comps : list string) : library_error + node :=
  match comps with
  | [] => match n with
          | Dir _ => inr n
          | _ => inl (FileExistsError p)
          end
  | c :: r =>
      match n with
      | Dir es =>
          match mkdir_p p (match find_entry c es with Some ch => ch | None => Dir [] end) r with
          | inr ch' => inr (Dir (set_entry c ch' es))
          | inl e => inl e
          end
      | _ => inl (NotADirectoryError p)
      end
  end.

(** Creating or replacing a regular file; the parent has to exist. *)
Fixpoint write_at (p : string) (n : node) (comps : list string) (d : list byte)
  : library_error + node :=
  match comps with
  | [] => inl (IsADirectoryError p)
  | c :: r =>
      match n with
      | Dir es =>
          match r with
          | [] => match find_entry c es with
                  | Some (Dir _) => inl (IsADirectoryError p)
                  | Some Special => inl (OSError p)
                  | _ => inr (Dir (set_entry c (File d) es))
                  end
          | _ => match find_entry c es with
                 | Some ch => match write_at p ch r d with
                              | inr ch' => inr (Dir (set_entry c ch' es))
                              | inl e => inl e
                              end
                 | None => inl (FileNotFoundError p)
                 end
          end
      | _ => inl (NotADirectoryError p)
      end
  end.

(** [os.makedirs(p, exist_ok=True)]: the empty path cannot be created. *)
Definition makedirs (w : World) (p : string) : library_error + World :=
  if String.eqb p "" then inl (FileNotFoundError p)
  else match mkdir_p p (root w) (resolve w p) with
       | inr r => inr (set_root w r)
       | inl e => inl e
       end.

(** Opening [p] for writing and storing [d]. *)
Definition write_file (w : World) (p : string) (d : list byte) : library_error + World :=
  if String.eqb p "" then inl (FileNotFoundError p)
  else match write_at p (root w) (resolve w p) d with
       | inr r => inr (set_root w r)
       | inl e => inl e
       end.

(** ** The monad of the function body *)

Definition M (A : Type) : Type := Frame * World -> (exn + A) * (Frame * World).

Definition ret {A} (a : A) : M A := fun s => (inr a, s).

Definition bind {A B} (m : M A) (k : A -> M B) : M B :=
  fun s => match m s with
           | (inr a, s') => k a s'
           | (inl e, s') => (inl e, s')
           end.

Definition raise {A} (e : exn) : M A := fun s => (inl e, s).

(** [try: body  except Exception as e: handler e]. *)
Definition try_except {A} (body : M A) (handler : exn -> M A) : M A :=
  fun s => match body s with
           | (inl e, s') => handler e s'
           | r => r
           end.

(** A library call that raises or returns. *)
Definition lift {A} (r : library_error + A) : M A :=
  match r with
  | inr a => ret a
  | inl e => raise (FromLibrary e)
  end.

Definition get_frame : M Frame := fun '(f, w) => (inr f, (f, w)).
Definition get_world : M World := fun '(f, w) => (inr w, (f, w)).
Definition put_frame (f : Frame) : M unit := fun '(_, w) => (inr tt, (f, w)).
Definition put_world (w : World) : M unit := fun '(f, _) => (inr tt, (f, w)).

Declare Scope monad_scope.
Delimit Scope monad_scope with monad.
Notation "x <- m ;; k" := (bind m (fun x => k))
  (at level 61, m at next level, right associativity) : monad_scope.
Notation "m ;; k" := (bind m (fun _ => k))
  (at level 61, right associativity) : monad_scope.
Local Open Scope monad_scope.

Definition emit (e : event) : M unit :=
  fun '(f, w) => (inr tt, (f, add_log w [e])).

(** [print(...)]: the line goes to [sys.stdout], which encodes it; a line
    the console cannot encode (a character of the text, or of a file name,
    outside its encoding) raises [UnicodeEncodeError] and nothing is
    written. *)
Definition print {console : Console} (l : line) : M unit :=
  if accepts l then emit (Print l)
  else raise (FromLibrary (UnicodeEncodeError (refusal l))).

Definition set_sum_array (a : option ndarray) : M unit :=
  f <- get_frame ;;
  put_frame (mk_frame a (target_size f) (count f) (resize_count f) (errors f)).

Definition set_target_size (t : option (nat * nat)) : M unit :=
  f <- get_frame ;;
  put_frame (mk_frame (sum_array f) t (count f) (resize_count f) (errors f)).

Definition set_count (c : Z) : M unit :=
  f <- get_frame ;;
  put_frame (mk_frame (sum_array f) (target_size f) c (resize_count f) (errors f)).

Definition set_resize_count (c : Z) : M unit :=
  f <- get_frame ;;
  put_frame (mk_frame (sum_array f) (target_size f) (count f) c (errors f)).

Definition set_errors (l : list (string * string)) : M unit :=
  f <- get_frame ;;
  put_frame (mk_frame (sum_array f) (target_size f) (count f) (resize_count f) l).

Definition os_path_isdir (p : string) : M bool :=
  w <- get_world ;; ret (isdir w p).

Definition os_listdir (p : string) : M (list string) :=
  w <- get_world ;; lift (listdir w p).

Definition os_makedirs (p : string) : M unit :=
  emit (MadeDirs p) ;;
  w <- get_world ;;
  w' <- lift (makedirs w p) ;;
  put_world w'.

Definition os_path_abspath (p : string) : M (list string) :=
  w <- get_world ;; ret (resolve w p).

(** [sorted(file_list)].  The names are compared byte by byte; Python
    compares the decoded names by code point, which is the same order for
    ASCII names. *)
Fixpoint insert_sorted (x : string) (l : list string) : list string :=
  match l with
  | [] => [x]
  | y :: r => if String.leb x y then x :: l else y :: insert_sorted x r
  end.

Fixpoint sorted (l : list string) : list string :=
  match l with
  | [] => []
  | x :: r => insert_sorted x (sorted r)
  end.

(** ** The program *)

Section Program.

Context {codec : Codec} {console : Console}.

(** [Image.open(filepath)]. *)
Definition image_open (filepath : string) : M pil_image :=
  emit (Opened filepath) ;;
  w <- get_world ;;
  d <- lift (read_file w filepath) ;;
  lift (pil_open d).

(** [result_img.save(output_path, ...)]. *)
Definition image_save (img : rgb_image) (output_path : string) (opts : save_opts) : M unit :=
  emit (Saved output_path opts img) ;;
  d <- lift (pil_encode output_path opts img) ;;
  w <- get_world ;;
  w' <- lift (write_file w output_path d) ;;
  put_world w'.

(** Lines 44-61: the body of the [try]. *)
Definition try_body (filepath : string) : M unit :=
  img <- image_open filepath ;;
  rgb_img <- lift (pil_convert_rgb img) ;;
  f <- get_frame ;;
  (match target_size f with
   | None =>
       set_target_size (Some (img_size rgb_img)) ;;
       set_sum_array (Some (np_zeros (img_size rgb_img))) ;;
       print (LBaseSize (img_size rgb_img))
   | Some _ => ret tt
   end) ;;
  f <- get_frame ;;
  rgb_img <-
    (match target_size f with
     | Some t =>
         if negb (size_eqb (img_size rgb_img) t) then
           r <- lift (pil_resize rgb_img t) ;;
           f <- get_frame ;;
           set_resize_count (resize_count f + 1) ;;
           ret r
         else ret rgb_img
     | None => raise (FromLibrary (TypeError "size must be a tuple"))
     end) ;;
  f <- get_frame ;;
  (match sum_array f with
   | Some a =>
       a' <- lift (np_iadd a (np_array rgb_img)) ;;
       set_sum_array (Some a')
   | None => raise (FromLibrary (TypeError "unsupported operand type(s) for +="))
   end) ;;
  f <- get_frame ;;
  set_count (count f + 1).

(** Lines 63-66: the [except] clause. *)
Definition except_clause (filename : string) (e : exn) : M unit :=
  f <- get_frame ;;
  set_errors (errors f ++ [(filename, exn_str e)]) ;;
  print (LSkip filename (exn_str e)).

(** Lines 40-66: one turn of the loop. *)
Definition iteration (input_folder : string) (total_files current : Z)
  (filename : string) : M unit :=
  let filepath := os_path_join input_folder filename in
  print (LProgress current total_files filename) ;;
  try_except (try_body filepath) (except_clause filename).

(** Lines 39-66: the loop over [enumerate(sorted(file_list), 1)]. *)
Fixpoint main_loop (input_folder : string) (total_files current : Z)
  (names : list string) : M unit :=
  match names with
  | [] => ret tt
  | filename :: rest =>
      iteration input_folder total_files current filename ;;
      main_loop input_folder total_files (current + 1) rest
  end.

(** Lines 97-100. *)
Fixpoint print_errors (l : list (string * string)) : M unit :=
  match l with
  | [] => ret tt
  | (filename, error) :: r => print (LSkippedItem filename error) ;; print_errors r
  end.

(** Lines 21-24. *)
Definition select_files (names : list string) : list string :=
  filter (fun f => endswith_any (lower f) valid_extensions) names.

(** Lines 82-87. *)
Definition opts_of_ext (output_ext : string) : save_opts :=
  if String.eqb output_ext ".jpg" || String.eqb output_ext ".jpeg" then SaveJpegBest
  else if String.eqb output_ext ".png" then SavePngOptimize
  else SaveDefault.

(** Lines 72-101: averaging, writing the result and the report. *)
Definition write_output (output_path : string) : M unit :=
  f <- get_frame ;;
  average_array <-
    (match sum_array f with
     | Some a => ret (average_image a (count f))
     | None => raise (FromLibrary (TypeError "unsupported operand type(s) for /"))
     end) ;;
  os_makedirs (os_path_dirname output_path) ;;
  let output_ext := lower (os_path_splitext_ext output_path) in
  let result_img := average_array in
  image_save result_img output_path (opts_of_ext output_ext) ;;
  print LDone ;;
  print (LSuccessCount (count f)) ;;
  print (LResizeCount (resize_count f)) ;;
  print (LOutputSize (target_size f)) ;;
  print LElapsed ;;
  (match errors f with
   | [] => ret tt
   | _ => print (LSkippedHeader (Z.of_nat (List.length (errors f)))) ;;
          print_errors (errors f)
   end) ;;
  p <- os_path_abspath output_path ;;
  print (LSavedAt p).

(** Lines 68-101. *)
Definition finish (output_path : string) : M unit :=
  f <- get_frame ;;
  if count f =? 0 then raise (ValueError NoImagesLoaded)
  else write_output output_path.

Definition compute_average_image (input_folder output_path : string) : M unit :=
  b <- os_path_isdir input_folder ;;
  if negb b then raise (ValueError (InputFolderMissing input_folder))
  else
    names <- os_listdir input_folder ;;
    let file_list := select_files names in
    let total_files := Z.of_nat (List.length file_list) in
    if total_files =? 0 then raise (ValueError NoSupportedFiles)
    else
      print (LFound total_files) ;;
      put_frame init_frame ;;
      main_loop input_folder total_files 1 (sorted file_list) ;;
      finish output_path.

(** A call: the function starts with fresh locals and leaves an outcome and
    a world. *)
Definition call (input_folder output_path : string) (w : World) : (exn + unit) * World :=
  let '(r, (_, w')) := compute_average_image input_folder output_path (init_frame, w) in
  (r, w').

End Program.

(** ** What the specification talks about

    The quantities the claims are stated with, defined from the directory
    contents rather than by running the loop. *)

Section Spec.

Context {codec : Codec} {console : Console}.

(** The matched files, in processing order. *)
Definition file_list (w : World) (input_folder : string) : list string :=
  match listdir w input_folder with
  | inr names => sorted (select_files names)
  | inl _ => []
  end.

(** Decoding one file and converting it to RGB. *)
Definition load (w : World) (input_folder filename : string) : library_error + rgb_image :=
  match read_file w (os_path_join input_folder filename) with
  | inr d => match pil_open d with
             | inr p => pil_convert_rgb p
             | inl e => inl e
             end
  | inl e => inl e
  end.

(** Conforming a decoded image to the reference size: resampled only when
    its dimensions differ. *)
Definition conform (t : nat * nat) (i : rgb_image) : library_error + rgb_image :=
  if size_eqb (img_size i) t then inr i else pil_resize i t.

Definition process (w : World) (input_folder : string) (t : nat * nat) (filename : string)
  : library_error + rgb_image :=
  match load w input_folder filename with
  | inr i => conform t i
  | inl e => inl e
  end.

(** The size of the first file that decodes. *)
Fixpoint reference_size (w : World) (input_folder : string) (names : list string)
  : option (nat * nat) :=
  match names with
  | [] => None
  | n :: r => match load w input_folder n with
              | inr i => Some (img_size i)
              | inl _ => reference_size w input_folder r
              end
  end.

(** The images that are added to the accumulator, in order. *)
Fixpoint successes (w : World) (input_folder : string) (t : nat * nat) (names : list string)
  : list rgb_image :=
  match names with
  | [] => []
  | n :: r => match process w input_folder t n with
              | inr i => i :: successes w input_folder t r
              | inl _ => successes w input_folder t r
              end
  end.

(** The skipped files with their reasons, in order. *)
Fixpoint failures (w : World) (input_folder : string) (t : nat * nat) (names : list string)
  : list (string * string) :=
  match names with
  | [] => []
  | n :: r => match process w input_folder t n with
              | inr _ => failures w input_folder t r
              | inl e => (n, exn_str (FromLibrary e)) :: failures w input_folder t r
              end
  end.

(** A file counts as a resize event when it is processed successfully and
    its decoded dimensions differ from the reference size. *)
Definition is_resize_event (w : World) (input_folder : string) (t : nat * nat)
  (filename : string) : bool :=
  match load w input_folder filename with
  | inr i => negb (size_eqb (img_size i) t)
             && match pil_resize i t with inr _ => true | inl _ => false end
  | inl _ => false
  end.

Definition resize_events (w : World) (input_folder : string) (t : nat * nat)
  (names : list string) : list string :=
  filter (is_resize_event w input_folder t) names.

(** The files that decode, in order. *)
Fixpoint decoded (w : World) (input_folder : string) (names : list string) : list rgb_image :=
  match names with
  | [] => []
  | n :: r => match load w input_folder n with
              | inr i => i :: decoded w input_folder r
              | inl _ => decoded w input_folder r
              end
  end.

(** The state in which the loop of lines 39-66 leaves the function. *)
Definition loop_phase (input_folder : string) (w : World) : (exn + unit) * (Frame * World) :=
  let names := file_list w input_folder in
  let total_files := Z.of_nat (List.length names) in
  main_loop input_folder total_files 1 names
            (init_frame, add_log w [Print (LFound total_files)]).

(** The accumulator after adding the samples of a list of images, one image
    after the other, with the array addition of line 60. *)
Definition sum_images (acc : list float64) (imgs : list rgb_image) : list float64 :=
  fold_left (fun a i => vadd a (map f64_of_u8 (img_data i))) imgs acc.

(** The averaged raster: the sum from zero, divided by the number of images,
    clipped to [0, 255] and cast to uint8. *)
Definition mean_image (t : nat * nat) (imgs : list rgb_image) : rgb_image :=
  mk_rgb t (map (average_sample (Z.of_nat (List.length imgs)))
                (sum_images (repeat f64_zero (n_samples t)) imgs)).

Definition reference_or_default (w : World) (input_folder : string) (names : list string)
  : nat * nat :=
  match reference_size w input_folder names with
  | Some t => t
  | None => (0, 0)%nat
  end.

(** The locals after the loop over [names], started with the locals [f]
    that hold no reference size yet: the accumulator holds the sum of the
    processed images, [count] has grown by their number, [resize_count] by
    the number of resize events, and [errors] by the skipped files. *)
Definition loop_result (w : World) (input_folder : string) (names : list string) (f : Frame)
  : Frame :=
  let t := reference_or_default w input_folder names in
  mk_frame
    (match reference_size w input_folder names with
     | Some _ => Some (mk_nd (shape_of_size t)
                             (sum_images (repeat f64_zero (n_samples t))
                                         (successes w input_folder t names)))
     | None => None
     end)
    (reference_size w input_folder names)
    (count f + Z.of_nat (List.length (successes w input_folder t names)))
    (resize_count f + Z.of_nat (List.length (resize_events w input_folder t names)))
    (errors f ++ failures w input_folder t names).

(** The report of lines 91-101. *)
Definition report (f : Frame) (abspath : list string) : list event :=
  [Print LDone; Print (LSuccessCount (count f)); Print (LResizeCount (resize_count f));
   Print (LOutputSize (target_size f)); Print LElapsed]
  ++ match errors f with
     | [] => []
     | _ => Print (LSkippedHeader (Z.of_nat (List.length (errors f))))
            :: map (fun x => Print (LSkippedItem (fst x) (snd x))) (errors f)
     end
  ++ [Print (LSavedAt abspath)].

(** Lines 76-101 as a function of the averaged raster [img]: outcome and
    world, on a console that takes every line of the report. *)
Definition output_phase (output_path : string) (f : Frame) (img : rgb_image) (w : World)
  : (exn + unit) * World :=
  let d := os_path_dirname output_path in
  let opts := opts_of_ext (lower (os_path_splitext_ext output_path)) in
  match makedirs (add_log w [MadeDirs d]) d with
  | inl e => (inl (FromLibrary e), add_log w [MadeDirs d])
  | inr w2 =>
      match pil_encode output_path opts img with
      | inl e => (inl (FromLibrary e), add_log w2 [Saved output_path opts img])
      | inr bytes =>
          match write_file (add_log w2 [Saved output_path opts img]) output_path bytes with
          | inl e => (inl (FromLibrary e), add_log w2 [Saved output_path opts img])
          | inr w3 => (inr tt, add_log w3 (report f (resolve w3 output_path)))
          end
      end
  end.

(** The locals after a file was skipped (lines 63-66). *)
Definition skip_frame (f : Frame) (filename : string) (e : exn) : Frame :=
  mk_frame (sum_array f) (target_size f) (count f) (resize_count f)
           (errors f ++ [(filename, exn_str e)]).

(** [w'] is [w] after the events [evs], with the same files. *)
Definition extends (w w' : World) (evs : list event) : Prop :=
  root w' = root w /\ cwd w' = cwd w /\ log w' = log w ++ evs.

Definition is_write (e : event) : bool :=
  match e with
  | MadeDirs _ | Saved _ _ _ => true
  | _ => false
  end.

(** The name ends, ignoring case, in one of the allowed extensions. *)
Definition ends_with_allowed (name : string) : Prop :=
  exists ext p, In ext valid_extensions /\ lower name = (p ++ ext)%string.

(** The path names a regular file. *)
Definition is_regular_file (w : World) (p : string) : Prop :=
  exists d, stat w p = Some (File d).

(** The events only lines 76-101 produce: the two writes and the report. *)
Definition is_output_event (e : event) : bool :=
  match e with
  | MadeDirs _ | Saved _ _ _ => true
  | Print (LDone | LSuccessCount _ | LResizeCount _ | LOutputSize _ | LElapsed
          | LSkippedHeader _ | LSkippedItem _ _ | LSavedAt _) => true
  | _ => false
  end.

Definition opened (l : list event) : list string :=
  flat_map (fun e => match e with Opened p => [p] | _ => [] end) l.

End Spec.

(** ** A concrete imaging library and concrete directories

    A raw format, to evaluate the program on examples: one byte of width,
    one byte of height, then the samples.  A file shorter than two bytes is
    not identified; one whose sample count does not match fails to decode.
    Resampling reads the source samples cyclically. *)

Module Raw.

Definition raw_open (d : list byte) : library_error + (nat * nat * list byte) :=
  match d with
  | w :: h :: r => inr (N.to_nat (Byte.to_N w), N.to_nat (Byte.to_N h), r)
  | _ => inl (OSError "cannot identify image file")
  end.

Definition raw_convert (p : nat * nat * list byte) : library_error + rgb_image :=
  if Nat.eqb (List.length (snd p)) (n_samples (fst p))
  then inr (mk_rgb (fst p) (snd p))
  else inl (OSError "image file is truncated").

Definition raw_resize (i : rgb_image) (size : nat * nat) : library_error + rgb_image :=
  inr (mk_rgb size
         (map (fun k => nth (k mod (List.length (img_data i))) (img_data i) x00)
              (seq 0 (n_samples size)))).

Definition raw_encode (name : string) (o : save_opts) (i : rgb_image)
  : library_error + list byte :=
  inr (u8_of_Z (Z.of_nat (fst (img_size i))) :: u8_of_Z (Z.of_nat (snd (img_size i)))
       :: img_data i).

Lemma raw_convert_wf p i : raw_convert p = inr i -> wf_rgb i.
Proof.
  unfold raw_convert, wf_rgb. destruct (Nat.eqb _ _) eqn:E; [ | discriminate].
  intros H. injection H as <-. cbn. apply Nat.eqb_eq. exact E.
Qed.

Lemma raw_resize_wf i size i' :
  raw_resize i size = inr i' -> img_size i' = size /\ wf_rgb i'.
Proof.
  unfold raw_resize, wf_rgb. intros H. injection H as <-. cbn.
  split; [reflexivity | ]. rewrite length_map, length_seq. reflexivity.
Qed.

#[global] Instance raw_codec : Codec := {|
  pil_image := nat * nat * list byte;
  pil_open := raw_open;
  pil_convert_rgb := raw_convert;
  pil_resize := raw_resize;
  pil_encode := raw_encode;
  pil_convert_wf := raw_convert_wf;
  pil_resize_wf := raw_resize_wf
|}.

(** A 1x1 picture of one colour, as a file. *)
Definition pixel_file (r g b : byte) : node := File [x01; x01; r; g; b].

(** A 2x1 picture. *)
Definition wide_file (r g b : byte) : node := File [x02; x01; r; g; b; r; g; b].

Definition corrupt_file : node := File [x01; x01; x00].

(** Three valid pictures and two corrupt files. *)
Definition mixed_world : World :=
  mk_world
    (Dir [("images",
           Dir [("c.png", pixel_file x0a x14 x1e);
                ("b.PNG", corrupt_file);
                ("a.jpg", pixel_file x01 x02 x04);
                ("notes.txt", File []);
                ("e.bmp", corrupt_file);
                ("d.tiff", wide_file x03 x03 x03)])])
    [] [].

(** One valid picture next to a corrupt file. *)
Definition single_world : World :=
  mk_world
    (Dir [("images",
           Dir [("broken.jpg", corrupt_file);
                ("only.png", pixel_file x07 xc8 xff)])])
    [] [].

(** Three copies of one picture. *)
Definition copies_world : World :=
  mk_world
    (Dir [("images",
           Dir [("1.png", pixel_file xc8 x64 x32);
                ("2.png", pixel_file xc8 x64 x32);
                ("3.png", pixel_file xc8 x64 x32)])])
    [] [].

(** Only corrupt files. *)
Definition corrupt_world : World :=
  mk_world (Dir [("images", Dir [("x.png", corrupt_file); ("y.bmp", corrupt_file)])]) [] [].

(** A subdirectory and a special file whose names end in an allowed
    extension, with a picture inside the subdirectory. *)
Definition odd_world : World :=
  mk_world
    (Dir [("images",
           Dir [("sub.png", Dir [("inner.png", pixel_file x01 x01 x01)]);
                ("sock.jpg", Special);
                ("ok.png", pixel_file x09 x09 x09)])])
    [] [].

(** Two pictures, one under a name with the byte 0xff, which is not ASCII
    (and no UTF-8 either). *)
Definition byte_name : string := String "255" ".png".

Definition accent_world : World :=
  mk_world
    (Dir [("images",
           Dir [(byte_name, pixel_file x05 x05 x05);
                ("a.png", pixel_file x01 x02 x03)])])
    [] [].

(** A console that encodes the texts of the script and ASCII file names,
    and no other byte of a name: a line that shows a name or a message with
    a byte above 0x7f is refused. *)
Definition strict_console : Console := {|
  accepts := fun l =>
    match l with
    | LProgress _ _ n => ascii_name n
    | LSkip n m | LSkippedItem n m => ascii_name n && ascii_name m
    | LSavedAt p => forallb ascii_name p
    | _ => true
    end;
  refusal := fun _ => "codec can't encode character"
|}.

(** A directory of [n] copies of one picture, named f1.png, f01.png,
    f11.png, ... by the binary digits of their number. *)
Fixpoint bits (p : positive) : string :=
  match p with
  | xH => "1"
  | xO q => String "0" (bits q)
  | xI q => String "1" (bits q)
  end.

Definition numbered (k : nat) : string :=
  String "f" (bits (Pos.of_succ_nat k) ++ ".png").

Definition one_pixel : rgb_image := mk_rgb (1, 1)%nat [x01; x01; x01].

Definition crowd (n : nat) : list (string * node) :=
  map (fun k => (numbered k, pixel_file x01 x01 x01)) (seq 0 n).

Definition crowded_world (n : nat) : World :=
  mk_world (Dir [("images", Dir (crowd n))]) [] [].

End Raw.

(** ** Further quantities: integer sums, the progress lines, ordering *)

(** Element-wise integer addition, to the shorter length, as [vadd]. *)
Fixpoint zadd (a b : list Z) : list Z :=
  match a, b with
  | x :: a', y :: b' => (x + y) :: zadd a' b'
  | _, _ => []
  end.

(** The integer sum of the samples of a list of images, position by
    position, on top of [acc]. *)
Definition column_sums (acc : list Z) (imgs : list rgb_image) : list Z :=
  fold_left (fun a i => zadd a (map u8_to_Z (img_data i))) imgs acc.

(** The progress lines (line 41) among some events: number, total, name. *)
Definition progress (l : list event) : list (Z * Z * string) :=
  flat_map (fun e => match e with
                     | Print (LProgress c t n) => [(c, t, n)]
                     | _ => []
                     end) l.

(** [enumerate(names, start)]. *)
Fixpoint enumerate (start : Z) (names : list string) : list (Z * string) :=
  match names with
  | [] => []
  | n :: r => (start, n) :: enumerate (start + 1) r
  end.

(** The list is in ascending order (each element at most every later one). *)
Fixpoint ascending (l : list string) : Prop :=
  match l with
  | [] => True
  | x :: r => (forall y, In y r -> String.leb x y = true) /\ ascending r
  end.

(** The file decodes. *)
Definition decodes {codec : Codec} (w : World) (input_folder filename : string) : bool :=
  match load w input_folder filename with
  | inr _ => true
  | inl _ => false
  end.

(** The path [p] is not on the way to the output: it names neither the
    output file, nor its directory, nor an ancestor of them. *)
Definition off_path (w : World) (output_path p : string) : Prop :=
  forall rest,
    resolve w output_path <> resolve w p ++ rest
    /\ resolve w (os_path_dirname output_path) <> resolve w p ++ rest.

(** ** The specification's own words, and the scope of some statements *)

(** The outcome is the [UnicodeEncodeError] of a [print] that the console
    refused. *)
Definition print_failure {console : Console} {A : Type} (r : exn + A) : Prop :=
  exists l, accepts l = false /\ r = inl (FromLibrary (UnicodeEncodeError (refusal l))).

(** Sample [k] of an image, in row-major order with three samples per
    pixel. *)
Definition sample_at (i : rgb_image) (k : nat) : byte := nth k (img_data i) x00.

(** The float64 sum of sample [k] over a list of images: from 0.0, one
    image after the other. *)
Definition float_sum_at (imgs : list rgb_image) (k : nat) : float64 :=
  fold_left (fun s i => f64_add s (f64_of_u8 (sample_at i k))) imgs f64_zero.

(** Sample [k] of the average as the specification states it: the sum,
    divided by the number of images, clipped to [0, 255], converted to an
    8-bit unsigned integer. *)
Definition stated_sample (imgs : list rgb_image) (k : nat) : byte :=
  astype_uint8
    (f64_clip (f64_of_Z 0) (f64_of_Z 255)
       (f64_div (float_sum_at imgs k) (f64_of_Z (Z.of_nat (List.length imgs))))).

(** The raster the specification states, of size [t]. *)
Definition stated_mean (t : nat * nat) (imgs : list rgb_image) : rgb_image :=
  mk_rgb t (map (stated_sample imgs) (seq 0 (n_samples t))).

(** The selection rule in the specification's words: an entry of the
    directory is selected exactly when it is a regular file whose name ends
    in an allowed extension. *)
Definition selects_regular_files (w : World) (input_folder : string) : Prop :=
  forall entries, stat w input_folder = Some (Dir entries) ->
    forall name x, In (name, x) entries ->
      (In name (file_list w input_folder) <->
       (exists d, x = File d) /\ ends_with_allowed name).

(** The fatal cases in the specification's words: a call ends in an
    exception only if the input folder is no directory, or no name passes
    the filter, or no matched file decodes. *)
Definition fails_in_three_cases_only {codec : Codec} {console : Console}
  (input_folder output_path : string) (w : World) : Prop :=
  forall e w1,
    call input_folder output_path w = (inl e, w1) ->
    isdir w input_folder = false
    \/ file_list w input_folder = []
    \/ decoded w input_folder (file_list w input_folder) = [].

(** No component of the path is "..". *)
Definition dotdot_free (p : string) : bool :=
  forallb (fun c => negb (String.eqb c "..")) (split_on "/" p).

(* ================================================================== *)
(** * Part II: lemmas and theorems *)
(* ================================================================== *)

(** ** Exactness of binary64 on small integers

    Integers below 2^53 are binary64 numbers; adding two of them, or dividing
    one by an exact divisor, is exact as long as the result stays below
    2^53. *)

Module Binary64Facts.

Ltac hide_pow :=
  repeat match goal with
  | |- context [2 ^ ?e] => let v := fresh "pw" in set (v := 2 ^ e) in *; clearbody v
  | H : context [2 ^ ?e] |- _ => let v := fresh "pw" in set (v := 2 ^ e) in *; clearbody v
  end.

Lemma dig_bounds p : 2 ^ (dig p - 1) <= Zpos p < 2 ^ dig p.
Proof.
  unfold dig. induction p as [p IH | p IH | ]; cbn [digits2_pos].
  - rewrite Pos2Z.inj_succ, (Pos2Z.inj_xI p).
    replace (Z.succ (Zpos (digits2_pos p)) - 1) with (Z.succ (Zpos (digits2_pos p) - 1)) by lia.
    rewrite !Z.pow_succ_r by lia. hide_pow. lia.
  - rewrite Pos2Z.inj_succ, (Pos2Z.inj_xO p).
    replace (Z.succ (Zpos (digits2_pos p)) - 1) with (Z.succ (Zpos (digits2_pos p) - 1)) by lia.
    rewrite !Z.pow_succ_r by lia. hide_pow. lia.
  - cbn. lia.
Qed.

Lemma dig_pos p : 1 <= dig p.
Proof. unfold dig. lia. Qed.

Lemma dig_unique p d : 2 ^ (d - 1) <= Zpos p < 2 ^ d -> dig p = d.
Proof.
  intros [Hlo Hhi]. pose proof (dig_bounds p) as [Blo Bhi]. pose proof (dig_pos p).
  assert (Hd : 1 <= d).
  { destruct (Z_lt_le_dec d 1) as [Hlt|]; [|lia].
    assert (2 ^ d <= 2 ^ 0) by (destruct (Z_lt_le_dec d 0); [rewrite Z.pow_neg_r by lia; cbn; lia | apply Z.pow_le_mono_r; lia]).
    cbn in *. lia. }
  destruct (Z.lt_trichotomy (dig p) d) as [Hlt | [Heq | Hgt]]; [ | exact Heq | ].
  - assert (2 ^ dig p <= 2 ^ (d - 1)) by (apply Z.pow_le_mono_r; lia). lia.
  - assert (2 ^ d <= 2 ^ (dig p - 1)) by (apply Z.pow_le_mono_r; lia). lia.
Qed.

Lemma dig_shift (k : positive) (j : Z) (M : positive) :
  0 <= j -> Zpos M = Zpos k * 2 ^ j -> dig M = dig k + j.
Proof.
  intros Hj HM. apply dig_unique. pose proof (dig_bounds k) as [Blo Bhi]. pose proof (dig_pos k).
  rewrite HM. replace (dig k + j - 1) with ((dig k - 1) + j) by lia.
  rewrite !Z.pow_add_r by lia.
  assert (0 < 2 ^ j) by (apply Z.pow_pos_nonneg; lia). nia.
Qed.

Lemma pow2_xO (d : positive) : 2 ^ Zpos d~0 = 2 ^ Zpos d * 2 ^ Zpos d.
Proof. rewrite <- Z.pow_add_r by lia. f_equal. lia. Qed.

Lemma pow2_xI (d : positive) : 2 ^ Zpos d~1 = 2 * (2 ^ Zpos d * 2 ^ Zpos d).
Proof.
  rewrite <- Z.pow_add_r, <- Z.pow_succ_r by lia. f_equal. lia.
Qed.

Lemma iter_xO_spec (d : positive) : forall m, Zpos (Pos.iter xO m d) = Zpos m * 2 ^ Zpos d.
Proof.
  induction d as [d IH | d IH | ]; intros m; cbn [Pos.iter].
  - rewrite (Pos2Z.inj_xO (Pos.iter _ _ _)), !IH, pow2_xI. lia.
  - rewrite !IH, pow2_xO. lia.
  - rewrite (Pos2Z.inj_xO m). change (2 ^ 1) with 2. lia.
Qed.

Lemma shr_1_even (q : positive) :
  shr_1 {| shr_m := Zpos q~0; shr_r := false; shr_s := false |}
  = {| shr_m := Zpos q; shr_r := false; shr_s := false |}.
Proof. reflexivity. Qed.

Lemma iter_shr_exact (n : positive) : forall q : positive,
  iter_pos shr_1 n {| shr_m := Zpos q * 2 ^ Zpos n; shr_r := false; shr_s := false |}
  = {| shr_m := Zpos q; shr_r := false; shr_s := false |}.
Proof.
  induction n as [n IH | n IH | ]; intros q; cbn [iter_pos].
  - replace (Zpos q * 2 ^ Zpos n~1) with (Zpos ((Pos.iter xO (Pos.iter xO q n) n))~0).
    + rewrite shr_1_even. rewrite iter_xO_spec. rewrite IH. rewrite iter_xO_spec. apply IH.
    + rewrite (Pos2Z.inj_xO (Pos.iter _ _ _)), !iter_xO_spec, pow2_xI. lia.
  - replace (Zpos q * 2 ^ Zpos n~0) with (Zpos (Pos.iter xO q n) * 2 ^ Zpos n).
    + rewrite IH, iter_xO_spec. apply IH.
    + rewrite iter_xO_spec, pow2_xO. lia.
  - replace (Zpos q * 2 ^ 1) with (Zpos q~0) by (change (2 ^ 1) with 2; lia).
    apply shr_1_even.
Qed.

Lemma fexp_eq x : fexp prec emax x = Z.max (x - 53) (-1074).
Proof. reflexivity. Qed.


Lemma shr_fexp_canon (Q : positive) (e : Z) :
  dig Q = 53 -> -1074 <= e ->
  shr_fexp prec emax (Zpos Q) e loc_Exact = (exact_rec (Zpos Q), e).
Proof.
  intros HQ He. unfold shr_fexp. rewrite fexp_eq. cbn [Zdigits2 shr_record_of_loc].
  fold (dig Q). rewrite HQ.
  replace (Z.max (53 + e - 53) (-1074) - e) with 0 by lia. reflexivity.
Qed.

Lemma shr_fexp_shift (M Q : positive) (p : positive) (e : Z) :
  Zpos M = Zpos Q * 2 ^ Zpos p -> dig Q = 53 -> -1074 <= e + Zpos p ->
  shr_fexp prec emax (Zpos M) e loc_Exact = (exact_rec (Zpos Q), e + Zpos p).
Proof.
  intros HM HQ He. unfold shr_fexp. rewrite fexp_eq. cbn [Zdigits2 shr_record_of_loc].
  fold (dig M). rewrite (dig_shift Q (Zpos p) M) by (lia || assumption). rewrite HQ.
  replace (Z.max (53 + Zpos p + e - 53) (-1074) - e) with (Zpos p) by lia.
  cbn [shr]. rewrite HM, iter_shr_exact. reflexivity.
Qed.

Lemma bra_canon (s : bool) (Q : positive) (e : Z) :
  dig Q = 53 -> -1074 <= e <= 971 ->
  binary_round_aux prec emax s (Zpos Q) e loc_Exact = S754_finite s Q e.
Proof.
  intros HQ He. unfold binary_round_aux.
  rewrite shr_fexp_canon by (assumption || lia).
  cbn [exact_rec shr_m loc_of_shr_record round_nearest_even].
  rewrite shr_fexp_canon by (assumption || lia).
  cbn [exact_rec shr_m].
  replace (e <=? emax - prec) with true; [reflexivity|].
  symmetry. apply Z.leb_le. unfold emax, prec. lia.
Qed.

Lemma bra_shift (s : bool) (M Q : positive) (p : positive) (e : Z) :
  Zpos M = Zpos Q * 2 ^ Zpos p -> dig Q = 53 -> -1074 <= e + Zpos p <= 971 ->
  binary_round_aux prec emax s (Zpos M) e loc_Exact = S754_finite s Q (e + Zpos p).
Proof.
  intros HM HQ He. unfold binary_round_aux.
  rewrite (shr_fexp_shift M Q p) by (assumption || lia).
  cbn [exact_rec shr_m loc_of_shr_record round_nearest_even].
  rewrite shr_fexp_canon by (assumption || lia).
  cbn [exact_rec shr_m].
  replace (e + Zpos p <=? emax - prec) with true; [reflexivity|].
  symmetry. apply Z.leb_le. unfold emax, prec. lia.
Qed.


Lemma norm_mant_spec k : dig k <= 53 -> Zpos (norm_mant k) = Zpos k * 2 ^ (53 - dig k).
Proof.
  intros H. unfold norm_mant. rewrite Z2Pos.id; [reflexivity|].
  assert (0 < 2 ^ (53 - dig k)) by (apply Z.pow_pos_nonneg; lia). lia.
Qed.

Lemma norm_mant_dig k : dig k <= 53 -> dig (norm_mant k) = 53.
Proof.
  intros H. rewrite (dig_shift k (53 - dig k)); [lia | lia | apply norm_mant_spec; exact H].
Qed.

Lemma bra_exact (s : bool) (M k : positive) (j e : Z) :
  0 <= j -> Zpos M = Zpos k * 2 ^ j -> dig k <= 53 -> 53 <= dig k + j ->
  -1074 <= e + j - (53 - dig k) <= 971 ->
  binary_round_aux prec emax s (Zpos M) e loc_Exact
  = S754_finite s (norm_mant k) (e + j - (53 - dig k)).
Proof.
  intros Hj HM Hk Hd He.
  destruct (Z.eq_dec (dig k + j) 53) as [Heq | Hne].
  - replace (e + j - (53 - dig k)) with e by lia.
    assert (M = norm_mant k) as ->.
    { apply Pos2Z.inj. rewrite norm_mant_spec, HM by exact Hk. do 2 f_equal. lia. }
    apply bra_canon; [apply norm_mant_dig; exact Hk | lia].
  - assert (Hp : 0 < j - (53 - dig k)) by lia.
    destruct (j - (53 - dig k)) as [ | p | p] eqn:Ep; try lia.
    replace (e + j - (53 - dig k)) with (e + Zpos p) by lia.
    apply bra_shift; [ | apply norm_mant_dig; exact Hk | lia].
    rewrite norm_mant_spec, HM by exact Hk.
    rewrite <- Z.mul_assoc, <- Z.pow_add_r by lia. do 2 f_equal. lia.
Qed.

Lemma binary_round_exact (s : bool) (M k : positive) (j e : Z) :
  0 <= j -> Zpos M = Zpos k * 2 ^ j -> dig k <= 53 ->
  -1074 <= e + j - (53 - dig k) <= 971 ->
  binary_round prec emax s M e = S754_finite s (norm_mant k) (e + j - (53 - dig k)).
Proof.
  intros Hj HM Hk He. unfold binary_round. rewrite fexp_eq. fold (dig M).
  rewrite (dig_shift k j M Hj HM).
  replace (Z.max (dig k + j + e - 53) (-1074)) with (dig k + j + e - 53) by lia.
  unfold shl_align.
  destruct (dig k + j + e - 53 - e) as [ | p | p] eqn:Ep.
  - apply (bra_exact s M k j e); (assumption || lia).
  - apply (bra_exact s M k j e); (assumption || lia).
  - rewrite (bra_exact s _ k (j + Zpos p) (dig k + j + e - 53)).
    + f_equal. lia.
    + lia.
    + rewrite iter_xO_spec, HM, <- Z.mul_assoc, <- Z.pow_add_r by lia. reflexivity.
    + exact Hk.
    + lia.
    + lia.
Qed.



Lemma f64_of_Z_pos (k : positive) : dig k <= 53 -> f64_of_Z (Zpos k) = canon k.
Proof.
  intros Hk. unfold f64_of_Z, canon. cbn [binary_normalize].
  rewrite (binary_round_exact false k k 0 0); [f_equal; lia | lia | rewrite Z.pow_0_r; lia | exact Hk | ].
  pose proof (dig_pos k). lia.
Qed.

Lemma dig_le_53 (k : positive) : Zpos k < 2 ^ 53 -> dig k <= 53.
Proof.
  intros H. pose proof (dig_bounds k) as [Blo _].
  destruct (Z_le_gt_dec (dig k) 53) as [|Hgt]; [assumption|].
  assert (2 ^ 53 <= 2 ^ (dig k - 1)) by (apply Z.pow_le_mono_r; lia). lia.
Qed.

Lemma shl_align_fst (m : positive) (e e' : Z) :
  e' <= e -> Zpos (fst (shl_align m e e')) = Zpos m * 2 ^ (e - e').
Proof.
  intros H. unfold shl_align. destruct (e' - e) as [ | p | p] eqn:Ep; try lia; cbn [fst].
  - replace (e - e') with 0 by lia. rewrite Z.pow_0_r. lia.
  - rewrite iter_xO_spec. do 2 f_equal. lia.
Qed.

Lemma canon_add (a b : positive) :
  Zpos a + Zpos b < 2 ^ 53 -> f64_add (canon a) (canon b) = canon (a + b).
Proof.
  intros Hsum.
  assert (Ha : dig a <= 53) by (apply dig_le_53; lia).
  assert (Hb : dig b <= 53) by (apply dig_le_53; lia).
  assert (Hab : dig (a + b) <= 53) by (apply dig_le_53; lia).
  pose proof (dig_pos a). pose proof (dig_pos b). pose proof (dig_pos (a + b)).
  unfold f64_add, canon, SFadd. cbn [cond_Zopp].
  set (ez := Z.min (dig a - 53) (dig b - 53)).
  rewrite !shl_align_fst by (subst ez; lia).
  rewrite !norm_mant_spec by assumption.
  rewrite <- !Z.mul_assoc, <- !Z.pow_add_r by (subst ez; lia).
  replace (53 - dig a + (dig a - 53 - ez)) with (- ez) by lia.
  replace (53 - dig b + (dig b - 53 - ez)) with (- ez) by lia.
  rewrite <- Z.mul_add_distr_r.
  assert (Hpw : 0 < 2 ^ (- ez)) by (apply Z.pow_pos_nonneg; subst ez; lia).
  destruct ((Zpos a + Zpos b) * 2 ^ (- ez)) as [ | M | M] eqn:EM; try lia.
  cbn [binary_normalize].
  rewrite (binary_round_exact false M (a + b) (- ez) ez).
  - f_equal. lia.
  - subst ez; lia.
  - rewrite Pos2Z.inj_add. symmetry; exact EM.
  - exact Hab.
  - lia.
Qed.

Lemma div_eucl_pair a b : Z.div_eucl a b = (a / b, a mod b).
Proof. unfold Z.div, Z.modulo. destruct (Z.div_eucl a b); reflexivity. Qed.

Lemma new_location_zero n : new_location n 0 = loc_Exact.
Proof. unfold new_location, new_location_even, new_location_odd. destruct (Z.even n); reflexivity. Qed.

Lemma div_core_exact (m1 m2 : positive) (e1 e2 q : Z) :
  dig m1 = 53 -> dig m2 = 53 -> -1021 <= e1 - e2 ->
  Zpos m1 * 2 ^ 53 = q * Zpos m2 ->
  SFdiv_core_binary prec emax (Zpos m1) e1 (Zpos m2) e2 = (q, e1 - e2 - 53, loc_Exact).
Proof.
  intros H1 H2 He Hq. unfold SFdiv_core_binary. cbn [Zdigits2]. fold (dig m1) (dig m2).
  rewrite H1, H2, fexp_eq.
  replace (Z.min (Z.max (53 + e1 - (53 + e2) - 53) (-1074)) (e1 - e2)) with (e1 - e2 - 53) by lia.
  replace (e1 - e2 - (e1 - e2 - 53)) with 53 by lia.
  cbv iota. rewrite Z.shiftl_mul_pow2 by lia. rewrite Hq, div_eucl_pair.
  rewrite Z.div_mul, Z.mod_mul by lia. rewrite new_location_zero. reflexivity.
Qed.

Lemma dig_mul_bounds (n v : positive) :
  dig n + dig v - 1 <= dig (n * v) <= dig n + dig v.
Proof.
  pose proof (dig_bounds n) as [Nlo Nhi]. pose proof (dig_bounds v) as [Vlo Vhi].
  pose proof (dig_bounds (n * v)) as [Plo Phi].
  pose proof (dig_pos n). pose proof (dig_pos v). pose proof (dig_pos (n * v)).
  rewrite Pos2Z.inj_mul in Plo, Phi.
  assert (L : 2 ^ (dig n - 1 + (dig v - 1)) < 2 ^ dig (n * v)).
  { rewrite Z.pow_add_r by lia.
    assert (0 < 2 ^ (dig n - 1)) by (apply Z.pow_pos_nonneg; lia).
    assert (0 < 2 ^ (dig v - 1)) by (apply Z.pow_pos_nonneg; lia).
    hide_pow. nia. }
  assert (U : 2 ^ (dig (n * v) - 1) < 2 ^ (dig n + dig v)).
  { rewrite (Z.pow_add_r 2 (dig n)) by lia. hide_pow. nia. }
  apply Z.pow_lt_mono_r_iff in L; [ | lia | lia].
  apply Z.pow_lt_mono_r_iff in U; [ | lia | lia]. lia.
Qed.

Lemma canon_div (n v : positive) :
  Zpos n * Zpos v < 2 ^ 53 -> f64_div (canon (n * v)) (canon n) = canon v.
Proof.
  intros Hprod.
  assert (Hnv : dig (n * v) <= 53) by (apply dig_le_53; lia).
  assert (Hn : dig n <= 53) by (apply dig_le_53; nia).
  assert (Hv : dig v <= 53) by (apply dig_le_53; nia).
  pose proof (dig_mul_bounds n v) as [Dlo Dhi].
  pose proof (dig_pos n). pose proof (dig_pos v). pose proof (dig_pos (n * v)).
  unfold f64_div, canon, SFdiv.
  rewrite (div_core_exact _ _ _ _ (Zpos v * 2 ^ (53 - dig (n * v) + dig n))).
  - cbn [xorb].
    assert (Hq : 0 < Zpos v * 2 ^ (53 - dig (n * v) + dig n)).
    { assert (0 < 2 ^ (53 - dig (n * v) + dig n)) by (apply Z.pow_pos_nonneg; lia). lia. }
    destruct (Zpos v * 2 ^ (53 - dig (n * v) + dig n)) as [ | M | M] eqn:EM; try lia.
    rewrite (bra_exact false M v (53 - dig (n * v) + dig n)); [f_equal; lia | lia | auto | exact Hv | lia | lia].
  - apply norm_mant_dig; exact Hnv.
  - apply norm_mant_dig; exact Hn.
  - lia.
  - rewrite !norm_mant_spec by assumption. rewrite Pos2Z.inj_mul.
    replace (53 - dig (n * v) + dig n) with ((53 - dig (n * v)) + (53 - (53 - dig n))) by lia.
    rewrite (Z.pow_add_r 2 (53 - dig (n * v))) by lia.
    replace (2 ^ 53) with (2 ^ (53 - (53 - dig n)) * 2 ^ (53 - dig n)).
    + ring.
    + rewrite <- Z.pow_add_r by lia. f_equal. lia.
Qed.

Lemma f64_of_Z_small (k : Z) : 0 < k < 2 ^ 53 -> exists p, k = Zpos p /\ f64_of_Z k = canon p.
Proof.
  intros [Hlo Hhi]. destruct k as [ | p | p]; try lia.
  exists p. split; [reflexivity | ]. apply f64_of_Z_pos, dig_le_53. exact Hhi.
Qed.

Lemma f64_add_zero_l (b : Z) : 0 <= b < 2 ^ 53 -> f64_add f64_zero (f64_of_Z b) = f64_of_Z b.
Proof.
  intros Hb. destruct (Z.eq_dec b 0) as [-> | Nb]; [reflexivity | ].
  destruct (f64_of_Z_small b) as (p & -> & ->); [lia | reflexivity].
Qed.

(** Sums of non-negative integers are exact below 2^53. *)
Lemma f64_add_exact (a b : Z) :
  0 <= a -> 0 <= b -> a + b < 2 ^ 53 ->
  f64_add (f64_of_Z a) (f64_of_Z b) = f64_of_Z (a + b).
Proof.
  intros Ha Hb Hs.
  destruct (Z.eq_dec a 0) as [-> | Na]; [apply f64_add_zero_l; lia | ].
  destruct (Z.eq_dec b 0) as [-> | Nb].
  - rewrite Z.add_0_r. destruct (f64_of_Z_small a) as (p & -> & ->); [lia | ].
    reflexivity.
  - destruct (f64_of_Z_small a) as (p & -> & Ep); [lia | ].
    destruct (f64_of_Z_small b) as (q & -> & Eq); [lia | ].
    rewrite Ep, Eq, canon_add by exact Hs.
    symmetry. change (Zpos p + Zpos q) with (Zpos (p + q)).
    apply f64_of_Z_pos, dig_le_53. rewrite Pos2Z.inj_add. exact Hs.
Qed.

(** Dividing an exact multiple by its factor is exact below 2^53. *)
Lemma f64_div_exact (n v : Z) :
  0 < n < 2 ^ 53 -> 0 <= v -> n * v < 2 ^ 53 ->
  f64_div (f64_of_Z (n * v)) (f64_of_Z n) = f64_of_Z v.
Proof.
  intros Hn Hv Hp.
  destruct (f64_of_Z_small n) as (p & -> & Ep); [lia | ]. rewrite Ep.
  destruct (Z.eq_dec v 0) as [-> | Nv]; [rewrite Z.mul_0_r; reflexivity | ].
  destruct (f64_of_Z_small v) as (q & -> & Eq); [nia | ]. rewrite Eq.
  change (Zpos p * Zpos q) with (Zpos (p * q)).
  rewrite f64_of_Z_pos by (apply dig_le_53; rewrite Pos2Z.inj_mul; exact Hp).
  apply canon_div. exact Hp.
Qed.

Lemma u8_to_Z_range (b : byte) : 0 <= u8_to_Z b <= 255.
Proof.
  unfold u8_to_Z. pose proof (Byte.to_N_bounded b). lia.
Qed.

Lemma u8_of_to_Z (b : byte) : u8_of_Z (u8_to_Z b) = b.
Proof.
  unfold u8_of_Z. pose proof (u8_to_Z_range b).
  rewrite Z.mod_small by lia. unfold u8_to_Z. rewrite N2Z.id, Byte.of_to_N. reflexivity.
Qed.

Lemma u8_to_of_Z (z : Z) : 0 <= z <= 255 -> u8_to_Z (u8_of_Z z) = z.
Proof.
  intros Hz. unfold u8_of_Z, u8_to_Z. rewrite Z.mod_small by lia.
  destruct (Byte.of_N (Z.to_N z)) as [b | ] eqn:E.
  - apply Byte.to_of_N in E. rewrite E. lia.
  - pose proof (Byte.to_of_N_option_map (Z.to_N z)) as H. rewrite E in H. cbn in H.
    destruct (N.leb_spec (Z.to_N z) 255); [discriminate | lia].
Qed.

(** Clipping and casting a sample that is already an 8-bit value gives it
    back. *)
Lemma cast_of_u8 (b : byte) : astype_uint8 (clip_u8 (f64_of_u8 b)) = b.
Proof. destruct b; vm_compute; reflexivity. Qed.

(** The sum of [n] copies of a sample, divided by [n], is the sample. *)
Lemma average_sample_copies (n : Z) (b : byte) :
  0 < n -> 255 * n < 2 ^ 53 ->
  average_sample n (f64_of_Z (n * u8_to_Z b)) = b.
Proof.
  intros Hn Hb. pose proof (u8_to_Z_range b). unfold average_sample.
  rewrite f64_div_exact by nia. apply cast_of_u8.
Qed.

Lemma valid_dig (s : bool) (m : positive) (e : Z) :
  valid_binary prec emax (S754_finite s m e) = true -> dig m <= 53.
Proof.
  cbn [valid_binary]. unfold bounded, canonical_mantissa. rewrite fexp_eq. fold (dig m).
  intros H. apply andb_prop in H as [H _]. apply Z.eqb_eq in H. lia.
Qed.

Lemma compare_cont_Eq (p q : positive) : PosDef.Pos.compare_cont Eq p q = Pos.compare p q.
Proof. reflexivity. Qed.

Lemma f64_255 : f64_of_Z 255 = S754_finite false 8972014882652160 (-45).
Proof. reflexivity. Qed.

(** After clipping, the cast keeps the integer part: the sample [n] written
    for the clipped value [y = num / 2^k] is the floor of [y]. *)
Lemma clip_cast_floor (x : float64) :
  valid_binary prec emax x = true ->
  u8_to_Z (astype_uint8 (clip_u8 x))
  = fst (f64_value (clip_u8 x)) / 2 ^ snd (f64_value (clip_u8 x)).
Proof.
  intros Hv. unfold clip_u8, f64_clip. rewrite f64_255.
  change (f64_of_Z 0) with (S754_zero false).
  destruct x as [s | s | | s m e].
  - destruct s; vm_compute; reflexivity.
  - destruct s; vm_compute; reflexivity.
  - reflexivity.
  - destruct s; [vm_compute; reflexivity | ].
    cbn [SFcompare].
    pose proof (valid_dig _ _ _ Hv) as Hd. pose proof (dig_bounds m) as [_ Hm].
    assert (Hm53 : Zpos m < 2 ^ 53).
    { eapply Z.lt_le_trans; [exact Hm | apply Z.pow_le_mono_r; lia]. }
    assert (Hfloor : forall e', e' <= -45 ->
              (e' = -45 -> Zpos m <= 8972014882652160) ->
              u8_to_Z (astype_uint8 (S754_finite false m e'))
              = fst (f64_value (S754_finite false m e')) / 2 ^ snd (f64_value (S754_finite false m e'))).
    { intros e' He' Hm'. unfold astype_uint8, f64_trunc, f64_value. cbn [cond_Zopp].
      destruct (Z.leb_spec 0 e'); [lia | ]. cbn [fst snd].
      rewrite <- (Z.opp_involutive e') at 1. rewrite Z.shiftl_opp_r.
      rewrite Z.shiftr_div_pow2 by lia.
      apply u8_to_of_Z. split; [apply Z.div_pos; [lia | apply Z.pow_pos_nonneg; lia] | ].
      destruct (Z.eq_dec e' (-45)) as [-> | Ne].
      - specialize (Hm' eq_refl). change (- -45) with 45.
        apply Z.lt_succ_r. apply Z.div_lt_upper_bound; [reflexivity | ].
        change (2 ^ 45 * Z.succ 255) with 9007199254740992. lia.
      - apply Z.lt_succ_r. apply Z.div_lt_upper_bound; [apply Z.pow_pos_nonneg; lia | ].
        assert (2 ^ 46 <= 2 ^ (- e')) by (apply Z.pow_le_mono_r; lia).
        change (2 ^ 53) with 9007199254740992 in Hm53.
        change (2 ^ 46) with 70368744177664 in H0. nia. }
    destruct (Z.compare_spec e (-45)) as [-> | Hlt | Hgt].
    + rewrite compare_cont_Eq.
      destruct (Pos.compare_spec m 8972014882652160) as [Ec | Ec | Ec].
      * subst m. apply Hfloor; lia.
      * apply Pos2Z.pos_lt_pos in Ec. apply Hfloor; [lia | intros _; apply Z.lt_le_incl; exact Ec].
      * vm_compute; reflexivity.
    + apply Hfloor; lia.
    + vm_compute; reflexivity.
Qed.

End Binary64Facts.

(** ** Strings, sorting and the directory tree *)

Lemma endswith_spec (s suffix : string) :
  endswith s suffix = true <-> exists p, s = (p ++ suffix)%string.
Proof.
  split.
  - induction s as [ | c r IH]; cbn [endswith].
    + destruct (String.eqb_spec "" suffix) as [<- | N]; [ | discriminate].
      intros _. exists "". reflexivity.
    + destruct (String.eqb_spec (String c r) suffix) as [<- | N].
      * intros _. exists "". reflexivity.
      * intros H. destruct (IH H) as [p ->]. exists (String c p). reflexivity.
  - intros [p ->]. induction p as [ | c p IH]; cbn [append].
    + destruct suffix; cbn [endswith]; rewrite String.eqb_refl; reflexivity.
    + cbn [endswith]. rewrite IH. destruct (String.eqb _ _); reflexivity.
Qed.

Lemma In_insert_sorted (x y : string) (l : list string) :
  In y (insert_sorted x l) <-> y = x \/ In y l.
Proof.
  induction l as [ | z r IH]; cbn [insert_sorted].
  - cbn. intuition congruence.
  - destruct (String.leb x z); cbn [In]; [intuition congruence | ].
    rewrite IH. intuition congruence.
Qed.

Lemma In_sorted (y : string) (l : list string) : In y (sorted l) <-> In y l.
Proof.
  induction l as [ | x r IH]; cbn [sorted]; [reflexivity | ].
  rewrite In_insert_sorted, IH. cbn. intuition congruence.
Qed.

Lemma length_insert_sorted (x : string) (l : list string) :
  List.length (insert_sorted x l) = S (List.length l).
Proof.
  induction l as [ | z r IH]; cbn [insert_sorted]; [reflexivity | ].
  destruct (String.leb x z); cbn [List.length]; [reflexivity | ]. rewrite IH. reflexivity.
Qed.

Lemma length_sorted (l : list string) : List.length (sorted l) = List.length l.
Proof.
  induction l as [ | x r IH]; cbn [sorted]; [reflexivity | ].
  rewrite length_insert_sorted, IH. reflexivity.
Qed.

Lemma find_entry_set_entry (c : string) (x : node) (es : list (string * node)) :
  find_entry c (set_entry c x es) = Some x.
Proof.
  induction es as [ | [n y] r IH]; cbn [set_entry find_entry].
  - rewrite String.eqb_refl. reflexivity.
  - destruct (String.eqb n c) eqn:E; cbn [find_entry]; rewrite E; [reflexivity | exact IH].
Qed.

Lemma find_entry_In (c : string) (es : list (string * node)) (x : node) :
  find_entry c es = Some x -> In c (map fst es).
Proof.
  induction es as [ | [n y] r IH]; cbn [find_entry map fst In]; [discriminate | ].
  destruct (String.eqb_spec n c) as [-> | N]; [left; reflexivity | right; auto].
Qed.

(** A directory that [os.makedirs] reports created is a directory. *)
Lemma mkdir_p_lookup (p : string) (comps : list string) :
  forall n n', mkdir_p p n comps = inr n' -> exists es, lookup n' comps = Some (Dir es).
Proof.
  induction comps as [ | c r IH]; intros n n'; cbn [mkdir_p lookup].
  - destruct n; try discriminate. intros H. injection H as <-. eexists. reflexivity.
  - destruct n as [ | es | ]; try discriminate.
    destruct (mkdir_p p _ r) as [e | ch'] eqn:E; [discriminate | ].
    intros H. injection H as <-. rewrite find_entry_set_entry. exact (IH _ _ E).
Qed.

(** [os.makedirs] succeeds when nothing but directories lies on the path:
    whatever is missing is created. *)
Lemma mkdir_p_total (p : string) (comps : list string) :
  forall n,
    (forall pre post x, comps = pre ++ post -> lookup n pre = Some x ->
                        exists es, x = Dir es) ->
    exists n', mkdir_p p n comps = inr n'.
Proof.
  induction comps as [ | c r IH]; intros n H.
  - destruct (H [] [] n eq_refl eq_refl) as [es ->]. eexists. reflexivity.
  - destruct (H [] (c :: r) n eq_refl eq_refl) as [es ->]. cbn [mkdir_p].
    destruct (IH (match find_entry c es with Some ch => ch | None => Dir [] end))
      as [ch' E].
    + intros pre post x -> L.
      destruct (find_entry c es) as [ch | ] eqn:F.
      * apply (H (c :: pre) post x eq_refl). cbn [lookup]. rewrite F. exact L.
      * destruct pre as [ | c' pre']; cbn [lookup find_entry] in L; [ | discriminate].
        injection L as <-. eexists. reflexivity.
    + rewrite E. eexists. reflexivity.
Qed.

(** A file that was written holds what was written. *)
Lemma write_at_lookup (p : string) (d : list byte) (comps : list string) :
  forall n n', write_at p n comps d = inr n' -> lookup n' comps = Some (File d).
Proof.
  induction comps as [ | c r IH]; intros n n'; cbn [write_at]; [discriminate | ].
  destruct n as [ | es | ]; try discriminate.
  destruct r as [ | c' r'].
  - destruct (find_entry c es) as [[ | | ] | ]; try discriminate;
      intros H; injection H as <-; cbn [lookup]; rewrite find_entry_set_entry; reflexivity.
  - destruct (find_entry c es) as [ch | ]; [ | discriminate].
    destruct (write_at p ch (c' :: r') d) as [e | ch'] eqn:E; [discriminate | ].
    intros H. injection H as <-. cbn [lookup]. rewrite find_entry_set_entry.
    exact (IH _ _ E).
Qed.

(** ** Running the function body *)

Section ProgramFacts.

Context {codec : Codec}.

Lemma add_log_add_log w a b : add_log (add_log w a) b = add_log w (a ++ b).
Proof. unfold add_log. cbn. rewrite app_assoc. reflexivity. Qed.

Lemma read_file_add_log w l p : read_file (add_log w l) p = read_file w p.
Proof. reflexivity. Qed.

Ltac run_m :=
  cbv [iteration try_body image_open image_save try_except bind ret raise print emit
       accepts lenient_console get_world get_frame put_frame put_world lift except_clause set_errors set_count
       set_target_size set_sum_array set_resize_count os_makedirs os_path_abspath
       os_path_isdir os_listdir];
  cbn [sum_array target_size count resize_count errors];
  rewrite ?add_log_add_log, ?read_file_add_log; cbn [app].

Lemma extends_refl w : extends w w [].
Proof. unfold extends. rewrite app_nil_r. auto. Qed.

Lemma extends_add_log w evs : extends w (add_log w evs) evs.
Proof. unfold extends, add_log. cbn. auto. Qed.

Lemma extends_trans w w1 w2 e1 e2 :
  extends w w1 e1 -> extends w1 w2 e2 -> extends w w2 (e1 ++ e2).
Proof.
  unfold extends. intros (R1 & C1 & L1) (R2 & C2 & L2).
  rewrite R2, C2, L2, L1, app_assoc. auto.
Qed.

Lemma load_ext w w0 input_folder filename :
  root w = root w0 -> cwd w = cwd w0 ->
  load w input_folder filename = load w0 input_folder filename.
Proof. intros R C. unfold load, read_file, stat, resolve. rewrite R, C. reflexivity. Qed.

Lemma size_eqb_eq a b : size_eqb a b = true -> a = b.
Proof.
  destruct a, b. unfold size_eqb. cbn. intros H. apply andb_prop in H as [H1 H2].
  apply Nat.eqb_eq in H1, H2. congruence.
Qed.

Lemma size_eqb_refl a : size_eqb a a = true.
Proof. unfold size_eqb. rewrite !Nat.eqb_refl. reflexivity. Qed.

Lemma shape_eqb_refl a : shape_eqb a a = true.
Proof. unfold shape_eqb. rewrite !Nat.eqb_refl. reflexivity. Qed.

Lemma conform_size t i i' : conform t i = inr i' -> img_size i' = t.
Proof.
  unfold conform. destruct (size_eqb (img_size i) t) eqn:E.
  - intros H. injection H as <-. apply size_eqb_eq, E.
  - intros H. apply pil_resize_wf in H. apply H.
Qed.

(** A file that does not decode is skipped, whatever the locals are. *)
Lemma iteration_load_fails input_folder total cur filename f w e :
  load w input_folder filename = inl e ->
  iteration input_folder total cur filename (f, w)
  = (inr tt, (skip_frame f filename e,
              add_log w [Print (LProgress cur total filename);
                         Opened (os_path_join input_folder filename);
                         Print (LSkip filename (exn_str e))])).
Proof.
  unfold load. intros H. run_m.
  destruct (read_file w (os_path_join input_folder filename)) as [e1 | d]; run_m.
  - injection H as ->. reflexivity.
  - destruct (pil_open d) as [e1 | pimg]; run_m.
    + injection H as ->. reflexivity.
    + rewrite H. run_m. reflexivity.
Qed.

(** The first file that decodes fixes the reference size and starts the
    accumulator. *)
Lemma iteration_first input_folder total cur filename f w i :
  target_size f = None -> sum_array f = None ->
  load w input_folder filename = inr i ->
  iteration input_folder total cur filename (f, w)
  = (inr tt,
     (mk_frame (Some (mk_nd (shape_of_size (img_size i))
                            (vadd (repeat f64_zero (n_samples (img_size i)))
                                  (map f64_of_u8 (img_data i)))))
               (Some (img_size i)) (count f + 1) (resize_count f) (errors f),
      add_log w [Print (LProgress cur total filename);
                 Opened (os_path_join input_folder filename);
                 Print (LBaseSize (img_size i))])).
Proof.
  unfold load. intros Ht Hs H. run_m.
  destruct (read_file w (os_path_join input_folder filename)) as [e1 | d]; [discriminate | ].
  run_m. destruct (pil_open d) as [e1 | pimg]; [discriminate | ].
  run_m. rewrite H. run_m. rewrite Ht. run_m.
  rewrite size_eqb_refl. cbn [negb]. run_m.
  unfold np_iadd, np_zeros, np_array. cbn [nd_shape nd_data].
  rewrite shape_eqb_refl. run_m. reflexivity.
Qed.

(** Once the reference size is fixed, a file is added to the accumulator
    when it is processed successfully and skipped otherwise. *)
Lemma iteration_next input_folder total cur filename f w t a :
  target_size f = Some t -> sum_array f = Some a -> nd_shape a = shape_of_size t ->
  iteration input_folder total cur filename (f, w)
  = match process w input_folder t filename with
    | inr i =>
        (inr tt,
         (mk_frame (Some (mk_nd (shape_of_size t)
                                (vadd (nd_data a) (map f64_of_u8 (img_data i)))))
                   (Some t) (count f + 1)
                   (resize_count f
                    + (if is_resize_event w input_folder t filename then 1 else 0))
                   (errors f),
          add_log w [Print (LProgress cur total filename);
                     Opened (os_path_join input_folder filename)]))
    | inl e =>
        (inr tt, (skip_frame f filename e,
                  add_log w [Print (LProgress cur total filename);
                             Opened (os_path_join input_folder filename);
                             Print (LSkip filename (exn_str e))]))
    end.
Proof.
  intros Ht Hs Ha. unfold process, is_resize_event.
  destruct (load w input_folder filename) as [e | i] eqn:L.
  - apply iteration_load_fails. exact L.
  - unfold load in L. run_m.
    destruct (read_file w (os_path_join input_folder filename)) as [e1 | d]; [discriminate | ].
    run_m. destruct (pil_open d) as [e1 | pimg]; [discriminate | ].
    run_m. rewrite L. run_m. rewrite Ht. run_m. rewrite Ht.
    unfold conform. destruct (size_eqb (img_size i) t) eqn:E; cbn [negb andb]; run_m.
    + rewrite Hs. unfold np_iadd, np_array. cbn [nd_shape nd_data].
      rewrite Ha, (size_eqb_eq _ _ E), shape_eqb_refl. run_m.
      rewrite Z.add_0_r, Ht. reflexivity.
    + destruct (pil_resize i t) as [e1 | i'] eqn:R; run_m; [reflexivity | ].
      rewrite Hs. unfold np_iadd, np_array. cbn [nd_shape nd_data].
      destruct (pil_resize_wf _ _ _ R) as [Hsz _].
      rewrite Ha, Hsz, shape_eqb_refl. run_m. rewrite Ht. reflexivity.
Qed.

Lemma process_ext w w0 input_folder t filename :
  root w = root w0 -> cwd w = cwd w0 ->
  process w input_folder t filename = process w0 input_folder t filename.
Proof. intros R C. unfold process. rewrite (load_ext w w0) by assumption. reflexivity. Qed.

Lemma is_resize_event_ext w w0 input_folder t filename :
  root w = root w0 -> cwd w = cwd w0 ->
  is_resize_event w input_folder t filename = is_resize_event w0 input_folder t filename.
Proof.
  intros R C. unfold is_resize_event. rewrite (load_ext w w0) by assumption. reflexivity.
Qed.

Lemma opened_app a b : opened (a ++ b) = opened a ++ opened b.
Proof. unfold opened. apply flat_map_app. Qed.

Lemma is_resize_event_success w input_folder t filename :
  is_resize_event w input_folder t filename = true ->
  exists i, process w input_folder t filename = inr i.
Proof.
  unfold is_resize_event, process, conform.
  destruct (load w input_folder filename) as [e | i]; [discriminate | ].
  destruct (size_eqb (img_size i) t); [discriminate | ]. cbn [negb andb].
  destruct (pil_resize i t) as [e | i']; [discriminate | ]. intros _. eexists. reflexivity.
Qed.

(** The loop, once the reference size is fixed. *)
Lemma main_loop_next w0 input_folder total t :
  forall names cur f w a,
    root w = root w0 -> cwd w = cwd w0 ->
    target_size f = Some t -> sum_array f = Some a -> nd_shape a = shape_of_size t ->
    exists w' evs,
      main_loop input_folder total cur names (f, w)
      = (inr tt,
         (mk_frame
            (Some (mk_nd (shape_of_size t)
                         (sum_images (nd_data a) (successes w0 input_folder t names))))
            (Some t)
            (count f + Z.of_nat (List.length (successes w0 input_folder t names)))
            (resize_count f
             + Z.of_nat (List.length (resize_events w0 input_folder t names)))
            (errors f ++ failures w0 input_folder t names),
          w'))
      /\ extends w w' evs
      /\ opened evs = map (os_path_join input_folder) names
      /\ filter is_output_event evs = [].
Proof.
  induction names as [ | n r IH]; intros cur f w a R C Ht Hs Ha.
  - exists w, []. split; [ | split; [apply extends_refl | split; reflexivity]].
    cbn. unfold ret. destruct f as [sa ts c rc er], a as [sh da]. cbn in *. subst.
    rewrite !Z.add_0_r, app_nil_r. reflexivity.
  - cbn [main_loop]. unfold bind at 1.
    rewrite (iteration_next _ _ _ _ _ _ t a Ht Hs Ha).
    rewrite (process_ext w w0), (is_resize_event_ext w w0) by assumption.
    cbn [successes failures]. unfold resize_events. cbn [filter].
    destruct (process w0 input_folder t n) as [e | i] eqn:P.
    + assert (E : is_resize_event w0 input_folder t n = false).
      { destruct (is_resize_event w0 input_folder t n) eqn:E; [ | reflexivity].
        apply is_resize_event_success in E as [i E]. congruence. }
      rewrite E.
      match goal with
      | |- context [main_loop _ _ _ _ (?f1, ?w1)] =>
          destruct (IH (cur + 1) f1 w1 a) as (w' & evs & Hrun & Hext & Hop & Hwr);
            try assumption
      end.
      rewrite Hrun. eexists w', (_ ++ evs).
      split; [ | split; [eapply extends_trans; [apply extends_add_log | exact Hext] | ]].
      * unfold skip_frame. cbn [count resize_count errors].
        rewrite <- app_assoc. reflexivity.
      * rewrite opened_app, filter_app, Hop, Hwr. split; reflexivity.
    + match goal with
      | |- context [main_loop _ _ _ _ (?f1, ?w1)] =>
          destruct (IH (cur + 1) f1 w1
                      (mk_nd (shape_of_size t)
                             (vadd (nd_data a) (map f64_of_u8 (img_data i)))))
            as (w' & evs & Hrun & Hext & Hop & Hwr);
            try reflexivity; try assumption
      end.
      rewrite Hrun. eexists w', (_ ++ evs).
      split; [ | split; [eapply extends_trans; [apply extends_add_log | exact Hext] | ]].
      * cbn [count resize_count errors nd_data List.length]. unfold sum_images.
        cbn [fold_left]. f_equal. f_equal. f_equal; [lia | ].
        unfold resize_events.
        destruct (is_resize_event w0 input_folder t n); cbn [List.length]; lia.
      * rewrite opened_app, filter_app, Hop, Hwr. split; reflexivity.
Qed.

Lemma conform_same i : conform (img_size i) i = inr i.
Proof. unfold conform. rewrite size_eqb_refl. reflexivity. Qed.

(** The loop from the start: files are skipped until one decodes; its size
    becomes the reference for the rest. *)
Lemma main_loop_init w0 input_folder total :
  forall names cur f w,
    root w = root w0 -> cwd w = cwd w0 ->
    target_size f = None -> sum_array f = None ->
    exists w' evs,
      main_loop input_folder total cur names (f, w)
      = (inr tt, (loop_result w0 input_folder names f, w'))
      /\ extends w w' evs
      /\ opened evs = map (os_path_join input_folder) names
      /\ filter is_output_event evs = [].
Proof.
  induction names as [ | n r IH]; intros cur f w R C Ht Hs.
  - exists w, []. split; [ | split; [apply extends_refl | split; reflexivity]].
    cbn. unfold ret, loop_result. cbn.
    destruct f as [sa ts c rc er]. cbn in *. subst.
    rewrite !Z.add_0_r, app_nil_r. reflexivity.
  - cbn [main_loop]. unfold bind at 1.
    destruct (load w0 input_folder n) as [e | i] eqn:L.
    + rewrite (iteration_load_fails _ _ _ _ _ _ e)
        by (rewrite (load_ext w w0) by assumption; exact L).
      match goal with
      | |- context [main_loop _ _ _ _ (?f1, ?w1)] =>
          destruct (IH (cur + 1) f1 w1) as (w' & evs & Hrun & Hext & Hop & Hwr);
            try assumption
      end.
      rewrite Hrun. eexists w', (_ ++ evs).
      split; [ | split; [eapply extends_trans; [apply extends_add_log | exact Hext] | ]].
      * unfold loop_result, reference_or_default, resize_events, is_resize_event, process.
        cbn [reference_size successes failures filter]. unfold process. rewrite L.
        unfold skip_frame. cbn [count resize_count errors].
        rewrite <- app_assoc. reflexivity.
      * rewrite opened_app, filter_app, Hop, Hwr. split; reflexivity.
    + rewrite (iteration_first _ _ _ _ _ _ i Ht Hs)
        by (rewrite (load_ext w w0) by assumption; exact L).
      match goal with
      | |- context [main_loop _ _ _ _ (?f1, ?w1)] =>
          destruct (main_loop_next w0 input_folder total (img_size i) r (cur + 1) f1 w1
                      (mk_nd (shape_of_size (img_size i))
                             (vadd (repeat f64_zero (n_samples (img_size i)))
                                   (map f64_of_u8 (img_data i)))))
            as (w' & evs & Hrun & Hext & Hop & Hwr);
            try reflexivity; try assumption
      end.
      rewrite Hrun. eexists w', (_ ++ evs).
      split; [ | split; [eapply extends_trans; [apply extends_add_log | exact Hext] | ]].
      * unfold loop_result, reference_or_default, resize_events, is_resize_event, process.
        cbn [reference_size successes failures filter]. unfold process. rewrite L.
        rewrite conform_same, size_eqb_refl.
        cbn [negb andb count resize_count errors nd_data List.length].
        unfold sum_images. cbn [fold_left]. f_equal. f_equal. f_equal. lia.
      * rewrite opened_app, filter_app, Hop, Hwr. split; reflexivity.
Qed.

Lemma print_errors_eq (l : list (string * string)) :
  forall f w,
    print_errors l (f, w)
    = (inr tt, (f, add_log w (map (fun x => Print (LSkippedItem (fst x) (snd x))) l))).
Proof.
  induction l as [ | [n e] r IH]; intros f w; cbn [print_errors map fst snd].
  - unfold ret, add_log. rewrite app_nil_r. destruct w; reflexivity.
  - run_m. rewrite IH, add_log_add_log. reflexivity.
Qed.

(** Lines 72-101 step by step: the directory is made, the raster encoded,
    the file written and the report printed; the first library call that
    fails ends the call. *)
Lemma write_output_eq output_path f w a :
  sum_array f = Some a ->
  write_output output_path (f, w)
  = let '(r, w') := output_phase output_path f (average_image a (count f)) w in
    (r, (f, w')).
Proof.
  intros Hs. unfold write_output, output_phase. run_m. rewrite Hs. run_m.
  destruct (makedirs (add_log w [MadeDirs (os_path_dirname output_path)])
                     (os_path_dirname output_path)) as [e | w2]; run_m; [reflexivity | ].
  destruct (pil_encode output_path _ _) as [e | bytes]; run_m; [reflexivity | ].
  destruct (write_file _ output_path bytes) as [e | w3]; run_m; [reflexivity | ].
  unfold report.
  destruct (errors f) as [ | x r] eqn:Er; run_m.
  - reflexivity.
  - rewrite print_errors_eq. run_m. reflexivity.
Qed.

Lemma isdir_listdir w p : isdir w p = true -> exists names, listdir w p = inr names.
Proof.
  unfold isdir, listdir. destruct (stat w p) as [[ | es | ] | ]; try discriminate.
  intros _. eexists. reflexivity.
Qed.

Lemma file_list_nil w input_folder names :
  listdir w input_folder = inr names ->
  (Z.of_nat (List.length (select_files names)) =? 0) = true <-> file_list w input_folder = [].
Proof.
  intros L. unfold file_list. rewrite L. rewrite Z.eqb_eq. split.
  - intros H. apply length_zero_iff_nil. rewrite length_sorted. lia.
  - intros H. apply (f_equal (@List.length string)) in H. rewrite length_sorted in H.
    cbn in H. lia.
Qed.

(** The function up to the loop (lines 14-66). *)
Lemma compute_average_image_eq input_folder output_path w :
  compute_average_image input_folder output_path (init_frame, w)
  = if isdir w input_folder then
      match file_list w input_folder with
      | [] => (inl (ValueError NoSupportedFiles), (init_frame, w))
      | _ => match loop_phase input_folder w with
             | (inr _, s) => finish output_path s
             | (inl e, s) => (inl e, s)
             end
      end
    else (inl (ValueError (InputFolderMissing input_folder)), (init_frame, w)).
Proof.
  unfold compute_average_image. run_m.
  destruct (isdir w input_folder) eqn:D; cbn [negb]; [ | reflexivity].
  destruct (isdir_listdir _ _ D) as [names L]. rewrite L. run_m.
  assert (FL : file_list w input_folder = sorted (select_files names))
    by (unfold file_list; rewrite L; reflexivity).
  unfold loop_phase. rewrite FL, length_sorted.
  destruct (Z.of_nat (List.length (select_files names)) =? 0) eqn:E.
  - apply Z.eqb_eq in E.
    destruct (sorted (select_files names)) eqn:S; [reflexivity | ].
    apply (f_equal (@List.length string)) in S. rewrite length_sorted in S.
    cbn [List.length] in S. lia.
  - apply Z.eqb_neq in E.
    destruct (sorted (select_files names)) eqn:S; [ | reflexivity].
    apply (f_equal (@List.length string)) in S. rewrite length_sorted in S.
    cbn [List.length] in S. lia.
Qed.

Lemma reference_none_decoded w input_folder names :
  reference_size w input_folder names = None <-> decoded w input_folder names = [].
Proof.
  induction names as [ | n r IH]; cbn [reference_size decoded]; [tauto | ].
  destruct (load w input_folder n); [exact IH | split; discriminate].
Qed.

Lemma reference_none_successes w input_folder t names :
  reference_size w input_folder names = None -> successes w input_folder t names = [].
Proof.
  induction names as [ | n r IH]; cbn [reference_size successes]; [reflexivity | ].
  unfold process. destruct (load w input_folder n); [exact IH | discriminate].
Qed.

Lemma reference_some_successes w input_folder t names :
  reference_size w input_folder names = Some t -> successes w input_folder t names <> [].
Proof.
  induction names as [ | n r IH]; cbn [reference_size successes]; [discriminate | ].
  unfold process. destruct (load w input_folder n) as [e | i]; [exact IH | ].
  intros H. injection H as <-. rewrite conform_same. discriminate.
Qed.

Lemma average_image_mean t data (n : nat) imgs :
  data = sum_images (repeat f64_zero (n_samples t)) imgs -> n = List.length imgs ->
  average_image (mk_nd (shape_of_size t) data) (0 + Z.of_nat n) = mean_image t imgs.
Proof.
  intros -> ->. unfold average_image, mean_image, shape_of_size. destruct t. reflexivity.
Qed.

(** The state in which the loop leaves the function, from the directory
    contents. *)
Lemma loop_phase_eq input_folder w :
  exists w1 evs,
    loop_phase input_folder w
    = (inr tt, (loop_result w input_folder (file_list w input_folder) init_frame, w1))
    /\ extends w w1 (Print (LFound (Z.of_nat (List.length (file_list w input_folder)))) :: evs)
    /\ opened evs = map (os_path_join input_folder) (file_list w input_folder)
    /\ filter is_output_event evs = [].
Proof.
  unfold loop_phase.
  destruct (main_loop_init w input_folder
              (Z.of_nat (List.length (file_list w input_folder)))
              (file_list w input_folder) 1 init_frame
              (add_log w [Print (LFound (Z.of_nat (List.length (file_list w input_folder))))]))
    as (w1 & evs & Hrun & Hext & Hop & Hwr); try reflexivity.
  exists w1, evs. split; [exact Hrun | split; [ | split; assumption]].
  eapply (extends_trans w _ w1 [_] evs); [apply extends_add_log | exact Hext].
Qed.

(** The four ways a call can go. *)
Lemma call_cases input_folder output_path w :
  let names := file_list w input_folder in
  (isdir w input_folder = false
   /\ call input_folder output_path w
      = (inl (ValueError (InputFolderMissing input_folder)), w))
  \/ (isdir w input_folder = true /\ names = []
      /\ call input_folder output_path w = (inl (ValueError NoSupportedFiles), w))
  \/ (isdir w input_folder = true /\ names <> []
      /\ reference_size w input_folder names = None
      /\ exists w1 evs,
          call input_folder output_path w = (inl (ValueError NoImagesLoaded), w1)
          /\ extends w w1 (Print (LFound (Z.of_nat (List.length names))) :: evs)
          /\ opened evs = map (os_path_join input_folder) names
          /\ filter is_output_event evs = [])
  \/ (isdir w input_folder = true /\ names <> []
      /\ exists t w1 evs,
          reference_size w input_folder names = Some t
          /\ extends w w1 (Print (LFound (Z.of_nat (List.length names))) :: evs)
          /\ opened evs = map (os_path_join input_folder) names
          /\ filter is_output_event evs = []
          /\ call input_folder output_path w
             = output_phase output_path (loop_result w input_folder names init_frame)
                            (mean_image t (successes w input_folder t names)) w1).
Proof.
  intros names. unfold call. rewrite compute_average_image_eq.
  destruct (isdir w input_folder) eqn:D; [ | left; auto].
  right. fold names. destruct names as [ | n r] eqn:N; [left; auto | ].
  right. rewrite <- N.
  destruct (loop_phase_eq input_folder w) as (w1 & evs & Hrun & Hext & Hop & Hwr).
  fold names in Hrun, Hext, Hop. rewrite Hrun.
  assert (Hne : names <> []) by (rewrite N; discriminate).
  unfold finish. run_m.
  destruct (reference_size w input_folder names) as [t | ] eqn:Rf.
  - right. split; [reflexivity | split; [exact Hne | ]].
    exists t, w1, evs.
    split; [reflexivity | split; [exact Hext | split; [exact Hop | split; [exact Hwr | ]]]].
    unfold loop_result at 1. cbn [count init_frame].
    pose proof (reference_some_successes _ _ _ _ Rf) as Hs.
    unfold reference_or_default. rewrite Rf.
    destruct (0 + Z.of_nat (List.length (successes w input_folder t names)) =? 0) eqn:E.
    + apply Z.eqb_eq in E. destruct (successes w input_folder t names); [congruence | ].
      cbn [List.length] in E. lia.
    + erewrite write_output_eq
        by (unfold loop_result, reference_or_default; rewrite Rf; reflexivity).
      unfold loop_result at 2. cbn [count init_frame].
      unfold reference_or_default. rewrite Rf.
      rewrite (average_image_mean t _ _ (successes w input_folder t names))
        by reflexivity.
      destruct (output_phase _ _ _ _). reflexivity.
  - left. split; [reflexivity | split; [exact Hne | split; [reflexivity | ]]].
    exists w1, evs.
    split; [ | split; [exact Hext | split; [exact Hop | exact Hwr]]].
    unfold loop_result. cbn [count init_frame].
    rewrite (reference_none_successes _ _ _ _ Rf). reflexivity.
Qed.

Lemma makedirs_ok w d w2 :
  makedirs w d = inr w2 ->
  d <> "" /\ cwd w2 = cwd w /\ log w2 = log w /\ isdir w2 d = true.
Proof.
  unfold makedirs. destruct (String.eqb_spec d "") as [-> | N]; [discriminate | ].
  destruct (mkdir_p d (root w) (resolve w d)) as [e | r] eqn:E; [discriminate | ].
  intros H. injection H as <-. repeat split; try assumption.
  unfold isdir, stat. destruct (String.eqb_spec d "") as [-> | _]; [congruence | ].
  destruct (mkdir_p_lookup _ _ _ _ E) as [es Hl].
  change (resolve (set_root w r) d) with (resolve w d). cbn [set_root root].
  rewrite Hl. reflexivity.
Qed.

Lemma write_file_ok w p bytes w3 :
  write_file w p bytes = inr w3 ->
  cwd w3 = cwd w /\ log w3 = log w /\ read_file w3 p = inr bytes.
Proof.
  unfold write_file. destruct (String.eqb_spec p "") as [-> | N]; [discriminate | ].
  destruct (write_at p (root w) (resolve w p) bytes) as [e | r] eqn:E; [discriminate | ].
  intros H. injection H as <-. repeat split.
  unfold read_file, stat. destruct (String.eqb_spec p "") as [-> | _]; [congruence | ].
  change (resolve (set_root w r) p) with (resolve w p). cbn [set_root root].
  rewrite (write_at_lookup _ _ _ _ _ E). reflexivity.
Qed.

(** A call that completes has made the directory, written the encoded
    raster and printed the report, in this order. *)
Lemma output_phase_ok output_path f img w w' :
  output_phase output_path f img w = (inr tt, w') ->
  let d := os_path_dirname output_path in
  let opts := opts_of_ext (lower (os_path_splitext_ext output_path)) in
  cwd w' = cwd w
  /\ log w' = log w ++ [MadeDirs d; Saved output_path opts img]
                    ++ report f (resolve w output_path)
  /\ exists bytes,
       pil_encode output_path opts img = inr bytes /\ read_file w' output_path = inr bytes.
Proof.
  unfold output_phase. intros H. cbv zeta.
  set (d := os_path_dirname output_path) in *.
  set (opts := opts_of_ext (lower (os_path_splitext_ext output_path))) in *.
  destruct (makedirs (add_log w [MadeDirs d]) d) as [e | w2] eqn:Md; [discriminate | ].
  destruct (pil_encode output_path opts img) as [e | bytes] eqn:En; [discriminate | ].
  destruct (write_file (add_log w2 [Saved output_path opts img]) output_path bytes)
    as [e | w3] eqn:Wr; [discriminate | ].
  injection H as <-.
  apply makedirs_ok in Md as (_ & C2 & L2 & _).
  apply write_file_ok in Wr as (C3 & L3 & Rd).
  cbn [add_log cwd log] in *.
  assert (Hres : resolve w3 output_path = resolve w output_path).
  { unfold resolve. rewrite C3, C2. reflexivity. }
  split; [congruence | split].
  - rewrite L3, L2, Hres, <- !app_assoc. reflexivity.
  - exists bytes. split; [reflexivity | exact Rd].
Qed.

Lemma opened_map_print {A} (g : A -> line) (l : list A) :
  opened (map (fun x => Print (g x)) l) = [].
Proof. induction l as [ | x r IH]; [reflexivity | exact IH]. Qed.

Lemma opened_cons_print (x : line) (l : list event) : opened (Print x :: l) = opened l.
Proof. reflexivity. Qed.

Lemma opened_report f p : opened (report f p) = [].
Proof.
  unfold report. rewrite !opened_app.
  destruct (errors f) as [ | x r]; [reflexivity | ].
  rewrite (opened_cons_print (LSkippedHeader _)).
  rewrite (opened_map_print (fun x0 : string * string => LSkippedItem (fst x0) (snd x0))).
  reflexivity.
Qed.

(** Whatever lines 72-101 raise comes from a library call, and no file is
    opened for reading there. *)
Lemma output_phase_any output_path f img w r w' :
  output_phase output_path f img w = (r, w') ->
  (forall v, r <> inl (ValueError v))
  /\ exists evs, log w' = log w ++ evs /\ opened evs = [].
Proof.
  unfold output_phase.
  set (d := os_path_dirname output_path).
  set (opts := opts_of_ext (lower (os_path_splitext_ext output_path))).
  destruct (makedirs (add_log w [MadeDirs d]) d) as [e | w2] eqn:Md.
  { intros H. injection H as <- <-. split; [discriminate | ].
    exists [MadeDirs d]. split; reflexivity. }
  apply makedirs_ok in Md as (_ & C2 & L2 & _). cbn [add_log cwd log] in *.
  destruct (pil_encode output_path opts img) as [e | bytes] eqn:En.
  { intros H. injection H as <- <-. split; [discriminate | ].
    exists [MadeDirs d; Saved output_path opts img]. cbn [add_log log].
    rewrite L2, <- app_assoc. split; reflexivity. }
  destruct (write_file (add_log w2 [Saved output_path opts img]) output_path bytes)
    as [e | w3] eqn:Wr.
  { intros H. injection H as <- <-. split; [discriminate | ].
    exists [MadeDirs d; Saved output_path opts img]. cbn [add_log log].
    rewrite L2, <- app_assoc. split; reflexivity. }
  apply write_file_ok in Wr as (C3 & L3 & Rd). cbn [add_log cwd log] in *.
  intros H. injection H as <- <-. split; [discriminate | ].
  exists ([MadeDirs d; Saved output_path opts img] ++ report f (resolve w3 output_path)).
  cbn [add_log log]. rewrite L3, L2, <- !app_assoc. split; [reflexivity | ].
  rewrite opened_app, opened_report. reflexivity.
Qed.

Lemma filter_write_cons_print (x : line) (l : list event) :
  filter is_write (Print x :: l) = filter is_write l.
Proof. reflexivity. Qed.

Lemma filter_write_map_print {A} (g : A -> line) (l : list A) :
  filter is_write (map (fun x => Print (g x)) l) = [].
Proof. induction l as [ | x r IH]; [reflexivity | exact IH]. Qed.

Lemma filter_write_report f p : filter is_write (report f p) = [].
Proof.
  unfold report. rewrite !filter_app.
  destruct (errors f) as [ | x r]; [reflexivity | ].
  rewrite (filter_write_cons_print (LSkippedHeader _)).
  rewrite (filter_write_map_print (fun x0 : string * string => LSkippedItem (fst x0) (snd x0))).
  reflexivity.
Qed.

(** A call that returns: what it has read, written and printed. *)
Lemma call_ok input_folder output_path w w' :
  call input_folder output_path w = (inr tt, w') ->
  let names := file_list w input_folder in
  let d := os_path_dirname output_path in
  let opts := opts_of_ext (lower (os_path_splitext_ext output_path)) in
  exists t evs,
    names <> []
    /\ reference_size w input_folder names = Some t
    /\ opened evs = map (os_path_join input_folder) names
    /\ filter is_output_event evs = []
    /\ log w' = log w
                ++ (Print (LFound (Z.of_nat (List.length names))) :: evs)
                ++ [MadeDirs d;
                    Saved output_path opts (mean_image t (successes w input_folder t names))]
                ++ report (loop_result w input_folder names init_frame)
                          (resolve w output_path)
    /\ exists bytes,
         pil_encode output_path opts (mean_image t (successes w input_folder t names))
         = inr bytes
         /\ read_file w' output_path = inr bytes.
Proof.
  intros H. cbv zeta.
  destruct (call_cases input_folder output_path w)
    as [(_ & E) | [(_ & _ & E) | [(_ & _ & _ & w1 & evs & E & _) | (_ & Hne & t & w1 & evs & Rf & Hext & Hop & Hwr & E)]]];
    try congruence.
  rewrite E in H. apply output_phase_ok in H as (Hc & Hl & bytes & En & Rd).
  destruct Hext as (R1 & C1 & L1).
  exists t, evs. split; [exact Hne | split; [exact Rf | split; [exact Hop | split; [exact Hwr | split]]]].
  - rewrite Hl, L1. replace (resolve w1 output_path) with (resolve w output_path)
      by (unfold resolve; rewrite C1; reflexivity).
    rewrite <- !app_assoc. reflexivity.
  - exists bytes. split; assumption.
Qed.

End ProgramFacts.

(** ** Averaging copies of one image *)

Section ImageFacts.

Import Binary64Facts.

Lemma vadd_map {A} (f g : A -> float64) (l : list A) :
  vadd (map f l) (map g l) = map (fun x => f64_add (f x) (g x)) l.
Proof.
  induction l as [ | x r IH]; [reflexivity | ]. cbn [map vadd]. rewrite IH. reflexivity.
Qed.

Lemma repeat_as_map {A B} (c : B) (l : list A) :
  repeat c (List.length l) = map (fun _ => c) l.
Proof.
  induction l as [ | x r IH]; [reflexivity | ]. cbn [List.length repeat map].
  rewrite IH. reflexivity.
Qed.

(** The accumulator after [k] copies of an image holds [k] times each
    sample, exactly, as long as [255 * k] stays below 2^53. *)
Lemma sum_copies (i : rgb_image) :
  forall (n : nat) (k : Z),
    0 <= k -> 255 * (k + Z.of_nat n) < 2 ^ 53 ->
    sum_images (map (fun b => f64_of_Z (k * u8_to_Z b)) (img_data i)) (repeat i n)
    = map (fun b => f64_of_Z ((k + Z.of_nat n) * u8_to_Z b)) (img_data i).
Proof.
  induction n as [ | n IH]; intros k Hk Hb.
  - cbn [repeat sum_images fold_left Z.of_nat]. unfold sum_images. cbn [fold_left].
    apply map_ext. intros b. rewrite Z.add_0_r. reflexivity.
  - cbn [repeat]. unfold sum_images. cbn [fold_left]. fold (sum_images).
    unfold f64_of_u8. rewrite vadd_map.
    rewrite (map_ext (fun b => f64_add (f64_of_Z (k * u8_to_Z b)) (f64_of_Z (u8_to_Z b)))
                     (fun b => f64_of_Z ((k + 1) * u8_to_Z b))).
    + change (fold_left (fun a i0 => vadd a (map (fun b => f64_of_Z (u8_to_Z b)) (img_data i0)))
                        (repeat i n)
                        (map (fun b => f64_of_Z ((k + 1) * u8_to_Z b)) (img_data i)))
        with (sum_images (map (fun b => f64_of_Z ((k + 1) * u8_to_Z b)) (img_data i))
                         (repeat i n)).
      rewrite IH by lia. apply map_ext. intros b. f_equal. lia.
    + intros b. pose proof (u8_to_Z_range b).
      rewrite f64_add_exact by nia. f_equal. lia.
Qed.

(** Averaging [n] copies of an image gives the image, for [255 * n < 2^53]. *)
Lemma mean_copies (i : rgb_image) (n : nat) :
  wf_rgb i -> (0 < n)%nat -> 255 * Z.of_nat n < 2 ^ 53 ->
  mean_image (img_size i) (repeat i n) = i.
Proof.
  intros Hwf Hn Hb. unfold mean_image. rewrite repeat_length.
  unfold wf_rgb in Hwf. rewrite <- Hwf, repeat_as_map.
  change (map (fun _ : byte => f64_zero) (img_data i))
    with (map (fun b => f64_of_Z (0 * u8_to_Z b)) (img_data i)).
  rewrite sum_copies by lia. rewrite map_map.
  rewrite (map_ext _ (fun b => b)).
  - rewrite map_id. destruct i; reflexivity.
  - intros b. apply average_sample_copies; lia.
Qed.

End ImageFacts.

(** ** Facts about the decoded files *)

Section SpecFacts.

Context {codec : Codec}.

Lemma load_wf w input_folder n i : load w input_folder n = inr i -> wf_rgb i.
Proof.
  unfold load. destruct (read_file w _) as [e | d]; [discriminate | ].
  destruct (pil_open d) as [e | p]; [discriminate | ]. apply pil_convert_wf.
Qed.

Lemma decoded_nil_resize w input_folder t names :
  decoded w input_folder names = [] -> resize_events w input_folder t names = [].
Proof.
  unfold resize_events.
  induction names as [ | n r IH]; cbn [decoded filter]; [reflexivity | ].
  unfold is_resize_event at 1. destruct (load w input_folder n); [exact IH | discriminate].
Qed.

Lemma decoded_nil_successes w input_folder t names :
  decoded w input_folder names = [] -> successes w input_folder t names = [].
Proof.
  intros H. apply reference_none_successes, reference_none_decoded, H.
Qed.

(** Exactly one file decodes: it fixes the reference size, it is the only
    contribution, and nothing is resized. *)
Lemma decoded_single w input_folder names i :
  decoded w input_folder names = [i] ->
  reference_size w input_folder names = Some (img_size i)
  /\ successes w input_folder (img_size i) names = [i]
  /\ resize_events w input_folder (img_size i) names = []
  /\ wf_rgb i.
Proof.
  induction names as [ | n r IH]; cbn [decoded]; [discriminate | ].
  unfold resize_events. cbn [reference_size successes filter].
  unfold process, is_resize_event at 1.
  destruct (load w input_folder n) as [e | j] eqn:L.
  - exact IH.
  - intros H. injection H as -> Hr.
    rewrite conform_same, size_eqb_refl. cbn [negb andb].
    rewrite (decoded_nil_successes _ _ _ _ Hr).
    pose proof (decoded_nil_resize w input_folder (img_size i) r Hr) as Hz.
    unfold resize_events in Hz. rewrite Hz.
    repeat split. eapply load_wf, L.
Qed.

(** Every file decodes to the same image: all are contributions of the
    reference size. *)
Lemma decoded_all_same w input_folder names i :
  (forall n, In n names -> load w input_folder n = inr i) ->
  names <> [] ->
  reference_size w input_folder names = Some (img_size i)
  /\ successes w input_folder (img_size i) names = repeat i (List.length names)
  /\ resize_events w input_folder (img_size i) names = []
  /\ wf_rgb i.
Proof.
  intros Hall Hne.
  assert (Hs : successes w input_folder (img_size i) names = repeat i (List.length names)
               /\ resize_events w input_folder (img_size i) names = []).
  { clear Hne. unfold resize_events.
    induction names as [ | n r IH]; [split; reflexivity | ].
    cbn [successes filter List.length repeat]. unfold process, is_resize_event at 1.
    rewrite (Hall n) by (left; reflexivity).
    rewrite conform_same, size_eqb_refl. cbn [negb andb].
    destruct IH as [I1 I2]; [intros m Hm; apply Hall; right; exact Hm | ].
    rewrite I1, I2. split; reflexivity. }
  destruct names as [ | n r]; [congruence | ].
  pose proof (Hall n (or_introl eq_refl)) as L.
  cbn [reference_size]. rewrite L.
  destruct Hs as [S1 S2]. repeat split; try assumption. eapply load_wf, L.
Qed.

(** Every file is either a contribution or a skipped file. *)
Lemma successes_failures_length w input_folder t names :
  (List.length (successes w input_folder t names)
   + List.length (failures w input_folder t names))%nat = List.length names.
Proof.
  induction names as [ | n r IH]; [reflexivity | ]. cbn [successes failures].
  destruct (process w input_folder t n); cbn [List.length]; lia.
Qed.

Lemma failures_name w input_folder t names n msg :
  In (n, msg) (failures w input_folder t names) ->
  In n names
  /\ exists e, process w input_folder t n = inl e /\ msg = exn_str (FromLibrary e).
Proof.
  induction names as [ | m r IH]; cbn [failures]; [contradiction | ].
  destruct (process w input_folder t m) as [e | i] eqn:P.
  - intros [H | H].
    + injection H as <- <-. split; [left; reflexivity | eauto].
    + destruct (IH H) as [I1 I2]. split; [right; exact I1 | exact I2].
  - intros H. destruct (IH H) as [I1 I2]. split; [right; exact I1 | exact I2].
Qed.

Lemma failures_In w input_folder t names n e :
  In n names -> process w input_folder t n = inl e ->
  In (n, exn_str (FromLibrary e)) (failures w input_folder t names).
Proof.
  induction names as [ | m r IH]; [contradiction | ]. cbn [failures].
  intros [-> | H] P.
  - rewrite P. left. reflexivity.
  - destruct (process w input_folder t m); [right | ]; auto.
Qed.

Lemma successes_In w input_folder t names n i :
  In n names -> process w input_folder t n = inr i ->
  In i (successes w input_folder t names).
Proof.
  induction names as [ | m r IH]; [contradiction | ]. cbn [successes].
  intros [-> | H] P.
  - rewrite P. left. reflexivity.
  - destruct (process w input_folder t m); [ | right]; auto.
Qed.

End SpecFacts.

(** ** Shapes *)

Section ShapeFacts.

Context {codec : Codec}.

Lemma process_wf w input_folder t n i :
  process w input_folder t n = inr i -> img_size i = t /\ wf_rgb i.
Proof.
  unfold process. destruct (load w input_folder n) as [e | j] eqn:L; [discriminate | ].
  intros C. split; [exact (conform_size _ _ _ C) | ].
  unfold conform in C. destruct (size_eqb (img_size j) t).
  - injection C as <-. exact (load_wf _ _ _ _ L).
  - apply pil_resize_wf in C. apply C.
Qed.

Lemma successes_wf w input_folder t names i :
  In i (successes w input_folder t names) -> img_size i = t /\ wf_rgb i.
Proof.
  induction names as [ | n r IH]; cbn [successes]; [contradiction | ].
  destruct (process w input_folder t n) as [e | j] eqn:P; [exact IH | ].
  intros [<- | H]; [exact (process_wf _ _ _ _ _ P) | exact (IH H)].
Qed.

Lemma vadd_length a b :
  List.length (vadd a b) = Nat.min (List.length a) (List.length b).
Proof.
  revert b. induction a as [ | x a IH]; intros [ | y b]; cbn [vadd List.length Nat.min];
    try reflexivity. rewrite IH. reflexivity.
Qed.

Lemma sum_images_length (n : nat) (imgs : list rgb_image) :
  forall acc,
    List.length acc = n ->
    (forall i, In i imgs -> List.length (img_data i) = n) ->
    List.length (sum_images acc imgs) = n.
Proof.
  unfold sum_images. induction imgs as [ | i r IH]; intros acc Ha Hi; [exact Ha | ].
  cbn [fold_left]. apply IH.
  - rewrite vadd_length, length_map, Ha, (Hi i) by (left; reflexivity). apply Nat.min_id.
  - intros j Hj. apply Hi. right. exact Hj.
Qed.

(** The reference size is the size of the first file, in processing order,
    that decodes. *)
Lemma reference_size_first w input_folder names t :
  reference_size w input_folder names = Some t ->
  exists pre name post i,
    names = pre ++ name :: post
    /\ (forall n, In n pre -> decodes w input_folder n = false)
    /\ load w input_folder name = inr i
    /\ img_size i = t.
Proof.
  induction names as [ | n r IH]; cbn [reference_size]; [discriminate | ].
  destruct (load w input_folder n) as [e | i] eqn:L.
  - intros H. destruct (IH H) as (pre & name & post & i & -> & Hp & Hl & Hs).
    exists (n :: pre), name, post, i. repeat split; try assumption.
    intros m [<- | Hm]; [unfold decodes; rewrite L; reflexivity | exact (Hp m Hm)].
  - intros H. injection H as <-. exists [], n, r, i.
    repeat split; [intros m [] | exact L].
Qed.

End ShapeFacts.

(** ** The stated mean, sample by sample *)

Section StatedFacts.

Context {codec : Codec}.

Lemma data_as_samples (d : list byte) :
  d = map (fun k => nth k d x00) (seq 0 (List.length d)).
Proof.
  induction d as [ | b r IH]; [reflexivity | ].
  cbn [List.length seq map nth]. f_equal.
  rewrite <- seq_shift, map_map. exact IH.
Qed.

(** The accumulator after a list of images, position by position. *)
Lemma sum_images_pointwise (n : nat) (imgs : list rgb_image) :
  (forall i, In i imgs -> List.length (img_data i) = n) ->
  forall g : nat -> float64,
    sum_images (map g (seq 0 n)) imgs
    = map (fun k => fold_left (fun s i => f64_add s (f64_of_u8 (sample_at i k))) imgs (g k))
          (seq 0 n).
Proof.
  unfold sum_images. induction imgs as [ | i r IH]; intros Hlen g; cbn [fold_left].
  - reflexivity.
  - assert (E : map f64_of_u8 (img_data i)
                = map (fun k => f64_of_u8 (sample_at i k)) (seq 0 n)).
    { rewrite <- (Hlen i (or_introl eq_refl)).
      rewrite (data_as_samples (img_data i)) at 1. rewrite map_map. reflexivity. }
    rewrite E, vadd_map.
    apply (IH (fun j Hj => Hlen j (or_intror Hj))
              (fun k => f64_add (g k) (f64_of_u8 (sample_at i k)))).
Qed.

Lemma sum_from_zero_stated (n : nat) (imgs : list rgb_image) :
  (forall i, In i imgs -> List.length (img_data i) = n) ->
  sum_images (repeat f64_zero n) imgs = map (float_sum_at imgs) (seq 0 n).
Proof.
  intros Hlen.
  replace (repeat f64_zero n) with (map (fun _ : nat => f64_zero) (seq 0 n))
    by (rewrite <- repeat_as_map, length_seq; reflexivity).
  rewrite (sum_images_pointwise n imgs Hlen). reflexivity.
Qed.

(** The raster the program computes from its accumulator is the stated
    one. *)
Lemma mean_image_stated (t : nat * nat) (imgs : list rgb_image) :
  (forall i, In i imgs -> List.length (img_data i) = n_samples t) ->
  mean_image t imgs = stated_mean t imgs.
Proof.
  intros Hlen. unfold mean_image, stated_mean.
  rewrite (sum_from_zero_stated _ _ Hlen), map_map. reflexivity.
Qed.

Lemma successes_samples w input_folder t names i :
  In i (successes w input_folder t names) -> List.length (img_data i) = n_samples t.
Proof.
  intros H. destruct (successes_wf _ _ _ _ _ H) as [Hs Hwf].
  unfold wf_rgb in Hwf. rewrite Hwf, Hs. reflexivity.
Qed.

Lemma mean_of_successes w input_folder t names :
  mean_image t (successes w input_folder t names)
  = stated_mean t (successes w input_folder t names).
Proof. apply mean_image_stated. intros i. apply successes_samples. Qed.

End StatedFacts.

(** ** Consoles that refuse lines *)

Section ConsoleFacts.

Context {codec : Codec} {console : Console}.

Lemma print_failure_normal {A : Type} (a : A) : ~ print_failure (inr a).
Proof. intros (l & _ & H). discriminate. Qed.

Lemma print_failure_accepting {A : Type} (r : exn + A) :
  (forall l, accepts l = true) -> ~ print_failure r.
Proof. intros Hc (l & H & _). rewrite Hc in H. discriminate. Qed.

Ltac gen_m :=
  cbv [iteration try_body image_open try_except bind ret raise print emit
       get_world get_frame put_frame put_world lift except_clause set_errors set_count
       set_target_size set_sum_array set_resize_count];
  cbn [sum_array target_size count resize_count errors];
  rewrite ?add_log_add_log, ?read_file_add_log; cbn [app].

Ltac refused_leaf :=
  match goal with
  | H : accepts ?l = false |- _ => exists l; split; [exact H | reflexivity]
  end.

Ltac close_leaf :=
  do 4 eexists; split; [reflexivity | ];
  split; [first [apply extends_add_log | apply extends_refl] | ];
  cbn [sum_array count];
  split; [reflexivity | ];
  split; [first [intros _; discriminate | intros H; exact H] | ];
  split; [first [left; reflexivity | right; split; [reflexivity | discriminate]] | ];
  first [left; split; [reflexivity | split; reflexivity] | right; refused_leaf].

(** One turn of the loop, whatever the console and the locals: it ends
    normally, or on a [print] that was refused; no exception of opening,
    converting, resizing or adding the file leaves it. *)
Lemma iteration_kinds input_folder total cur filename (f : Frame) (w : World) :
  exists r f' w' evs,
    iteration input_folder total cur filename (f, w) = (r, (f', w'))
    /\ extends w w' evs
    /\ filter is_output_event evs = []
    /\ (sum_array f <> None -> sum_array f' <> None)
    /\ (count f' = count f \/ (count f' = count f + 1 /\ sum_array f' <> None))
    /\ ((r = inr tt /\ progress evs = [(cur, total, filename)]
         /\ opened evs = [os_path_join input_folder filename])
        \/ print_failure r).
Proof.
  destruct f as [sa ts c rc er]. gen_m.
  destruct (accepts (LProgress cur total filename)) eqn:A1; gen_m; [ | close_leaf].
  destruct (read_file w (os_path_join input_folder filename)) as [e | d]; gen_m.
  { destruct (accepts (LSkip filename _)) eqn:A2; gen_m; close_leaf. }
  destruct (pil_open d) as [e | p]; gen_m.
  { destruct (accepts (LSkip filename _)) eqn:A2; gen_m; close_leaf. }
  destruct (pil_convert_rgb p) as [e | i]; gen_m.
  { destruct (accepts (LSkip filename _)) eqn:A2; gen_m; close_leaf. }
  destruct ts as [t | ]; gen_m.
  - destruct (negb (size_eqb (img_size i) t)); gen_m.
    + destruct (pil_resize i t) as [e | i']; gen_m.
      { destruct (accepts (LSkip filename _)) eqn:A2; gen_m; close_leaf. }
      destruct sa as [a | ]; gen_m.
      * destruct (np_iadd a (np_array i')); gen_m; [ | close_leaf].
        destruct (accepts (LSkip filename _)) eqn:A2; gen_m; close_leaf.
      * destruct (accepts (LSkip filename _)) eqn:A2; gen_m; close_leaf.
    + destruct sa as [a | ]; gen_m.
      * destruct (np_iadd a (np_array i)); gen_m; [ | close_leaf].
        destruct (accepts (LSkip filename _)) eqn:A2; gen_m; close_leaf.
      * destruct (accepts (LSkip filename _)) eqn:A2; gen_m; close_leaf.
  - destruct (accepts (LBaseSize (img_size i))) eqn:A3; gen_m.
    + rewrite size_eqb_refl. cbn [negb]. gen_m.
      destruct (np_iadd (np_zeros (img_size i)) (np_array i)); gen_m; [ | close_leaf].
      destruct (accepts (LSkip filename _)) eqn:A2; gen_m; close_leaf.
    + destruct (accepts (LSkip filename _)) eqn:A2; gen_m; close_leaf.
Qed.

Lemma progress_app a b : progress (a ++ b) = progress a ++ progress b.
Proof. unfold progress. apply flat_map_app. Qed.

(** The loop, whatever the console and the locals: it ends normally, with
    one progress line per name and every file opened, or on a [print] that
    was refused.  It leaves the directory tree alone and prints no line of
    the report. *)
Lemma main_loop_kinds input_folder total :
  forall names cur f w,
  exists r f' w' evs,
    main_loop input_folder total cur names (f, w) = (r, (f', w'))
    /\ extends w w' evs
    /\ filter is_output_event evs = []
    /\ (sum_array f <> None -> sum_array f' <> None)
    /\ (count f' = count f \/ sum_array f' <> None)
    /\ ((r = inr tt
         /\ progress evs = map (fun p => (fst p, total, snd p)) (enumerate cur names)
         /\ opened evs = map (os_path_join input_folder) names)
        \/ print_failure r).
Proof.
  induction names as [ | n rest IH]; intros cur f w.
  - exists (inr tt), f, w, []. cbn [main_loop]. unfold ret.
    split; [reflexivity | split; [apply extends_refl | split; [reflexivity | ]]].
    split; [auto | split; [left; reflexivity | left]].
    repeat split.
  - cbn [main_loop]. unfold bind at 1.
    destruct (iteration_kinds input_folder total cur n f w)
      as (r1 & f1 & w1 & e1 & Hrun & Hext & Hout & Hsum & Hcnt & Hkind).
    rewrite Hrun.
    destruct Hkind as [(-> & Hp & Ho) | Hfail].
    + destruct (IH (cur + 1) f1 w1)
        as (r2 & f2 & w2 & e2 & Hrun2 & Hext2 & Hout2 & Hsum2 & Hcnt2 & Hkind2).
      rewrite Hrun2. exists r2, f2, w2, (e1 ++ e2).
      split; [reflexivity | split; [eapply extends_trans; eassumption | ]].
      split; [rewrite filter_app, Hout, Hout2; reflexivity | ].
      split; [auto | split].
      * destruct Hcnt2 as [E2 | S2]; [ | right; exact S2].
        destruct Hcnt as [E1 | [_ S1]]; [left; congruence | right; auto].
      * destruct Hkind2 as [(-> & Hp2 & Ho2) | Hfail2]; [left | right; exact Hfail2].
        split; [reflexivity | ].
        rewrite progress_app, opened_app, Hp, Ho, Hp2, Ho2. cbn [enumerate map fst snd app].
        split; reflexivity.
    + destruct Hfail as (l & Hl & ->).
      exists (inl (FromLibrary (UnicodeEncodeError (refusal l)))), f1, w1, e1.
      split; [reflexivity | split; [exact Hext | split; [exact Hout | ]]].
      split; [exact Hsum | split].
      * destruct Hcnt as [E1 | [_ S1]]; [left; exact E1 | right; exact S1].
      * right. exists l. split; [exact Hl | reflexivity].
Qed.

(** The function up to the loop (lines 14-66), once the line of line 29
    is printed. *)
Lemma compute_average_image_found input_folder output_path w :
  isdir w input_folder = true ->
  file_list w input_folder <> [] ->
  accepts (LFound (Z.of_nat (List.length (file_list w input_folder)))) = true ->
  compute_average_image input_folder output_path (init_frame, w)
  = match loop_phase input_folder w with
    | (inr _, s) => finish output_path s
    | (inl e, s) => (inl e, s)
    end.
Proof.
  intros D Hne Ha. unfold compute_average_image.
  cbv [bind ret raise os_path_isdir os_listdir get_world lift put_frame].
  rewrite D. cbn [negb].
  destruct (isdir_listdir _ _ D) as [names L]. rewrite L.
  assert (FL : file_list w input_folder = sorted (select_files names))
    by (unfold file_list; rewrite L; reflexivity).
  unfold loop_phase. rewrite FL in Hne, Ha |- *. rewrite length_sorted in Ha |- *.
  destruct (Z.of_nat (List.length (select_files names)) =? 0) eqn:E.
  - apply Z.eqb_eq in E. exfalso. apply Hne.
    apply length_zero_iff_nil. rewrite length_sorted. lia.
  - unfold print. rewrite Ha. reflexivity.
Qed.

End ConsoleFacts.

(** ** A console that takes the lines a run prints

    A run on any console goes as it does on the console that takes every
    line, up to the first [print] that is refused outside the [try].  The
    line of the reference size is printed inside the [try], where a refusal
    is caught and the file skipped: these lemmas assume it is accepted. *)

Section Simulation.

Context {codec : Codec}.

Ltac sim_m :=
  cbv [iteration try_body image_open image_save try_except bind ret raise print emit
       accepts refusal lenient_console print_failure fst
       get_world get_frame put_frame put_world lift except_clause set_errors set_count
       set_target_size set_sum_array set_resize_count os_makedirs os_path_abspath
       os_path_isdir os_listdir];
  cbn [sum_array target_size count resize_count errors];
  rewrite ?add_log_add_log, ?read_file_add_log; cbn [app].

Ltac sim_refused :=
  match goal with
  | H : ?acc ?l = false |- _ => exists l; split; [exact H | reflexivity]
  end.

Ltac sim_leaf := first [left; reflexivity | right; sim_refused].

Lemma iteration_sim (c : Console) input_folder total cur filename (f : Frame) (w : World) :
  (forall t, @accepts c (LBaseSize t) = true) ->
  @iteration codec c input_folder total cur filename (f, w)
  = @iteration codec lenient_console input_folder total cur filename (f, w)
  \/ print_failure (fst (@iteration codec c input_folder total cur filename (f, w))).
Proof.
  destruct c as [acc ref]. cbn [accepts]. intros Hb.
  destruct f as [sa ts cn rc er]. sim_m.
  destruct (acc (LProgress cur total filename)) eqn:A1; sim_m; [ | sim_leaf].
  destruct (read_file w (os_path_join input_folder filename)) as [e | d]; sim_m.
  { destruct (acc (LSkip filename _)) eqn:A2; sim_m; sim_leaf. }
  destruct (pil_open d) as [e | p]; sim_m.
  { destruct (acc (LSkip filename _)) eqn:A2; sim_m; sim_leaf. }
  destruct (pil_convert_rgb p) as [e | i]; sim_m.
  { destruct (acc (LSkip filename _)) eqn:A2; sim_m; sim_leaf. }
  destruct ts as [t | ]; sim_m.
  - destruct (negb (size_eqb (img_size i) t)); sim_m.
    + destruct (pil_resize i t) as [e | i']; sim_m.
      { destruct (acc (LSkip filename _)) eqn:A2; sim_m; sim_leaf. }
      destruct sa as [a | ]; sim_m.
      * destruct (np_iadd a (np_array i')); sim_m; [ | sim_leaf].
        destruct (acc (LSkip filename _)) eqn:A2; sim_m; sim_leaf.
      * destruct (acc (LSkip filename _)) eqn:A2; sim_m; sim_leaf.
    + destruct sa as [a | ]; sim_m.
      * destruct (np_iadd a (np_array i)); sim_m; [ | sim_leaf].
        destruct (acc (LSkip filename _)) eqn:A2; sim_m; sim_leaf.
      * destruct (acc (LSkip filename _)) eqn:A2; sim_m; sim_leaf.
  - rewrite Hb. sim_m.
    rewrite size_eqb_refl. cbn [negb]. sim_m.
    destruct (np_iadd (np_zeros (img_size i)) (np_array i)); sim_m; [ | sim_leaf].
    destruct (acc (LSkip filename _)) eqn:A2; sim_m; sim_leaf.
Qed.

Lemma main_loop_sim (c : Console) input_folder total :
  (forall t, @accepts c (LBaseSize t) = true) ->
  forall names cur f w,
    @main_loop codec c input_folder total cur names (f, w)
    = @main_loop codec lenient_console input_folder total cur names (f, w)
    \/ print_failure (fst (@main_loop codec c input_folder total cur names (f, w))).
Proof.
  intros Hb. induction names as [ | n rest IH]; intros cur f w; cbn [main_loop].
  - left. reflexivity.
  - unfold bind at 1 2 3.
    destruct (iteration_sim c input_folder total cur n f w Hb) as [E | Hf].
    + rewrite <- E.
      destruct (@iteration codec c input_folder total cur n (f, w)) as [[e | []] [f1 w1]].
      * left. reflexivity.
      * apply IH.
    + right.
      destruct (@iteration codec c input_folder total cur n (f, w)) as [[e | []] [f1 w1]].
      * exact Hf.
      * exfalso. destruct Hf as (l & _ & H). discriminate.
Qed.

Lemma loop_phase_sim (c : Console) input_folder w :
  (forall t, @accepts c (LBaseSize t) = true) ->
  @loop_phase codec c input_folder w = @loop_phase codec lenient_console input_folder w
  \/ print_failure (fst (@loop_phase codec c input_folder w)).
Proof. intros Hb. unfold loop_phase. apply main_loop_sim. exact Hb. Qed.

Lemma print_errors_sim (c : Console) (l : list (string * string)) :
  forall f w,
    @print_errors c l (f, w) = @print_errors lenient_console l (f, w)
    \/ print_failure (fst (@print_errors c l (f, w))).
Proof.
  destruct c as [acc ref].
  induction l as [ | [n e] r IH]; intros f w; cbn [print_errors].
  - left. reflexivity.
  - sim_m. destruct (acc (LSkippedItem n e)) eqn:A; sim_m; [ | sim_leaf].
    apply IH.
Qed.

Lemma write_output_sim (c : Console) output_path (f : Frame) (w : World) :
  @write_output codec c output_path (f, w)
  = @write_output codec lenient_console output_path (f, w)
  \/ print_failure (fst (@write_output codec c output_path (f, w))).
Proof.
  destruct c as [acc ref]. destruct f as [sa ts cn rc er]. unfold write_output. sim_m.
  destruct sa as [a | ]; sim_m; [ | sim_leaf].
  destruct (makedirs _ _) as [e | w2]; sim_m; [sim_leaf | ].
  destruct (pil_encode _ _ _) as [e | bytes]; sim_m; [sim_leaf | ].
  destruct (write_file _ _ _) as [e | w3]; sim_m; [sim_leaf | ].
  destruct (acc LDone) eqn:A1; sim_m; [ | sim_leaf].
  destruct (acc (LSuccessCount cn)) eqn:A2; sim_m; [ | sim_leaf].
  destruct (acc (LResizeCount rc)) eqn:A3; sim_m; [ | sim_leaf].
  destruct (acc (LOutputSize ts)) eqn:A4; sim_m; [ | sim_leaf].
  destruct (acc LElapsed) eqn:A5; sim_m; [ | sim_leaf].
  destruct er as [ | x r]; sim_m.
  - destruct (acc (LSavedAt _)) eqn:A6; sim_m; sim_leaf.
  - destruct (acc (LSkippedHeader _)) eqn:A6; sim_m; [ | sim_leaf].
    match goal with
    | |- context [@print_errors (Build_Console acc ref) ?l (?f1, ?w1)] =>
        destruct (print_errors_sim (Build_Console acc ref) l f1 w1) as [E | Hf];
          [cbv [lenient_console] in E; rewrite <- E | ];
          destruct (@print_errors (Build_Console acc ref) l (f1, w1)) as [[e | []] [f4 w4]]
    end.
    + sim_m. sim_leaf.
    + sim_m. destruct (acc (LSavedAt _)) eqn:A7; sim_m; sim_leaf.
    + right. cbv [print_failure fst accepts refusal] in Hf |- *. exact Hf.
    + exfalso. destruct Hf as (l & _ & H). discriminate.
Qed.

Lemma finish_sim (c : Console) output_path (f : Frame) (w : World) :
  @finish codec c output_path (f, w) = @finish codec lenient_console output_path (f, w)
  \/ print_failure (fst (@finish codec c output_path (f, w))).
Proof.
  unfold finish, bind, get_frame. destruct (count f =? 0).
  - left. reflexivity.
  - apply write_output_sim.
Qed.

Lemma compute_average_image_sim (c : Console) input_folder output_path (w : World) :
  (forall t, @accepts c (LBaseSize t) = true) ->
  @compute_average_image codec c input_folder output_path (init_frame, w)
  = @compute_average_image codec lenient_console input_folder output_path (init_frame, w)
  \/ print_failure
       (fst (@compute_average_image codec c input_folder output_path (init_frame, w))).
Proof.
  destruct c as [acc ref]. cbn [accepts]. intros Hb.
  unfold compute_average_image. sim_m.
  destruct (isdir w input_folder); cbn [negb]; [ | left; reflexivity].
  destruct (listdir w input_folder) as [e | names]; sim_m; [sim_leaf | ].
  destruct (Z.of_nat (List.length (select_files names)) =? 0); [sim_leaf | ].
  destruct (acc (LFound _)) eqn:A; sim_m; [ | sim_leaf].
  match goal with
  | |- context [@main_loop codec (Build_Console acc ref) ?F ?t ?cur ?ns (?f1, ?w1)] =>
      destruct (main_loop_sim (Build_Console acc ref) F t Hb ns cur f1 w1) as [E | Hf];
        [cbv [lenient_console] in E; rewrite <- E | ];
        destruct (@main_loop codec (Build_Console acc ref) F t cur ns (f1, w1))
          as [[e | []] [f2 w2]]
  end.
  - left. reflexivity.
  - exact (finish_sim (Build_Console acc ref) output_path f2 w2).
  - right. cbv [print_failure fst accepts refusal] in Hf |- *. exact Hf.
  - exfalso. destruct Hf as (l & _ & H). discriminate.
Qed.

Lemma call_sim (c : Console) input_folder output_path (w : World) :
  (forall t, @accepts c (LBaseSize t) = true) ->
  @call codec c input_folder output_path w = @call codec lenient_console input_folder output_path w
  \/ print_failure (fst (@call codec c input_folder output_path w)).
Proof.
  intros Hb. unfold call.
  destruct (compute_average_image_sim c input_folder output_path w Hb) as [E | Hf].
  - left. rewrite E. reflexivity.
  - right.
    destruct (@compute_average_image codec c input_folder output_path (init_frame, w))
      as [r [f' w']].
    exact Hf.
Qed.

(** A call that returns went as on the console that takes every line. *)
Lemma call_normal (c : Console) input_folder output_path (w w' : World) :
  (forall t, @accepts c (LBaseSize t) = true) ->
  @call codec c input_folder output_path w = (inr tt, w') ->
  @call codec lenient_console input_folder output_path w = (inr tt, w').
Proof.
  intros Hb H. destruct (call_sim c input_folder output_path w Hb) as [E | Hf].
  - rewrite <- E. exact H.
  - rewrite H in Hf. destruct Hf as (l & _ & Hf). discriminate.
Qed.

Lemma loop_phase_normal (c : Console) input_folder (w : World) s :
  (forall t, @accepts c (LBaseSize t) = true) ->
  @loop_phase codec c input_folder w = (inr tt, s) ->
  @loop_phase codec lenient_console input_folder w = (inr tt, s).
Proof.
  intros Hb H. destruct (loop_phase_sim c input_folder w Hb) as [E | Hf].
  - rewrite <- E. exact H.
  - rewrite H in Hf. destruct Hf as (l & _ & Hf). discriminate.
Qed.

(** On a console that takes every line, a call goes as on the lenient
    one, whatever its outcome. *)
Lemma call_accepting (c : Console) input_folder output_path (w : World) :
  (forall l, @accepts c l = true) ->
  @call codec c input_folder output_path w = @call codec lenient_console input_folder output_path w.
Proof.
  intros Hc. destruct (call_sim c input_folder output_path w (fun t => Hc _)) as [E | Hf].
  - exact E.
  - destruct Hf as (l & Hl & _). rewrite Hc in Hl. discriminate.
Qed.

End Simulation.

(** ** Copies of one image among the matched files *)

Section CopiesFacts.

Context {codec : Codec}.

(** Every file that decodes gives the same image: the contributions are
    that image, as often as files decode, and nothing is resized. *)
Lemma decoded_copies w input_folder names i :
  (forall n j, In n names -> load w input_folder n = inr j -> j = i) ->
  successes w input_folder (img_size i) names
  = repeat i (List.length (decoded w input_folder names))
  /\ resize_events w input_folder (img_size i) names = []
  /\ (decoded w input_folder names <> [] ->
      reference_size w input_folder names = Some (img_size i) /\ wf_rgb i).
Proof.
  unfold resize_events.
  induction names as [ | n r IH]; intros Hall.
  - split; [reflexivity | split; [reflexivity | intros H; exfalso; apply H; reflexivity]].
  - cbn [successes decoded reference_size filter]. unfold process, is_resize_event at 1.
    destruct IH as (I1 & I2 & I3); [intros m j Hm; apply Hall; right; exact Hm | ].
    destruct (load w input_folder n) as [e | j] eqn:L.
    + split; [exact I1 | split; [exact I2 | exact I3]].
    + assert (E : j = i) by (apply (Hall n); [left; reflexivity | exact L]).
      subst j. rewrite conform_same, size_eqb_refl. cbn [negb andb List.length repeat].
      rewrite I1, I2. split; [reflexivity | split; [reflexivity | ]].
      intros _. split; [reflexivity | eapply load_wf, L].
Qed.

End CopiesFacts.

(* ================================================================== *)
(** * Part III: the claims *)
(* ================================================================== *)

Section OutputFacts.

Context {codec : Codec}.

Lemma filter_output_map_print_item (l : list (string * string)) :
  filter is_output_event (map (fun x => Print (LSkippedItem (fst x) (snd x))) l)
  = map (fun x => Print (LSkippedItem (fst x) (snd x))) l.
Proof.
  induction l as [ | x r IH]; [reflexivity | ]. cbn [map filter is_output_event].
  rewrite IH. reflexivity.
Qed.

Lemma filter_output_report f p : filter is_output_event (report f p) = report f p.
Proof.
  unfold report. rewrite !filter_app. f_equal. f_equal.
  destruct (errors f) as [ | x r]; [reflexivity | ].
  set (l := x :: r). cbn [filter is_output_event].
  rewrite filter_output_map_print_item. reflexivity.
Qed.

Lemma filter_write_of_output (l : list event) :
  filter is_write (filter is_output_event l) = filter is_write l.
Proof.
  induction l as [ | e r IH]; [reflexivity | ].
  destruct e as [[ | | | | | | | | | | | ] | | | ]; cbn [filter is_output_event is_write];
    exact IH || (rewrite IH; reflexivity).
Qed.

(** The events of a call that returns: after the loop's own events come
    the two writes and the report, and nothing else of that kind. *)
Lemma call_ok_events input_folder output_path w w' :
  call input_folder output_path w = (inr tt, w') ->
  let names := file_list w input_folder in
  let d := os_path_dirname output_path in
  let opts := opts_of_ext (lower (os_path_splitext_ext output_path)) in
  exists t evs,
    names <> []
    /\ reference_size w input_folder names = Some t
    /\ log w' = log w ++ evs
    /\ opened evs = map (os_path_join input_folder) names
    /\ filter is_output_event evs
       = [MadeDirs d;
          Saved output_path opts (mean_image t (successes w input_folder t names))]
         ++ report (loop_result w input_folder names init_frame) (resolve w output_path)
    /\ exists bytes,
         pil_encode output_path opts (mean_image t (successes w input_folder t names))
         = inr bytes
         /\ read_file w' output_path = inr bytes.
Proof.
  intros H. cbv zeta.
  destruct (call_ok _ _ _ _ H) as (t & evs & Hne & Rf & Hop & Hout & Hl & Hb).
  exists t. eexists. split; [exact Hne | split; [exact Rf | split; [exact Hl | split; [ | split; [ | exact Hb]]]]].
  - rewrite !opened_app, opened_cons_print, Hop, opened_report. cbn. rewrite app_nil_r.
    reflexivity.
  - rewrite !filter_app, filter_output_report.
    cbn [filter is_output_event]. rewrite Hout. reflexivity.
Qed.

End OutputFacts.

(** C1. Whenever [compute_average_image] returns, the raster it has written
    to [output_path] is the one the specification states: sample by sample,
    the float64 sum, from 0.0 and in processing order, of that sample of
    every successfully processed file (decoded, converted to RGB, resampled
    to the reference size when its dimensions differ), divided by the
    number of those files, clipped to [0, 255] and converted to uint8.  It
    has the reference size, it is the only raster saved, and the file at
    [output_path] holds its encoding.  (The console has to take the line of
    line 52, which is printed inside the [try].) *)
Theorem written_raster_is_mean {codec : Codec} {console : Console}
  (input_folder output_path : string) (w w' : World) :
  (forall t, accepts (LBaseSize t) = true) ->
  call input_folder output_path w = (inr tt, w') ->
  let names := file_list w input_folder in
  let opts := opts_of_ext (lower (os_path_splitext_ext output_path)) in
  exists t evs,
    reference_size w input_folder names = Some t
    /\ successes w input_folder t names <> []
    /\ log w' = log w ++ evs
    /\ filter is_write evs
       = [MadeDirs (os_path_dirname output_path);
          Saved output_path opts (stated_mean t (successes w input_folder t names))]
    /\ exists bytes,
         pil_encode output_path opts (stated_mean t (successes w input_folder t names))
         = inr bytes
         /\ read_file w' output_path = inr bytes.
Proof.
  intros Hb H. cbv zeta. apply call_normal in H; [ | exact Hb].
  destruct (call_ok_events _ _ _ _ H) as (t & evs & _ & Rf & Hl & _ & Hout & Hbytes).
  rewrite mean_of_successes in Hout, Hbytes.
  exists t, evs.
  split; [exact Rf | split; [exact (reference_some_successes _ _ _ _ Rf) | ]].
  split; [exact Hl | split; [ | exact Hbytes]].
  rewrite <- filter_write_of_output, Hout, filter_app, filter_write_report.
  reflexivity.
Qed.

(** Three pictures (1, 2, 4), (10, 20, 30) and a 2x1 picture of (3, 3, 3),
    next to two corrupt files: the sums are 14, 25 and 37, and the raster
    written is (4, 8, 12). *)
Lemma written_raster_is_mean_witness :
  (forall t, @accepts Raw.strict_console (LBaseSize t) = true)
  /\ @call Raw.raw_codec Raw.strict_console "images" "output/avg.png" Raw.mixed_world
     = (inr tt,
        snd (@call Raw.raw_codec Raw.strict_console "images" "output/avg.png" Raw.mixed_world))
  /\ stated_mean (1, 1)%nat
       (successes Raw.mixed_world "images" (1, 1)%nat (file_list Raw.mixed_world "images"))
     = mk_rgb (1, 1)%nat [x04; x08; x0c]
  /\ exists t evs,
      reference_size Raw.mixed_world "images" (file_list Raw.mixed_world "images") = Some t
      /\ successes Raw.mixed_world "images" t (file_list Raw.mixed_world "images") <> []
      /\ log (snd (@call Raw.raw_codec Raw.strict_console "images" "output/avg.png"
                     Raw.mixed_world))
         = log Raw.mixed_world ++ evs
      /\ filter is_write evs
         = [MadeDirs "output";
            Saved "output/avg.png" SavePngOptimize
              (stated_mean t (successes Raw.mixed_world "images" t
                                        (file_list Raw.mixed_world "images")))]
      /\ exists bytes,
           pil_encode "output/avg.png" SavePngOptimize
             (stated_mean t (successes Raw.mixed_world "images" t
                                       (file_list Raw.mixed_world "images")))
           = inr bytes
           /\ read_file (snd (@call Raw.raw_codec Raw.strict_console "images"
                                "output/avg.png" Raw.mixed_world))
                        "output/avg.png" = inr bytes.
Proof.
  split; [intros t; reflexivity | ].
  split; [vm_compute; reflexivity | split; [vm_compute; reflexivity | ]].
  apply (@written_raster_is_mean Raw.raw_codec Raw.strict_console
           "images" "output/avg.png" Raw.mixed_world).
  - intros t. reflexivity.
  - vm_compute. reflexivity.
Defined.

(** C6. If exactly one of the matched files decodes, a call that returns has
    written that image, as converted to RGB, sample for sample: it is the
    raster saved and the file at [output_path] holds its encoding; the
    report gives one success and zero resizes. *)
Theorem single_image_identity {codec : Codec} (input_folder output_path : string)
  (w w' : World) (i : rgb_image) :
  decoded w input_folder (file_list w input_folder) = [i] ->
  call input_folder output_path w = (inr tt, w') ->
  let opts := opts_of_ext (lower (os_path_splitext_ext output_path)) in
  exists evs post,
    log w' = log w ++ evs
    /\ filter is_output_event evs
       = [MadeDirs (os_path_dirname output_path); Saved output_path opts i;
          Print LDone; Print (LSuccessCount 1); Print (LResizeCount 0)] ++ post
    /\ exists bytes,
         pil_encode output_path opts i = inr bytes
         /\ read_file w' output_path = inr bytes.
Proof.
  intros Hd H. cbv zeta.
  destruct (call_ok_events _ _ _ _ H) as (t & evs & _ & Rf & Hl & _ & Hout & Hb).
  destruct (decoded_single _ _ _ _ Hd) as (Rf' & Hs & Hr & Hwf).
  rewrite Rf' in Rf. injection Rf as <-.
  assert (Hm : mean_image (img_size i) (successes w input_folder (img_size i)
                                                  (file_list w input_folder)) = i).
  { rewrite Hs. apply (mean_copies i 1); [exact Hwf | lia | reflexivity]. }
  rewrite Hm in Hout, Hb.
  exists evs. eexists. split; [exact Hl | split; [ | exact Hb]].
  rewrite Hout. unfold report, loop_result, reference_or_default.
  rewrite Rf', Hs, Hr. cbn [count resize_count init_frame List.length app].
  reflexivity.
Qed.

Lemma single_image_identity_witness :
  decoded Raw.single_world "images" (file_list Raw.single_world "images")
  = [mk_rgb (1, 1)%nat [x07; xc8; xff]]
  /\ call "images" "out/one.png" Raw.single_world
     = (inr tt, snd (call "images" "out/one.png" Raw.single_world))
  /\ exists evs post,
      log (snd (call "images" "out/one.png" Raw.single_world))
      = log Raw.single_world ++ evs
      /\ filter is_output_event evs
         = [MadeDirs "out";
            Saved "out/one.png" SavePngOptimize (mk_rgb (1, 1)%nat [x07; xc8; xff]);
            Print LDone; Print (LSuccessCount 1); Print (LResizeCount 0)] ++ post
      /\ exists bytes,
           pil_encode "out/one.png" SavePngOptimize (mk_rgb (1, 1)%nat [x07; xc8; xff])
           = inr bytes
           /\ read_file (snd (call "images" "out/one.png" Raw.single_world)) "out/one.png"
              = inr bytes.
Proof.
  split; [vm_compute; reflexivity | split; [vm_compute; reflexivity | ]].
  apply (single_image_identity "images" "out/one.png" Raw.single_world);
    vm_compute; reflexivity.
Defined.

(** C8. In a call that returns, the resize count of the report is the number
    of matched files that were processed successfully and whose decoded
    dimensions differ from the reference size, the size of the first file
    that decoded.  Those files are exactly the ones that decode to another
    size and are resampled without error; a file that decodes to the
    reference size is added as it is and is no resize event. *)
Theorem resize_count_reported {codec : Codec} (input_folder output_path : string)
  (w w' : World) :
  call input_folder output_path w = (inr tt, w') ->
  let names := file_list w input_folder in
  exists t evs pre post,
    reference_size w input_folder names = Some t
    /\ log w' = log w ++ evs
    /\ filter is_output_event evs
       = pre ++ [Print LDone;
                 Print (LSuccessCount (Z.of_nat (List.length (successes w input_folder t names))));
                 Print (LResizeCount (Z.of_nat (List.length (resize_events w input_folder t names))));
                 Print (LOutputSize (Some t))] ++ post
    /\ (forall n, In n (resize_events w input_folder t names) <->
                  In n names
                  /\ exists i i', load w input_folder n = inr i
                                  /\ img_size i <> t /\ pil_resize i t = inr i')
    /\ (forall n i, In n names -> load w input_folder n = inr i -> img_size i = t ->
                    process w input_folder t n = inr i
                    /\ ~ In n (resize_events w input_folder t names)).
Proof.
  intros H. cbv zeta.
  destruct (call_ok_events _ _ _ _ H) as (t & evs & _ & Rf & Hl & _ & Hout & _).
  exists t, evs. eexists. eexists.
  split; [exact Rf | split; [exact Hl | split; [ | split]]].
  - rewrite Hout. unfold report, loop_result, reference_or_default. rewrite Rf.
    cbn [count resize_count target_size init_frame].
    change (0 + ?x) with x.
    match goal with
    | |- ?a ++ (?l1 ++ ?l2 ++ ?l3) = _ =>
        change (a ++ (l1 ++ l2 ++ l3)) with (a ++ (firstn 4 l1 ++ (skipn 4 l1 ++ l2 ++ l3)))
    end.
    cbn [firstn skipn]. reflexivity.
  - intros n. unfold resize_events. rewrite filter_In. unfold is_resize_event.
    split.
    + intros [Hn Hr]. split; [exact Hn | ].
      destruct (load w input_folder n) as [e | i]; [discriminate | ].
      apply andb_prop in Hr as [Hs Hp].
      destruct (pil_resize i t) as [e | i'] eqn:R; [discriminate | ].
      exists i, i'. split; [reflexivity | split; [ | exact R]].
      intros E. rewrite E, size_eqb_refl in Hs. discriminate.
    + intros [Hn (i & i' & L & Hs & R)]. split; [exact Hn | ].
      rewrite L, R. destruct (size_eqb (img_size i) t) eqn:E; [ | reflexivity].
      apply size_eqb_eq in E. contradiction.
  - intros n i Hn L Hs. split.
    + unfold process. rewrite L, <- Hs. apply conform_same.
    + unfold resize_events. rewrite filter_In. unfold is_resize_event.
      rewrite L, Hs, size_eqb_refl. intros [_ Hf]. discriminate.
Qed.

Lemma resize_count_reported_witness :
  call "images" "output/avg.png" Raw.mixed_world
  = (inr tt, snd (call "images" "output/avg.png" Raw.mixed_world))
  /\ resize_events Raw.mixed_world "images" (1, 1)%nat (file_list Raw.mixed_world "images")
     = ["d.tiff"]
  /\ exists t evs pre post,
      reference_size Raw.mixed_world "images" (file_list Raw.mixed_world "images") = Some t
      /\ log (snd (call "images" "output/avg.png" Raw.mixed_world))
         = log Raw.mixed_world ++ evs
      /\ filter is_output_event evs
         = pre ++ [Print LDone;
                   Print (LSuccessCount
                            (Z.of_nat (List.length
                               (successes Raw.mixed_world "images" t
                                          (file_list Raw.mixed_world "images")))));
                   Print (LResizeCount
                            (Z.of_nat (List.length
                               (resize_events Raw.mixed_world "images" t
                                              (file_list Raw.mixed_world "images")))));
                   Print (LOutputSize (Some t))] ++ post
      /\ (forall n, In n (resize_events Raw.mixed_world "images" t
                                        (file_list Raw.mixed_world "images")) <->
                    In n (file_list Raw.mixed_world "images")
                    /\ exists i i', load Raw.mixed_world "images" n = inr i
                                    /\ img_size i <> t /\ pil_resize i t = inr i')
      /\ (forall n i, In n (file_list Raw.mixed_world "images") ->
                      load Raw.mixed_world "images" n = inr i -> img_size i = t ->
                      process Raw.mixed_world "images" t n = inr i
                      /\ ~ In n (resize_events Raw.mixed_world "images" t
                                               (file_list Raw.mixed_world "images"))).
Proof.
  split; [vm_compute; reflexivity | split; [vm_compute; reflexivity | ]].
  apply (resize_count_reported "images" "output/avg.png" Raw.mixed_world).
  vm_compute. reflexivity.
Defined.

(** C7.  If every matched file that decodes gives the same image and [N]
    files do, with [255 * N < 2^53], a call that returns has written that
    image, sample for sample: each float64 sum of [N] copies of a sample is
    exact and its quotient by [N] is the sample, so the accumulation adds no
    drift.  The report gives [N] successes and zero resizes.  The bound is
    the range in which binary64 holds every integer; it admits every
    directory of fewer than 35 million million files. *)
Theorem identical_copies {codec : Codec} {console : Console}
  (input_folder output_path : string) (w w' : World) (i : rgb_image) :
  (forall t, accepts (LBaseSize t) = true) ->
  (forall n j, In n (file_list w input_folder) -> load w input_folder n = inr j -> j = i) ->
  255 * Z.of_nat (List.length (decoded w input_folder (file_list w input_folder))) < 2 ^ 53 ->
  call input_folder output_path w = (inr tt, w') ->
  let opts := opts_of_ext (lower (os_path_splitext_ext output_path)) in
  exists evs post,
    log w' = log w ++ evs
    /\ filter is_output_event evs
       = [MadeDirs (os_path_dirname output_path); Saved output_path opts i;
          Print LDone;
          Print (LSuccessCount
                   (Z.of_nat (List.length (decoded w input_folder (file_list w input_folder)))));
          Print (LResizeCount 0)] ++ post
    /\ exists bytes,
         pil_encode output_path opts i = inr bytes
         /\ read_file w' output_path = inr bytes.
Proof.
  intros Hc Hall Hb H. cbv zeta. apply call_normal in H; [ | exact Hc].
  destruct (call_ok_events _ _ _ _ H) as (t & evs & Hne & Rf & Hl & _ & Hout & Hbytes).
  destruct (decoded_copies _ _ _ _ Hall) as (Hs & Hr & Hd).
  assert (Hdec : decoded w input_folder (file_list w input_folder) <> []).
  { intros E. apply reference_none_decoded in E. congruence. }
  destruct (Hd Hdec) as (Rf' & Hwf).
  rewrite Rf' in Rf. injection Rf as <-.
  assert (Hm : mean_image (img_size i) (successes w input_folder (img_size i)
                                                  (file_list w input_folder)) = i).
  { rewrite Hs. apply mean_copies; [exact Hwf | | exact Hb].
    destruct (decoded w input_folder (file_list w input_folder)); [congruence | cbn; lia]. }
  rewrite Hm in Hout, Hbytes.
  exists evs. eexists. split; [exact Hl | split; [ | exact Hbytes]].
  rewrite Hout. unfold report, loop_result, reference_or_default.
  rewrite Rf', Hs, Hr, repeat_length. cbn [count resize_count init_frame List.length app].
  reflexivity.
Qed.

(** Three copies of one picture. *)
Lemma identical_copies_witness :
  (forall t, @accepts lenient_console (LBaseSize t) = true)
  /\ (forall n j, In n (file_list Raw.copies_world "images") ->
                  load Raw.copies_world "images" n = inr j ->
                  j = mk_rgb (1, 1)%nat [xc8; x64; x32])
  /\ List.length (decoded Raw.copies_world "images" (file_list Raw.copies_world "images"))
     = 3%nat
  /\ 255 * Z.of_nat (List.length (decoded Raw.copies_world "images"
                                          (file_list Raw.copies_world "images"))) < 2 ^ 53
  /\ call "images" "out/same.jpg" Raw.copies_world
     = (inr tt, snd (call "images" "out/same.jpg" Raw.copies_world))
  /\ exists evs post,
      log (snd (call "images" "out/same.jpg" Raw.copies_world))
      = log Raw.copies_world ++ evs
      /\ filter is_output_event evs
         = [MadeDirs "out";
            Saved "out/same.jpg" SaveJpegBest (mk_rgb (1, 1)%nat [xc8; x64; x32]);
            Print LDone;
            Print (LSuccessCount
                     (Z.of_nat (List.length
                                  (decoded Raw.copies_world "images"
                                           (file_list Raw.copies_world "images")))));
            Print (LResizeCount 0)] ++ post
      /\ exists bytes,
           pil_encode "out/same.jpg" SaveJpegBest (mk_rgb (1, 1)%nat [xc8; x64; x32])
           = inr bytes
           /\ read_file (snd (call "images" "out/same.jpg" Raw.copies_world))
                        "out/same.jpg" = inr bytes.
Proof.
  assert (Hall : forall n j, In n (file_list Raw.copies_world "images") ->
                   load Raw.copies_world "images" n = inr j ->
                   j = mk_rgb (1, 1)%nat [xc8; x64; x32]).
  { intros n j Hn. change (In n ["1.png"; "2.png"; "3.png"]) in Hn.
    destruct Hn as [<- | [<- | [<- | []]]]; vm_compute;
      intros H; injection H as <-; reflexivity. }
  split; [intros t; reflexivity | ].
  split; [exact Hall | split; [vm_compute; reflexivity | ]].
  split; [vm_compute; reflexivity | split; [vm_compute; reflexivity | ]].
  apply (identical_copies "images" "out/same.jpg" Raw.copies_world);
    [intros t; reflexivity | exact Hall | vm_compute; reflexivity | vm_compute; reflexivity].
Defined.

(** C3. In the state in which the loop of lines 39-66 leaves the function,
    every matched file went to exactly one of the two tallies.  A file that
    is processed successfully was counted and has no entry in [errors], and
    the accumulator holds, position by position, the float64 sum from 0.0
    of that sample of the files counted, each taken once, in processing
    order.  A file whose processing fails has one (name, message) entry and
    added nothing.  So [count + len(errors)] is the number of matched
    files.  The loop is the one the function runs: with the input folder a
    directory, a file matched and line 29 printed, the function goes on
    from this state with lines 68-101.  (The console has to take the line
    of line 52, which is printed inside the [try].) *)
Theorem every_file_counted_or_logged {codec : Codec} {console : Console}
  (input_folder : string) (w w1 : World) (f : Frame) :
  (forall t, accepts (LBaseSize t) = true) ->
  loop_phase input_folder w = (inr tt, (f, w1)) ->
  let names := file_list w input_folder in
  let t := reference_or_default w input_folder names in
  let added := successes w input_folder t names in
  count f + Z.of_nat (List.length (errors f)) = Z.of_nat (List.length names)
  /\ count f = Z.of_nat (List.length added)
  /\ errors f = failures w input_folder t names
  /\ sum_array f
     = match reference_size w input_folder names with
       | Some _ => Some (mk_nd (shape_of_size t)
                               (map (float_sum_at added) (seq 0 (n_samples t))))
       | None => None
       end
  /\ (forall n, In n names ->
        (exists i, process w input_folder t n = inr i
                   /\ In i added
                   /\ ~ In n (map fst (errors f)))
        \/ (exists e, process w input_folder t n = inl e
                      /\ In (n, exn_str (FromLibrary e)) (errors f)))
  /\ (isdir w input_folder = true -> names <> [] ->
      accepts (LFound (Z.of_nat (List.length names))) = true ->
      forall output_path,
        compute_average_image input_folder output_path (init_frame, w)
        = finish output_path (f, w1)).
Proof.
  intros Hb Hloop. cbv zeta.
  pose proof (loop_phase_normal _ _ _ _ Hb Hloop) as Hlen.
  destruct (loop_phase_eq input_folder w) as (w2 & evs & Hrun & _).
  rewrite Hrun in Hlen. injection Hlen as <- <-.
  set (names := file_list w input_folder) in *.
  set (t := reference_or_default w input_folder names).
  split; [ | split; [ | split; [ | split; [ | split]]]].
  - unfold loop_result. cbn [count errors init_frame app]. fold t.
    rewrite <- (successes_failures_length w input_folder t names). lia.
  - reflexivity.
  - reflexivity.
  - unfold loop_result. cbn [sum_array]. fold t.
    destruct (reference_size w input_folder names); [ | reflexivity].
    rewrite sum_from_zero_stated; [reflexivity | ].
    intros i. apply successes_samples.
  - intros n Hn. unfold loop_result. cbn [errors init_frame app]. fold t.
    destruct (process w input_folder t n) as [e | i] eqn:P.
    + right. exists e. split; [reflexivity | ]. apply failures_In; assumption.
    + left. exists i. split; [reflexivity | split].
      * eapply successes_In; eassumption.
      * intros Hin. apply in_map_iff in Hin as ([n' msg] & E & Hin). cbn in E. subst n'.
        apply failures_name in Hin as (_ & e & Pe & _). congruence.
  - intros D Hne Ha output_path.
    rewrite (compute_average_image_found _ _ _ D Hne Ha), Hloop. reflexivity.
Qed.

(** The instance of the specification: three valid images and two corrupt
    files give count 3 and two logged errors; the accumulator holds the
    sums 14, 25 and 37, and the call writes its output. *)
Lemma every_file_counted_or_logged_witness :
  (forall t, @accepts Raw.strict_console (LBaseSize t) = true)
  /\ file_list Raw.mixed_world "images" = ["a.jpg"; "b.PNG"; "c.png"; "d.tiff"; "e.bmp"]
  /\ fst (@call Raw.raw_codec Raw.strict_console "images" "output/avg.png" Raw.mixed_world)
     = inr tt
  /\ exists f w1,
      @loop_phase Raw.raw_codec Raw.strict_console "images" Raw.mixed_world
      = (inr tt, (f, w1))
      /\ count f = 3
      /\ map fst (errors f) = ["b.PNG"; "e.bmp"]
      /\ count f + Z.of_nat (List.length (errors f)) = 5
      /\ sum_array f
         = Some (mk_nd (1, 1, 3)%nat [f64_of_Z 14; f64_of_Z 25; f64_of_Z 37]).
Proof.
  split; [intros t; reflexivity | ].
  split; [vm_compute; reflexivity | split; [vm_compute; reflexivity | ]].
  exists (fst (snd (@loop_phase Raw.raw_codec Raw.strict_console "images" Raw.mixed_world))),
         (snd (snd (@loop_phase Raw.raw_codec Raw.strict_console "images" Raw.mixed_world))).
  split; [vm_compute; reflexivity | ].
  destruct (@every_file_counted_or_logged Raw.raw_codec Raw.strict_console
              "images" Raw.mixed_world
              (snd (snd (@loop_phase Raw.raw_codec Raw.strict_console "images" Raw.mixed_world)))
              (fst (snd (@loop_phase Raw.raw_codec Raw.strict_console "images" Raw.mixed_world))))
    as (Hsum & Hc & He & Ha & _).
  - intros t. reflexivity.
  - vm_compute. reflexivity.
  - rewrite Hsum, Hc, He, Ha. vm_compute. repeat split; reflexivity.
Defined.

(** C2, as the code has it.  On a console that can encode every line, and
    for paths without a ".." component:
    - The input folder is not a directory: the first [ValueError] is raised
      at once; the world is untouched (nothing listed, opened or printed).
    - Otherwise, no name passes the extension filter: the second is raised,
      again with the world untouched.
    - Otherwise, no matched file decodes: the third is raised after the
      loop, when every matched file has been tried, in order.
    - Otherwise some file decodes: the failures of other files do not stop
      the call.  Every matched file is tried, the loop leaves the directory
      tree as it is, and the call ends as lines 76-101 end on the averaged
      raster: normally, or in the exception of [os.makedirs] or of
      [Image.save], which is none of the three.
    Conversely, a [ValueError] of the script that ends a call is one of the
    three, under its condition. *)
Theorem fatal_errors {codec : Codec} {console : Console}
  (input_folder output_path : string) (w : World) :
  (forall l, accepts l = true) ->
  dotdot_free input_folder = true ->
  dotdot_free output_path = true ->
  let names := file_list w input_folder in
  (isdir w input_folder = false ->
   call input_folder output_path w
   = (inl (ValueError (InputFolderMissing input_folder)), w))
  /\ (isdir w input_folder = true -> names = [] ->
      call input_folder output_path w = (inl (ValueError NoSupportedFiles), w))
  /\ (isdir w input_folder = true -> names <> [] ->
      decoded w input_folder names = [] ->
      exists w1 evs,
        call input_folder output_path w = (inl (ValueError NoImagesLoaded), w1)
        /\ extends w w1 evs
        /\ opened evs = map (os_path_join input_folder) names)
  /\ (isdir w input_folder = true -> decoded w input_folder names <> [] ->
      exists t w1 evs,
        reference_size w input_folder names = Some t
        /\ extends w w1 evs
        /\ opened evs = map (os_path_join input_folder) names
        /\ filter is_write evs = []
        /\ call input_folder output_path w
           = output_phase output_path (loop_result w input_folder names init_frame)
                          (stated_mean t (successes w input_folder t names)) w1
        /\ (forall v, fst (call input_folder output_path w) <> inl (ValueError v)))
  /\ (forall v w1,
        call input_folder output_path w = (inl (ValueError v), w1) ->
        (v = InputFolderMissing input_folder /\ isdir w input_folder = false)
        \/ (v = NoSupportedFiles /\ isdir w input_folder = true /\ names = [])
        \/ (v = NoImagesLoaded /\ isdir w input_folder = true /\ names <> []
            /\ decoded w input_folder names = [])).
Proof.
  intros Hacc _ _. cbv zeta. rewrite (call_accepting _ _ _ _ Hacc).
  set (names := file_list w input_folder).
  pose proof (call_cases input_folder output_path w) as Hc. cbv zeta in Hc. fold names in Hc.
  split; [ | split; [ | split; [ | split]]].
  - intros D.
    destruct Hc as [(_ & E) | [(D' & _) | [(D' & _) | (D' & _)]]]; [exact E | congruence ..].
  - intros D N.
    destruct Hc as [(D' & _) | [(_ & _ & E) | [(_ & N' & _) | (_ & N' & _)]]];
      [congruence | exact E | contradiction ..].
  - intros D N Hd. apply reference_none_decoded in Hd.
    destruct Hc as [(D' & _) | [(_ & N' & _) | [(_ & _ & _ & w1 & evs & E & Hext & Hop & _) | (_ & _ & t & w1 & evs & Rf & _)]]];
      [congruence | contradiction | | congruence].
    exists w1. eexists. split; [exact E | split; [exact Hext | ]].
    rewrite opened_cons_print. exact Hop.
  - intros D Hd.
    assert (Rn : reference_size w input_folder names <> None)
      by (intros Rn; apply reference_none_decoded in Rn; contradiction).
    destruct Hc as [(D' & _) | [(_ & N' & _) | [(_ & _ & Rf & _) | (_ & _ & t & w1 & evs & Rf & Hext & Hop & Hout & E)]]];
      [congruence | | contradiction | ].
    + rewrite N' in Hd. exfalso. apply Hd. reflexivity.
    + exists t, w1. eexists.
      split; [exact Rf | split; [exact Hext | split; [ | split; [ | split]]]].
      * rewrite opened_cons_print. exact Hop.
      * rewrite filter_write_cons_print, <- filter_write_of_output, Hout. reflexivity.
      * rewrite <- mean_of_successes. exact E.
      * intros v Hv. rewrite E in Hv.
        destruct (output_phase output_path (loop_result w input_folder names init_frame)
                    (mean_image t (successes w input_folder t names)) w1) as [r w2] eqn:O.
        apply output_phase_any in O as (Hno & _). exact (Hno v Hv).
  - intros v w2 H.
    destruct Hc as [(D' & E) | [(D' & N' & E) | [(D' & N' & Rf & w1 & evs & E & _) | (_ & _ & t & w1 & evs & _ & _ & _ & _ & E)]]].
    + left. rewrite E in H. injection H as <- _. auto.
    + right. left. rewrite E in H. injection H as <- _. auto.
    + right. right. rewrite E in H. injection H as <- _.
      apply reference_none_decoded in Rf. auto.
    + rewrite E in H. apply output_phase_any in H as (Hv & _).
      exfalso. exact (Hv v eq_refl).
Qed.

(** The four cases on examples: no directory; only corrupt files; three
    valid pictures among five files, written to a new directory; and the
    same with an output directory that cannot be made. *)
Lemma fatal_errors_witness :
  (forall l, @accepts lenient_console l = true)
  /\ dotdot_free "nowhere" = true /\ dotdot_free "images" = true
  /\ dotdot_free "out/a.png" = true
  /\ call "nowhere" "out/a.png" Raw.mixed_world
     = (inl (ValueError (InputFolderMissing "nowhere")), Raw.mixed_world)
  /\ (exists w1 evs,
        call "images" "out/a.png" Raw.corrupt_world = (inl (ValueError NoImagesLoaded), w1)
        /\ extends Raw.corrupt_world w1 evs
        /\ opened evs = ["images/x.png"; "images/y.bmp"])
  /\ fst (call "images" "out/a.png" Raw.mixed_world) = inr tt
  /\ (exists t w1 evs,
        reference_size Raw.mixed_world "images" (file_list Raw.mixed_world "images") = Some t
        /\ extends Raw.mixed_world w1 evs
        /\ opened evs = ["images/a.jpg"; "images/b.PNG"; "images/c.png";
                         "images/d.tiff"; "images/e.bmp"]
        /\ filter is_write evs = []
        /\ call "images" "out/a.png" Raw.mixed_world
           = output_phase "out/a.png"
               (loop_result Raw.mixed_world "images" (file_list Raw.mixed_world "images")
                            init_frame)
               (stated_mean t (successes Raw.mixed_world "images" t
                                         (file_list Raw.mixed_world "images"))) w1
        /\ (forall v, fst (call "images" "out/a.png" Raw.mixed_world) <> inl (ValueError v))).
Proof.
  split; [intros l; reflexivity | ].
  split; [reflexivity | split; [reflexivity | split; [reflexivity | ]]].
  split; [ | split; [ | split; [vm_compute; reflexivity | ]]].
  - apply (proj1 (@fatal_errors Raw.raw_codec lenient_console "nowhere" "out/a.png" Raw.mixed_world
                    (fun l => eq_refl) eq_refl eq_refl)).
    vm_compute. reflexivity.
  - apply (proj1 (proj2 (proj2 (@fatal_errors Raw.raw_codec lenient_console "images" "out/a.png" Raw.corrupt_world
                                  (fun l => eq_refl) eq_refl eq_refl)))).
    + vm_compute. reflexivity.
    + vm_compute. discriminate.
    + vm_compute. reflexivity.
  - apply (proj1 (proj2 (proj2 (proj2 (@fatal_errors Raw.raw_codec lenient_console "images" "out/a.png" Raw.mixed_world
                                         (fun l => eq_refl) eq_refl eq_refl))))).
    + vm_compute. reflexivity.
    + vm_compute. discriminate.
Defined.

(** C2 as stated fails: with the input folder a directory, five files
    matched and three of them decoded, a call still ends in an exception
    when the output cannot be written.  Here the directory of the output
    path exists as a regular file, and [os.makedirs] raises
    [FileExistsError] after the loop. *)
Lemma fatal_errors_counterexample :
  ~ fails_in_three_cases_only "images" "images/a.jpg/avg.png" Raw.mixed_world.
Proof.
  intros H.
  destruct (H (FromLibrary (FileExistsError "images/a.jpg"))
              (snd (call "images" "images/a.jpg/avg.png" Raw.mixed_world)))
    as [D | [N | L]].
  - vm_compute. reflexivity.
  - vm_compute in D. discriminate.
  - vm_compute in N. discriminate.
  - vm_compute in L. discriminate.
Qed.

(** C10. A call that ends in one of the three [ValueError]s of the script
    has changed no file and no directory and has not attempted to: the tree
    is the one it started with and its events contain neither
    [os.makedirs] nor [save]. *)
Theorem no_write_on_fatal_error {codec : Codec} (input_folder output_path : string)
  (w w1 : World) (v : script_error) :
  call input_folder output_path w = (inl (ValueError v), w1) ->
  root w1 = root w
  /\ cwd w1 = cwd w
  /\ exists evs, log w1 = log w ++ evs /\ filter is_write evs = [].
Proof.
  intros H.
  destruct (call_cases input_folder output_path w)
    as [(_ & E) | [(_ & _ & E) | [(_ & _ & _ & w2 & evs & E & Hext & _ & Hout) | (_ & _ & t & w2 & evs & _ & _ & _ & _ & E)]]].
  - rewrite E in H. injection H as _ <-.
    repeat split. exists []. rewrite app_nil_r. split; reflexivity.
  - rewrite E in H. injection H as _ <-.
    repeat split. exists []. rewrite app_nil_r. split; reflexivity.
  - rewrite E in H. injection H as _ <-. destruct Hext as (R & C & L).
    split; [exact R | split; [exact C | ]].
    eexists. split; [exact L | ].
    rewrite filter_write_cons_print, <- filter_write_of_output, Hout. reflexivity.
  - rewrite E in H. apply output_phase_any in H as (Hv & _).
    exfalso. exact (Hv v eq_refl).
Qed.

Lemma no_write_on_fatal_error_witness :
  call "images" "out/a.png" Raw.corrupt_world
  = (inl (ValueError NoImagesLoaded), snd (call "images" "out/a.png" Raw.corrupt_world))
  /\ root (snd (call "images" "out/a.png" Raw.corrupt_world)) = root Raw.corrupt_world
  /\ cwd (snd (call "images" "out/a.png" Raw.corrupt_world)) = cwd Raw.corrupt_world
  /\ exists evs,
      log (snd (call "images" "out/a.png" Raw.corrupt_world)) = log Raw.corrupt_world ++ evs
      /\ filter is_write evs = [].
Proof.
  split; [vm_compute; reflexivity | ].
  apply (no_write_on_fatal_error "images" "out/a.png" Raw.corrupt_world _ NoImagesLoaded).
  vm_compute. reflexivity.
Defined.

(** C4, as the code has it.  The names processed are exactly the entries
    directly inside [input_folder] whose name ends, ignoring case, in one of
    .png, .jpg, .jpeg, .tiff, .bmp, of whatever kind the entry is: the
    filter looks at names only.  Entries of subdirectories are not entries
    of [input_folder], so nothing below it is selected. *)
Theorem selected_files (w : World) (input_folder : string)
  (entries : list (string * node)) :
  stat w input_folder = Some (Dir entries) ->
  forall name,
    In name (file_list w input_folder) <->
    (exists x, In (name, x) entries) /\ ends_with_allowed name.
Proof.
  intros St name. unfold file_list, listdir. rewrite St.
  rewrite In_sorted. unfold select_files. rewrite filter_In, in_map_iff.
  unfold endswith_any, ends_with_allowed. rewrite existsb_exists.
  split.
  - intros [([n x] & E & Hin) (ext & He & Hs)]. cbn in E. subst n.
    split; [exists x; exact Hin | ].
    apply endswith_spec in Hs as [p Hp]. exists ext, p. auto.
  - intros [[x Hin] (ext & p & He & Hp)]. split.
    + exists (name, x). auto.
    + exists ext. split; [exact He | ]. apply endswith_spec. exists p. exact Hp.
Qed.

Lemma selected_files_witness :
  stat Raw.odd_world "images"
  = Some (Dir [("sub.png", Dir [("inner.png", Raw.pixel_file x01 x01 x01)]);
               ("sock.jpg", Special);
               ("ok.png", Raw.pixel_file x09 x09 x09)])
  /\ forall name,
      In name (file_list Raw.odd_world "images") <->
      (exists x, In (name, x)
                    [("sub.png", Dir [("inner.png", Raw.pixel_file x01 x01 x01)]);
                     ("sock.jpg", Special);
                     ("ok.png", Raw.pixel_file x09 x09 x09)])
      /\ ends_with_allowed name.
Proof.
  split; [reflexivity | ].
  apply (selected_files Raw.odd_world "images"). reflexivity.
Defined.

(** In a directory that holds regular files only, the rule as the
    specification words it and the rule of the code agree. *)
Lemma regular_entries_selected (w : World) (input_folder : string) :
  (forall entries name x,
      stat w input_folder = Some (Dir entries) -> In (name, x) entries ->
      exists d, x = File d) ->
  selects_regular_files w input_folder.
Proof.
  intros Hreg entries St name x Hin.
  assert (Hsel : In name (file_list w input_folder) <->
                 (exists y, In (name, y) entries) /\ ends_with_allowed name).
  { unfold file_list, listdir. rewrite St.
    rewrite In_sorted. unfold select_files. rewrite filter_In, in_map_iff.
    unfold endswith_any, ends_with_allowed. rewrite existsb_exists.
    split.
    - intros [([n y] & E & Hy) (ext & He & Hs)]. cbn in E. subst n.
      split; [exists y; exact Hy | ].
      apply endswith_spec in Hs as [p Hp]. exists ext, p. auto.
    - intros [[y Hy] (ext & p & He & Hp)]. split.
      + exists (name, y). auto.
      + exists ext. split; [exact He | ]. apply endswith_spec. exists p. exact Hp. }
  rewrite Hsel. split.
  - intros [_ He]. split; [exact (Hreg entries name x St Hin) | exact He].
  - intros [_ He]. split; [exists x; exact Hin | exact He].
Qed.

(** C4 as stated fails: the entry [sub.png] of the directory is a
    subdirectory, not a regular file, and it is selected. *)
Lemma selected_files_counterexample :
  ~ selects_regular_files Raw.odd_world "images".
Proof.
  intros H.
  assert (Hin : In "sub.png" (file_list Raw.odd_world "images"))
    by (vm_compute; auto).
  apply (H _ eq_refl "sub.png" (Dir [("inner.png", Raw.pixel_file x01 x01 x01)])) in Hin.
  - destruct Hin as [[d Hd] _]. discriminate.
  - left. reflexivity.
Qed.

(** The part of C5 that holds: for a directory path that is not empty and
    has nothing but directories on it, [os.makedirs] creates what is missing
    and the directory exists afterwards. *)
Lemma makedirs_missing_parent (w : World) (d : string) :
  d <> "" ->
  (forall pre post x, resolve w d = pre ++ post -> lookup (root w) pre = Some x ->
                      exists es, x = Dir es) ->
  exists w2, makedirs w d = inr w2 /\ isdir w2 d = true.
Proof.
  intros Hd Hp. destruct (mkdir_p_total d (resolve w d) (root w) Hp) as [r E].
  assert (M : makedirs w d = inr (set_root w r)).
  { unfold makedirs. destruct (String.eqb_spec d "") as [-> | _]; [congruence | ].
    rewrite E. reflexivity. }
  exists (set_root w r). split; [exact M | ]. apply makedirs_ok in M. apply M.
Qed.

(** C5 fails for an [output_path] without a directory part:
    [os.path.dirname] is then the empty string, [os.makedirs] cannot create
    it, and the call never returns normally, although the directory the
    file would go to (the working directory) exists. *)
Theorem bare_output_path_fails {codec : Codec} (input_folder output_path : string)
  (w : World) :
  os_path_dirname output_path = "" ->
  fst (call input_folder output_path w) <> inr tt.
Proof.
  intros Hd H.
  destruct (call input_folder output_path w) as [r w'] eqn:E. cbn [fst] in H. subst r.
  destruct (call_cases input_folder output_path w)
    as [(_ & E') | [(_ & _ & E') | [(_ & _ & _ & w1 & evs & E' & _) | (_ & _ & t & w1 & evs & _ & _ & _ & _ & E')]]];
    try congruence.
  rewrite E' in E. unfold output_phase in E. rewrite Hd in E.
  unfold makedirs in E. cbn in E. discriminate.
Qed.

Lemma bare_output_path_fails_witness :
  os_path_dirname "avg.png" = ""
  /\ (exists es, lookup (root Raw.mixed_world) (rev (cwd Raw.mixed_world)) = Some (Dir es))
  /\ call "images" "avg.png" Raw.mixed_world
     = (inl (FromLibrary (FileNotFoundError "")),
        snd (call "images" "avg.png" Raw.mixed_world))
  /\ root (snd (call "images" "avg.png" Raw.mixed_world)) = root Raw.mixed_world
  /\ fst (call "images" "avg.png" Raw.mixed_world) <> inr tt.
Proof.
  split; [reflexivity | split; [eexists; reflexivity | ]].
  split; [vm_compute; reflexivity | split; [vm_compute; reflexivity | ]].
  apply (bare_output_path_fails "images" "avg.png" Raw.mixed_world). reflexivity.
Defined.

(** C9. The sample written for a sum [s] and a count is the integer part of
    the clipped quotient: with [y = num / 2^k] the binary64 value of
    [clip(s / count, 0, 255)], the sample is the floor of [y] (which is the
    truncation, [y] being non-negative), not the nearest integer. *)
Theorem cast_truncates (count : Z) (s : float64) :
  valid_binary prec emax (f64_div s (f64_of_Z count)) = true ->
  let y := clip_u8 (f64_div s (f64_of_Z count)) in
  u8_to_Z (average_sample count s) = fst (f64_value y) / 2 ^ snd (f64_value y).
Proof.
  intros Hv. cbv zeta. unfold average_sample.
  apply Binary64Facts.clip_cast_floor. exact Hv.
Qed.

(** The average 0.9 (a sum of 9 over 10 images) gives the sample 0. *)
Lemma cast_truncates_witness :
  valid_binary prec emax (f64_div (f64_of_Z 9) (f64_of_Z 10)) = true
  /\ f64_value (clip_u8 (f64_div (f64_of_Z 9) (f64_of_Z 10))) = (8106479329266893, 53)
  /\ 2 ^ 53 < 2 * 8106479329266893
  /\ average_sample 10 (f64_of_Z 9) = x00
  /\ u8_to_Z (average_sample 10 (f64_of_Z 9))
     = fst (f64_value (clip_u8 (f64_div (f64_of_Z 9) (f64_of_Z 10))))
       / 2 ^ snd (f64_value (clip_u8 (f64_div (f64_of_Z 9) (f64_of_Z 10)))).
Proof.
  split; [vm_compute; reflexivity | split; [vm_compute; reflexivity | ]].
  split; [vm_compute; reflexivity | split; [vm_compute; reflexivity | ]].
  apply (cast_truncates 10 (f64_of_Z 9)). vm_compute. reflexivity.
Defined.

(** ** Beyond the exact range: 2^54 copies *)

Module Crowd.

Import Raw.

Lemma no_sep_app a b : no_sep a = true -> no_sep b = true -> no_sep (a ++ b) = true.
Proof.
  induction a as [ | c r IH]; cbn [no_sep append]; [auto | ].
  intros H Hb. apply andb_prop in H as [H1 H2]. rewrite H1, IH by assumption. reflexivity.
Qed.

Lemma no_sep_bits p : no_sep (bits p) = true.
Proof. induction p as [q IH | q IH | ]; cbn [bits no_sep]; [exact IH | exact IH | reflexivity]. Qed.

Lemma split_on_no_sep s : no_sep s = true -> split_on "/" s = [s].
Proof.
  induction s as [ | c r IH]; cbn [no_sep split_on]; [reflexivity | ].
  intros H. apply andb_prop in H as [H1 H2]. unfold is_sep in H1.
  destruct (Ascii.eqb c "/"); [discriminate | ]. rewrite IH by exact H2. reflexivity.
Qed.

Lemma lower_app a b : lower (a ++ b) = (lower a ++ lower b)%string.
Proof. induction a as [ | c r IH]; cbn [lower append]; [reflexivity | rewrite IH; reflexivity]. Qed.

Lemma numbered_selected k : endswith_any (lower (numbered k)) valid_extensions = true.
Proof.
  unfold endswith_any, valid_extensions. cbn [existsb].
  replace (endswith (lower (numbered k)) ".png") with true; [reflexivity | ].
  symmetry. apply endswith_spec. unfold numbered. cbn [lower]. rewrite lower_app.
  exists (String "f" (lower (bits (Pos.of_succ_nat k)))). reflexivity.
Qed.

Lemma filter_all {A} (f : A -> bool) (l : list A) :
  (forall x, In x l -> f x = true) -> filter f l = l.
Proof.
  induction l as [ | x r IH]; [reflexivity | ]. intros H. cbn [filter].
  rewrite (H x) by (left; reflexivity). rewrite IH; [reflexivity | ].
  intros y Hy. apply H. right. exact Hy.
Qed.

Lemma crowd_names n name :
  In name (map fst (crowd n)) -> exists k, name = numbered k.
Proof.
  unfold crowd. rewrite map_map. cbn [fst]. rewrite in_map_iff.
  intros (k & <- & _). exists k. reflexivity.
Qed.

Lemma crowd_find n name :
  In name (map fst (crowd n)) -> find_entry name (crowd n) = Some (pixel_file x01 x01 x01).
Proof.
  unfold crowd. induction (seq 0 n) as [ | k r IH]; cbn [map fst In find_entry];
    [contradiction | ].
  intros [-> | H]; [rewrite String.eqb_refl; reflexivity | ].
  destruct (String.eqb (numbered k) name); [reflexivity | exact (IH H)].
Qed.

Lemma crowd_file_list n :
  file_list (crowded_world n) "images" = sorted (map fst (crowd n)).
Proof.
  unfold file_list, select_files.
  change (listdir (crowded_world n) "images") with (@inr library_error _ (map fst (crowd n))).
  cbv beta iota. rewrite filter_all; [reflexivity | ].
  intros name H. apply crowd_names in H as [k ->]. apply numbered_selected.
Qed.

Lemma crowd_length n : List.length (file_list (crowded_world n) "images") = n.
Proof.
  rewrite crowd_file_list, length_sorted. unfold crowd.
  rewrite !length_map, length_seq. reflexivity.
Qed.

Lemma split_on_app_sep a b :
  no_sep a = true -> split_on "/" (a ++ String "/" b) = a :: split_on "/" b.
Proof.
  induction a as [ | c r IH]; cbn [no_sep append split_on].
  - intros _. reflexivity.
  - intros H. apply andb_prop in H as [H1 H2]. unfold is_sep in H1.
    destruct (Ascii.eqb c "/"); [discriminate | ]. rewrite IH by exact H2. reflexivity.
Qed.

Lemma no_sep_numbered k : no_sep (numbered k) = true.
Proof.
  unfold numbered. apply (no_sep_app "f"); [reflexivity | ].
  apply no_sep_app; [apply no_sep_bits | reflexivity].
Qed.

Lemma crowd_stat n k :
  In (numbered k) (map fst (crowd n)) ->
  stat (crowded_world n) (os_path_join "images" (numbered k))
  = Some (pixel_file x01 x01 x01).
Proof.
  intros H. pose proof (crowd_find n _ H) as F.
  assert (J : os_path_join "images" (numbered k)
              = ("images" ++ String "/" (numbered k))%string) by reflexivity.
  rewrite J. unfold stat, resolve.
  change (String.eqb ("images" ++ String "/" (numbered k)) "") with false.
  change (prefix "/" ("images" ++ String "/" (numbered k))) with false.
  cbv iota. rewrite split_on_app_sep by reflexivity.
  rewrite split_on_no_sep by apply no_sep_numbered.
  cbn [fold_left crowded_world cwd root].
  change (resolve_step [] "images") with ["images"].
  change (resolve_step ["images"] (numbered k)) with [numbered k; "images"].
  cbn [rev app lookup find_entry String.eqb Ascii.eqb Bool.eqb].
  rewrite F. reflexivity.
Qed.

Lemma crowd_load n name :
  In name (file_list (crowded_world n) "images") ->
  load (crowded_world n) "images" name = inr one_pixel.
Proof.
  rewrite crowd_file_list, In_sorted. intros H.
  destruct (crowd_names n name H) as [k ->].
  unfold load, read_file. rewrite (crowd_stat n k H). reflexivity.
Qed.

Import Binary64Facts.

(** Adding 1.0 is exact up to 2^53 and has no effect from there on. *)
Lemma add_one_saturates (k : Z) :
  0 <= k ->
  f64_add (f64_of_Z (Z.min k (2 ^ 53))) (f64_of_u8 x01)
  = f64_of_Z (Z.min (k + 1) (2 ^ 53)).
Proof.
  intros Hk. change (f64_of_u8 x01) with (f64_of_Z 1).
  destruct (Z_lt_le_dec (k + 1) (2 ^ 53)) as [Hlt | Hge].
  - rewrite !Z.min_l by lia. apply f64_add_exact; lia.
  - rewrite (Z.min_r (k + 1)) by lia.
    destruct (Z_lt_le_dec k (2 ^ 53)) as [Hlt | Hge'].
    + rewrite Z.min_l by lia. replace k with (2 ^ 53 - 1) by lia.
      vm_compute. reflexivity.
    + rewrite Z.min_r by lia. vm_compute. reflexivity.
Qed.

Lemma sum_saturates (n : nat) :
  forall k, 0 <= k ->
    sum_images (repeat (f64_of_Z (Z.min k (2 ^ 53))) 3) (repeat one_pixel n)
    = repeat (f64_of_Z (Z.min (k + Z.of_nat n) (2 ^ 53))) 3.
Proof.
  induction n as [ | n IH]; intros k Hk.
  - rewrite Z.add_0_r. reflexivity.
  - unfold sum_images. cbn [repeat fold_left map vadd img_data one_pixel].
    rewrite add_one_saturates by exact Hk.
    change (fold_left (fun a i => vadd a (map f64_of_u8 (img_data i))) (repeat one_pixel n)
                      [f64_of_Z (Z.min (k + 1) (2 ^ 53)); f64_of_Z (Z.min (k + 1) (2 ^ 53));
                       f64_of_Z (Z.min (k + 1) (2 ^ 53))])
      with (sum_images (repeat (f64_of_Z (Z.min (k + 1) (2 ^ 53))) 3) (repeat one_pixel n)).
    rewrite IH by lia.
    replace (k + 1 + Z.of_nat n) with (k + Z.of_nat (S n)) by lia. reflexivity.
Qed.

(** 2^54 copies of a picture of value 1 average to 0: the sum stays at
    2^53 and the quotient is 0.5. *)
Lemma mean_crowd (n : nat) :
  Z.of_nat n = 2 ^ 54 ->
  mean_image (1, 1)%nat (repeat one_pixel n) = mk_rgb (1, 1)%nat [x00; x00; x00].
Proof.
  intros Hn. unfold mean_image. rewrite repeat_length, Hn.
  change (repeat f64_zero (n_samples (1, 1)%nat))
    with (repeat (f64_of_Z (Z.min 0 (2 ^ 53))) 3).
  rewrite sum_saturates by lia. rewrite Hn. vm_compute. reflexivity.
Qed.

(** With the raw codec, the output phase succeeds in a world that holds
    only the input folder. *)
Lemma crowd_output (es : list (string * node)) (w : World) (f : Frame) (img : rgb_image) :
  root w = Dir [("images", Dir es)] -> cwd w = [] ->
  exists w', output_phase "out/avg.png" f img w = (inr tt, w').
Proof.
  destruct w as [r c l]. cbn [root cwd]. intros -> ->.
  unfold output_phase, makedirs, write_file, resolve.
  cbn [add_log set_root root cwd log os_path_dirname].
  eexists. cbn. reflexivity.
Qed.

Lemma crowd_call (n : nat) :
  Z.of_nat n = 2 ^ 54 ->
  exists w' evs,
    call "images" "out/avg.png" (crowded_world n) = (inr tt, w')
    /\ log w' = log (crowded_world n) ++ evs
    /\ filter is_write evs
       = [MadeDirs "out";
          Saved "out/avg.png" SavePngOptimize (mk_rgb (1, 1)%nat [x00; x00; x00])].
Proof.
  intros Hn.
  assert (Hne : file_list (crowded_world n) "images" <> []).
  { intros E. apply (f_equal (@List.length string)) in E. rewrite crowd_length in E.
    cbn [List.length] in E. subst n. cbn in Hn. lia. }
  destruct (decoded_all_same (crowded_world n) "images" _ one_pixel (crowd_load n) Hne)
    as (Rf & Hs & _ & _).
  destruct (call_cases "images" "out/avg.png" (crowded_world n))
    as [(D & _) | [(_ & N & _) | [(_ & _ & Rn & _) | (_ & _ & t & w1 & evs & _ & Hext & _ & _ & E)]]].
  - discriminate D.
  - contradiction.
  - rewrite Rf in Rn. discriminate.
  - destruct Hext as (R1 & C1 & _).
    destruct (crowd_output (crowd n) w1
                (loop_result (crowded_world n) "images"
                             (file_list (crowded_world n) "images") init_frame)
                (mean_image t (successes (crowded_world n) "images" t
                                         (file_list (crowded_world n) "images"))))
      as [w' O]; [exact R1 | exact C1 | ].
    rewrite O in E.
    destruct (call_ok_events _ _ _ _ E) as (t' & evs' & _ & Rf' & Hl & _ & Hout & _).
    rewrite Rf in Rf'. injection Rf' as <-.
    change (img_size one_pixel) with (1, 1)%nat in Hs, Hout.
    rewrite Hs, crowd_length, (mean_crowd n Hn) in Hout.
    exists w', evs'. split; [exact E | split; [exact Hl | ]].
    rewrite <- filter_write_of_output, Hout, filter_app, filter_write_report.
    reflexivity.
Qed.

End Crowd.

(** The bound on the number of copies is binary64's, not the code's: in
    the model, with 2^54 copies of a one-pixel image of value (1, 1, 1) the
    sums stop at 2^53, the call returns and the raster it writes is
    (0, 0, 0).  No run can list a directory of that size; the lemma only
    shows why the statement about copies carries the bound. *)
Lemma exact_range_needed :
  (forall n, In n (file_list (Raw.crowded_world (Z.to_nat (2 ^ 54))) "images") ->
             load (Raw.crowded_world (Z.to_nat (2 ^ 54))) "images" n = inr Raw.one_pixel)
  /\ Z.of_nat (List.length (file_list (Raw.crowded_world (Z.to_nat (2 ^ 54))) "images"))
     = 2 ^ 54
  /\ (exists w' evs,
        call "images" "out/avg.png" (Raw.crowded_world (Z.to_nat (2 ^ 54))) = (inr tt, w')
        /\ log w' = log (Raw.crowded_world (Z.to_nat (2 ^ 54))) ++ evs
        /\ filter is_write evs
           = [MadeDirs "out";
              Saved "out/avg.png" SavePngOptimize (mk_rgb (1, 1)%nat [x00; x00; x00])])
  /\ mk_rgb (1, 1)%nat [x00; x00; x00] <> Raw.one_pixel.
Proof.
  assert (H54 : Z.of_nat (Z.to_nat (2 ^ 54)) = 2 ^ 54)
    by (apply Z2Nat.id, Z.pow_nonneg; lia).
  split; [apply Crowd.crowd_load | split; [ | split]].
  - rewrite Crowd.crowd_length. exact H54.
  - apply Crowd.crowd_call. exact H54.
  - discriminate.
Qed.

(* ================================================================== *)
(** * Part IV: further properties of the code *)
(* ================================================================== *)

(** X1. The image a call writes has the dimensions of the first matched
    file, in sorted order, that decodes, and holds three samples for each
    of its pixels. *)
Theorem output_has_reference_size {codec : Codec} (input_folder output_path : string)
  (w w' : World) :
  call input_folder output_path w = (inr tt, w') ->
  exists pre name post first img evs,
    file_list w input_folder = pre ++ name :: post
    /\ (forall n, In n pre -> decodes w input_folder n = false)
    /\ load w input_folder name = inr first
    /\ log w' = log w ++ evs
    /\ filter is_write evs
       = [MadeDirs (os_path_dirname output_path);
          Saved output_path (opts_of_ext (lower (os_path_splitext_ext output_path))) img]
    /\ img_size img = img_size first
    /\ List.length (img_data img)
       = (snd (img_size first) * fst (img_size first) * 3)%nat.
Proof.
  intros H.
  destruct (call_ok_events _ _ _ _ H) as (t & evs & _ & Rf & Hl & _ & Hout & _).
  destruct (reference_size_first _ _ _ _ Rf) as (pre & name & post & first & Hn & Hp & L & Hs).
  exists pre, name, post, first. eexists. exists evs.
  split; [exact Hn | split; [exact Hp | split; [exact L | split; [exact Hl | split; [ | split]]]]].
  - rewrite <- filter_write_of_output, Hout, filter_app, filter_write_report. reflexivity.
  - rewrite Hs. reflexivity.
  - unfold mean_image. cbn [img_data]. rewrite length_map, Hs.
    apply sum_images_length; [apply repeat_length | ].
    intros i Hi. apply successes_wf in Hi as [Hsz Hwf].
    unfold wf_rgb in Hwf. rewrite Hwf, Hsz. reflexivity.
Qed.

Lemma output_has_reference_size_witness :
  call "images" "output/avg.png" Raw.mixed_world
  = (inr tt, snd (call "images" "output/avg.png" Raw.mixed_world))
  /\ exists pre name post first img evs,
      file_list Raw.mixed_world "images" = pre ++ name :: post
      /\ (forall n, In n pre -> decodes Raw.mixed_world "images" n = false)
      /\ load Raw.mixed_world "images" name = inr first
      /\ log (snd (call "images" "output/avg.png" Raw.mixed_world))
         = log Raw.mixed_world ++ evs
      /\ filter is_write evs
         = [MadeDirs (os_path_dirname "output/avg.png");
            Saved "output/avg.png"
                  (opts_of_ext (lower (os_path_splitext_ext "output/avg.png"))) img]
      /\ img_size img = img_size first
      /\ List.length (img_data img)
         = (snd (img_size first) * fst (img_size first) * 3)%nat.
Proof.
  split; [vm_compute; reflexivity | ].
  apply (output_has_reference_size "images" "output/avg.png" Raw.mixed_world).
  vm_compute. reflexivity.
Defined.

Section LoopFacts.

Context {codec : Codec}.

Lemma reference_size_filter w input_folder names :
  reference_size w input_folder (filter (decodes w input_folder) names)
  = reference_size w input_folder names.
Proof.
  induction names as [ | n r IH]; [reflexivity | ]. cbn [filter reference_size].
  unfold decodes at 1. destruct (load w input_folder n) as [e | i] eqn:L; [exact IH | ].
  cbn [reference_size]. rewrite L. reflexivity.
Qed.

Lemma successes_filter w input_folder t names :
  successes w input_folder t (filter (decodes w input_folder) names)
  = successes w input_folder t names.
Proof.
  induction names as [ | n r IH]; [reflexivity | ]. cbn [filter successes].
  assert (D : decodes w input_folder n
              = match load w input_folder n with inr _ => true | inl _ => false end)
    by reflexivity.
  assert (P : process w input_folder t n
              = match load w input_folder n with inr i => conform t i | inl e => inl e end)
    by reflexivity.
  destruct (load w input_folder n) as [e | i].
  - rewrite D, P. exact IH.
  - rewrite D. cbn [successes]. rewrite IH. reflexivity.
Qed.

Lemma resize_events_filter w input_folder t names :
  resize_events w input_folder t (filter (decodes w input_folder) names)
  = resize_events w input_folder t names.
Proof.
  unfold resize_events.
  induction names as [ | n r IH]; [reflexivity | ]. cbn [filter].
  assert (D : decodes w input_folder n
              = match load w input_folder n with inr _ => true | inl _ => false end)
    by reflexivity.
  assert (P : is_resize_event w input_folder t n
              = match load w input_folder n with
                | inr i => negb (size_eqb (img_size i) t)
                           && match pil_resize i t with inr _ => true | inl _ => false end
                | inl _ => false
                end)
    by reflexivity.
  destruct (load w input_folder n) as [e | i].
  - rewrite D, P. exact IH.
  - rewrite D. cbn [filter]. rewrite IH. reflexivity.
Qed.

Lemma resize_events_le w input_folder t names :
  (List.length (resize_events w input_folder t names)
   <= List.length (successes w input_folder t names))%nat.
Proof.
  unfold resize_events.
  induction names as [ | n r IH]; [reflexivity | ]. cbn [filter successes].
  destruct (is_resize_event w input_folder t n) eqn:E.
  - apply is_resize_event_success in E as [i ->]. cbn [List.length]. lia.
  - destruct (process w input_folder t n); cbn [List.length]; lia.
Qed.

End LoopFacts.

(** X2. Files that do not decode leave no trace in the result of the loop:
    run over all the names or only over those that decode, it ends with the
    same accumulator, reference size, success count and resize count. *)
Theorem undecodable_files_leave_no_trace {codec : Codec} (input_folder : string)
  (total total' cur cur' : Z) (names : list string) (w : World) :
  exists f w1 f' w1',
    main_loop input_folder total cur names (init_frame, w) = (inr tt, (f, w1))
    /\ main_loop input_folder total' cur' (filter (decodes w input_folder) names)
                 (init_frame, w)
       = (inr tt, (f', w1'))
    /\ sum_array f = sum_array f'
    /\ target_size f = target_size f'
    /\ count f = count f'
    /\ resize_count f = resize_count f'.
Proof.
  destruct (main_loop_init w input_folder total names cur init_frame w)
    as (w1 & evs & Hrun & _); try reflexivity.
  destruct (main_loop_init w input_folder total' (filter (decodes w input_folder) names)
                           cur' init_frame w)
    as (w1' & evs' & Hrun' & _); try reflexivity.
  eexists. exists w1. eexists. exists w1'.
  split; [exact Hrun | split; [exact Hrun' | ]].
  unfold loop_result, reference_or_default.
  rewrite !reference_size_filter, !successes_filter, !resize_events_filter.
  cbn [sum_array target_size count resize_count]. repeat split.
Qed.

(** X3. The report of a call that returns adds up: the number of files
    announced at the start is the success count plus the number of skipped
    files listed at the end; there is at least one success, and the resize
    count does not exceed the success count. *)
Theorem report_adds_up {codec : Codec} (input_folder output_path : string) (w w' : World) :
  call input_folder output_path w = (inr tt, w') ->
  exists total c r t skipped before after,
    log w' = log w ++ Print (LFound total) :: before
                   ++ [Print LDone; Print (LSuccessCount c); Print (LResizeCount r);
                       Print (LOutputSize (Some t)); Print LElapsed]
                   ++ match skipped with
                      | [] => []
                      | _ => Print (LSkippedHeader (Z.of_nat (List.length skipped)))
                             :: map (fun x => Print (LSkippedItem (fst x) (snd x))) skipped
                      end
                   ++ after
    /\ total = Z.of_nat (List.length (file_list w input_folder))
    /\ c + Z.of_nat (List.length skipped) = total
    /\ 1 <= c
    /\ 0 <= r <= c.
Proof.
  intros H.
  destruct (call_ok _ _ _ _ H) as (t & evs & _ & Rf & _ & _ & Hl & _).
  set (names := file_list w input_folder) in *.
  exists (Z.of_nat (List.length names)),
         (Z.of_nat (List.length (successes w input_folder t names))),
         (Z.of_nat (List.length (resize_events w input_folder t names))),
         t, (failures w input_folder t names),
         (evs ++ [MadeDirs (os_path_dirname output_path);
                  Saved output_path (opts_of_ext (lower (os_path_splitext_ext output_path)))
                        (mean_image t (successes w input_folder t names))]),
         [Print (LSavedAt (resolve w output_path))].
  split; [ | split; [reflexivity | split; [ | split]]].
  - rewrite Hl. unfold report, loop_result, reference_or_default. rewrite Rf.
    cbn [count resize_count target_size errors init_frame app].
    rewrite !Z.add_0_l, <- app_assoc. reflexivity.
  - rewrite <- (successes_failures_length w input_folder t names). lia.
  - pose proof (reference_some_successes _ _ _ _ Rf) as Hs.
    destruct (successes w input_folder t names); [congruence | cbn [List.length]; lia].
  - pose proof (resize_events_le w input_folder t names). lia.
Qed.

Lemma report_adds_up_witness :
  call "images" "output/avg.png" Raw.mixed_world
  = (inr tt, snd (call "images" "output/avg.png" Raw.mixed_world))
  /\ exists total c r t skipped before after,
      log (snd (call "images" "output/avg.png" Raw.mixed_world))
      = log Raw.mixed_world ++ Print (LFound total) :: before
          ++ [Print LDone; Print (LSuccessCount c); Print (LResizeCount r);
              Print (LOutputSize (Some t)); Print LElapsed]
          ++ match skipped with
             | [] => []
             | _ => Print (LSkippedHeader (Z.of_nat (List.length skipped)))
                    :: map (fun x => Print (LSkippedItem (fst x) (snd x))) skipped
             end
          ++ after
      /\ total = Z.of_nat (List.length (file_list Raw.mixed_world "images"))
      /\ c + Z.of_nat (List.length skipped) = total
      /\ 1 <= c
      /\ 0 <= r <= c.
Proof.
  split; [vm_compute; reflexivity | ].
  apply (report_adds_up "images" "output/avg.png" Raw.mixed_world).
  vm_compute. reflexivity.
Defined.

(** ** The accumulator holds integers *)

Section ExactSums.

Import Binary64Facts.

Lemma zadd_nil_r a : zadd a [] = [].
Proof. destruct a; reflexivity. Qed.

Lemma zadd_swap a : forall x y, zadd (zadd a x) y = zadd (zadd a y) x.
Proof.
  induction a as [ | h a IH]; intros [ | x0 x] [ | y0 y]; cbn [zadd]; try reflexivity.
  f_equal; [lia | apply IH].
Qed.

(** Integer column sums do not depend on the order of the images. *)
Lemma column_sums_perm imgs1 imgs2 :
  Permutation imgs1 imgs2 -> forall acc, column_sums acc imgs1 = column_sums acc imgs2.
Proof.
  unfold column_sums. induction 1 as [ | i l l' _ IH | i j l | l l' l'' _ IH1 _ IH2];
    intros acc; cbn [fold_left].
  - reflexivity.
  - apply IH.
  - rewrite zadd_swap. reflexivity.
  - rewrite IH1. apply IH2.
Qed.

(** One [+=] on integers below the bound is exact. *)
Lemma vadd_exact (B : Z) (a : list Z) :
  0 <= B -> B + 255 < 2 ^ 53 -> Forall (fun x => 0 <= x <= B) a ->
  forall b : list byte,
    vadd (map f64_of_Z a) (map f64_of_u8 b) = map f64_of_Z (zadd a (map u8_to_Z b))
    /\ Forall (fun x => 0 <= x <= B + 255) (zadd a (map u8_to_Z b)).
Proof.
  intros HB Hlt Ha. induction Ha as [ | x a Hx Ha IH]; intros [ | y b]; cbn [map vadd zadd];
    try (split; [reflexivity | constructor]).
  destruct (IH b) as [E F]. pose proof (u8_to_Z_range y). split.
  - unfold f64_of_u8 at 1. rewrite f64_add_exact by lia. rewrite E. reflexivity.
  - constructor; [lia | exact F].
Qed.

(** The float64 accumulator is the integer accumulator as long as the
    bound on the sums stays below 2^53. *)
Lemma sum_images_exact (imgs : list rgb_image) :
  forall (B : Z) (acc : list Z),
    0 <= B -> B + 255 * Z.of_nat (List.length imgs) < 2 ^ 53 ->
    Forall (fun x => 0 <= x <= B) acc ->
    sum_images (map f64_of_Z acc) imgs = map f64_of_Z (column_sums acc imgs)
    /\ Forall (fun x => 0 <= x <= B + 255 * Z.of_nat (List.length imgs)) (column_sums acc imgs).
Proof.
  induction imgs as [ | i r IH]; intros B acc HB Hlt Ha.
  - split; [reflexivity | ]. cbn. rewrite Z.add_0_r. exact Ha.
  - unfold sum_images, column_sums. cbn [fold_left].
    cbn [List.length] in Hlt |- *. rewrite Nat2Z.inj_succ in Hlt |- *.
    destruct (vadd_exact B acc HB ltac:(lia) Ha (img_data i)) as [E F].
    rewrite E. destruct (IH (B + 255) _ ltac:(lia) ltac:(lia) F) as [E' F'].
    split; [exact E' | ].
    replace (B + 255 * Z.succ (Z.of_nat (List.length r)))
      with (B + 255 + 255 * Z.of_nat (List.length r)) by lia.
    exact F'.
Qed.

Lemma zeros_as_map (n : nat) : repeat f64_zero n = map f64_of_Z (repeat 0 n).
Proof. rewrite map_repeat. reflexivity. Qed.

Lemma Forall_zeros (n : nat) : Forall (fun x => 0 <= x <= 0) (repeat 0 n).
Proof. apply Forall_forall. intros x Hx. apply repeat_spec in Hx. lia. Qed.

Lemma sum_from_zero_exact (n : nat) (imgs : list rgb_image) :
  255 * Z.of_nat (List.length imgs) < 2 ^ 53 ->
  sum_images (repeat f64_zero n) imgs = map f64_of_Z (column_sums (repeat 0 n) imgs)
  /\ Forall (fun x => 0 <= x <= 255 * Z.of_nat (List.length imgs))
            (column_sums (repeat 0 n) imgs).
Proof.
  intros Hb. rewrite zeros_as_map.
  apply (sum_images_exact imgs 0 (repeat 0 n)); [lia | lia | apply Forall_zeros].
Qed.

End ExactSums.

(** ** The quotient: rounding never reaches the next integer *)

Module QuotientFacts.

Import Binary64Facts.

Lemma dig_53_bounds (q : positive) : dig q = 53 -> 2 ^ 52 <= Zpos q < 2 ^ 53.
Proof. intros H. pose proof (dig_bounds q) as B. rewrite H in B. exact B. Qed.

Lemma dig_54_bounds (q : positive) : dig q = 54 -> 2 ^ 53 <= Zpos q < 2 ^ 54.
Proof. intros H. pose proof (dig_bounds q) as B. rewrite H in B. exact B. Qed.

Lemma rne_loc (m : Z) (l : location) :
  round_nearest_even (shr_m (shr_record_of_loc m l)) (loc_of_shr_record (shr_record_of_loc m l))
  = round_nearest_even m l.
Proof. destruct l as [ | [ | | ]]; reflexivity. Qed.

Lemma rne_bounds (m : Z) (l : location) : m <= round_nearest_even m l <= m + 1.
Proof.
  destruct l as [ | [ | | ]]; cbn [round_nearest_even]; try lia.
  destruct (Z.even m); lia.
Qed.

(** Rounding after a shift by one digit stays between the two halves. *)
Lemma rne_shr_1 (q : positive) (l : location) :
  2 <= Zpos q ->
  Zpos q <= 2 * round_nearest_even (shr_m (shr_1 (shr_record_of_loc (Zpos q) l)))
                                   (loc_of_shr_record (shr_1 (shr_record_of_loc (Zpos q) l))) + 1
  /\ 2 * round_nearest_even (shr_m (shr_1 (shr_record_of_loc (Zpos q) l)))
                            (loc_of_shr_record (shr_1 (shr_record_of_loc (Zpos q) l)))
     <= Zpos q + 1.
Proof.
  intros Hq. destruct q as [p | p | ]; [ | | lia]; destruct l as [ | [ | | ]];
    cbn [shr_record_of_loc shr_1 orb shr_m loc_of_shr_record round_nearest_even];
    try destruct (Z.even (Zpos p)); rewrite ?(Pos2Z.inj_xI p), ?(Pos2Z.inj_xO p); lia.
Qed.

Lemma shr_fexp_53 (q : positive) (e : Z) (l : location) :
  dig q = 53 -> -1074 <= e ->
  shr_fexp prec emax (Zpos q) e l = (shr_record_of_loc (Zpos q) l, e).
Proof.
  intros HQ He. unfold shr_fexp. rewrite fexp_eq. cbn [Zdigits2]. fold (dig q). rewrite HQ.
  replace (Z.max (53 + e - 53) (-1074) - e) with 0 by lia. reflexivity.
Qed.

Lemma shr_fexp_54 (q : positive) (e : Z) (l : location) :
  dig q = 54 -> -1075 <= e ->
  shr_fexp prec emax (Zpos q) e l = (shr_1 (shr_record_of_loc (Zpos q) l), e + 1).
Proof.
  intros HQ He. unfold shr_fexp. rewrite fexp_eq. cbn [Zdigits2]. fold (dig q). rewrite HQ.
  replace (Z.max (54 + e - 53) (-1074) - e) with 1 by lia. reflexivity.
Qed.

(** The second shift of [binary_round_aux]: a rounded mantissa that reached
    2^53 is brought back to 53 digits. *)
Lemma shr_fexp_round (m : positive) (e : Z) :
  2 ^ 52 <= Zpos m <= 2 ^ 53 -> -1074 <= e ->
  exists M j,
    shr_fexp prec emax (Zpos m) e loc_Exact = (exact_rec (Zpos M), e + j)
    /\ 0 <= j <= 1 /\ dig M = 53 /\ Zpos m = Zpos M * 2 ^ j.
Proof.
  intros [Hlo Hhi] He. destruct (Z.eq_dec (Zpos m) (2 ^ 53)) as [E | N].
  - exists 4503599627370496%positive, 1.
    rewrite (shr_fexp_shift m 4503599627370496 1 e); [ | exact E | reflexivity | lia].
    split; [reflexivity | split; [lia | split; [reflexivity | exact E]]].
  - exists m, 0. rewrite shr_fexp_canon; [ | apply dig_unique; lia | lia].
    rewrite Z.add_0_r, Z.pow_0_r, Z.mul_1_r.
    split; [reflexivity | split; [lia | split; [apply dig_unique; lia | reflexivity]]].
Qed.

(** Rounding a mantissa of 53 or 54 digits, whatever the location of the
    discarded part: the result has 53 digits and lies within one unit of the
    mantissa, at an exponent raised by at most two. *)
Lemma bra_bounds (q : positive) (e : Z) (l : location) :
  53 <= dig q <= 54 -> -1074 <= e <= 960 ->
  exists M j,
    binary_round_aux prec emax false (Zpos q) e l = S754_finite false M (e + j)
    /\ 0 <= j <= 2 /\ dig M = 53
    /\ Zpos q <= Zpos M * 2 ^ j + (2 ^ j - 1) /\ Zpos M * 2 ^ j <= Zpos q + 1.
Proof.
  intros Hd He. unfold binary_round_aux.
  destruct (Z.eq_dec (dig q) 53) as [D | D].
  - rewrite shr_fexp_53 by (assumption || lia). rewrite rne_loc.
    pose proof (rne_bounds (Zpos q) l) as Hr. pose proof (dig_53_bounds q D) as Hq.
    destruct (round_nearest_even (Zpos q) l) as [ | m | m] eqn:Em; try lia.
    destruct (shr_fexp_round m e) as (M & j & -> & Hj & HM & Hm); [lia | lia | ].
    cbn [exact_rec shr_m].
    replace (e + j <=? emax - prec) with true
      by (symmetry; apply Z.leb_le; unfold emax, prec; lia).
    exists M, j. split; [reflexivity | split; [lia | split; [exact HM | ]]].
    assert (Ej : j = 0 \/ j = 1) by lia.
    destruct Ej as [-> | ->]; [rewrite Z.pow_0_r in * | rewrite Z.pow_1_r in *]; lia.
  - assert (D' : dig q = 54) by lia.
    rewrite shr_fexp_54 by (assumption || lia).
    pose proof (dig_54_bounds q D') as Hq.
    destruct (rne_shr_1 q l) as [Hlo Hhi]; [lia | ].
    destruct (round_nearest_even _ _) as [ | m | m] eqn:Em; try lia.
    destruct (shr_fexp_round m (e + 1)) as (M & j & -> & Hj & HM & Hm); [lia | lia | ].
    cbn [exact_rec shr_m].
    replace (e + 1 + j <=? emax - prec) with true
      by (symmetry; apply Z.leb_le; unfold emax, prec; lia).
    exists M, (1 + j). rewrite Z.add_assoc.
    split; [reflexivity | split; [lia | split; [exact HM | ]]].
    assert (Ej : j = 0 \/ j = 1) by lia.
    destruct Ej as [-> | ->]; [rewrite Z.pow_0_r in Hm | rewrite Z.pow_1_r in Hm].
    + change (2 ^ (1 + 0)) with 2. lia.
    + change (2 ^ (1 + 1)) with 4. lia.
Qed.

(** The quotient of two 53-digit mantissas: [SFdiv] returns a 53-digit
    mantissa within one unit of the integer quotient [m1 * 2^53 / m2]. *)
Lemma div_bounds (m1 m2 : positive) (e1 e2 : Z) :
  dig m1 = 53 -> dig m2 = 53 -> -900 <= e1 - e2 <= 900 ->
  exists M j,
    SFdiv prec emax (S754_finite false m1 e1) (S754_finite false m2 e2)
    = S754_finite false M (e1 - e2 - 53 + j)
    /\ 0 <= j <= 2 /\ dig M = 53
    /\ Zpos m1 * 2 ^ 53 / Zpos m2 <= Zpos M * 2 ^ j + (2 ^ j - 1)
    /\ Zpos M * 2 ^ j <= Zpos m1 * 2 ^ 53 / Zpos m2 + 1.
Proof.
  intros H1 H2 He. unfold SFdiv, SFdiv_core_binary. cbn [Zdigits2 xorb].
  fold (dig m1) (dig m2). rewrite H1, H2, fexp_eq.
  replace (Z.min (Z.max (53 + e1 - (53 + e2) - 53) (-1074)) (e1 - e2)) with (e1 - e2 - 53) by lia.
  replace (e1 - e2 - (e1 - e2 - 53)) with 53 by lia.
  cbv iota. rewrite Z.shiftl_mul_pow2 by lia. rewrite div_eucl_pair.
  pose proof (dig_53_bounds m1 H1) as B1. pose proof (dig_53_bounds m2 H2) as B2.
  assert (Qlo : 2 ^ 52 <= Zpos m1 * 2 ^ 53 / Zpos m2).
  { apply Z.div_le_lower_bound; [lia | ].
    change (2 ^ 52) with 4503599627370496 in *.
    change (2 ^ 53) with 9007199254740992 in *. lia. }
  assert (Qhi : Zpos m1 * 2 ^ 53 / Zpos m2 < 2 ^ 54).
  { apply Z.div_lt_upper_bound; [lia | ].
    change (2 ^ 52) with 4503599627370496 in *.
    change (2 ^ 53) with 9007199254740992 in *.
    change (2 ^ 54) with 18014398509481984. lia. }
  destruct (Zpos m1 * 2 ^ 53 / Zpos m2) as [ | q | q] eqn:Eq; try lia.
  apply bra_bounds; [ | lia].
  pose proof (dig_bounds q) as [Dlo Dhi]. pose proof (dig_pos q).
  assert (L : 2 ^ 52 < 2 ^ dig q) by lia.
  assert (U : 2 ^ (dig q - 1) < 2 ^ 54) by lia.
  apply Z.pow_lt_mono_r_iff in L; [ | lia | lia].
  apply Z.pow_lt_mono_r_iff in U; [ | lia | lia]. lia.
Qed.

(** Clipping and casting a binary64 number between [k] and [k + 1]. *)
Lemma cast_floor_range (M : positive) (E k : Z) :
  dig M = 53 -> E < 0 -> 0 <= k <= 255 ->
  k * 2 ^ (- E) <= Zpos M < (k + 1) * 2 ^ (- E) ->
  astype_uint8 (clip_u8 (S754_finite false M E)) = u8_of_Z k.
Proof.
  intros HM HE Hk [Hlo Hhi].
  pose proof (dig_53_bounds M HM) as BM.
  assert (Hpw : 0 < 2 ^ (- E)) by (apply Z.pow_pos_nonneg; lia).
  assert (Hcast : astype_uint8 (S754_finite false M E) = u8_of_Z k).
  { unfold astype_uint8, f64_trunc. cbn [cond_Zopp]. f_equal.
    rewrite <- (Z.opp_involutive E) at 1. rewrite Z.shiftl_opp_r.
    rewrite Z.shiftr_div_pow2 by lia. symmetry.
    apply (Z.div_unique _ _ k (Zpos M - k * 2 ^ (- E))); [left; lia | ring]. }
  unfold clip_u8, f64_clip. rewrite f64_255.
  change (f64_of_Z 0) with (S754_zero false). cbn [SFcompare].
  destruct (Z.compare_spec E (-45)) as [-> | Hlt | Hgt].
  - rewrite compare_cont_Eq.
    destruct (Pos.compare_spec M 8972014882652160) as [Ec | Ec | Ec]; try exact Hcast.
    apply Pos2Z.pos_lt_pos in Ec. change (- -45) with 45 in Hhi.
    change (2 ^ 45) with 35184372088832 in Hhi.
    assert (k = 255) as -> by lia. vm_compute. reflexivity.
  - exact Hcast.
  - exfalso. assert (2 ^ (- E) <= 2 ^ 44) by (apply Z.pow_le_mono_r; lia).
    change (2 ^ 52) with 4503599627370496 in BM.
    change (2 ^ 44) with 17592186044416 in H. nia.
Qed.

Lemma dig_le_of_lt (p : positive) (d : Z) : Zpos p < 2 ^ d -> dig p <= d.
Proof.
  intros H. pose proof (dig_bounds p) as [Blo _]. pose proof (dig_pos p).
  destruct (Z_le_gt_dec (dig p) d) as [ | Hgt]; [assumption | ].
  destruct (Z_lt_le_dec d 0) as [Hn | Hp]; [rewrite Z.pow_neg_r in H by lia; lia | ].
  assert (2 ^ d <= 2 ^ (dig p - 1)) by (apply Z.pow_le_mono_r; lia). lia.
Qed.

(** The binary64 quotient of the integer sum [s] by the count [n] lies
    between the floor of [s / n] and the next integer, which it does not
    reach: the rounding of the division is smaller than the distance of
    [s / n] to that integer. *)
Lemma canon_div_range (s n : positive) :
  Zpos s <= 255 * Zpos n -> 255 * Zpos n < 2 ^ 53 ->
  exists M E,
    f64_div (canon s) (canon n) = S754_finite false M E
    /\ dig M = 53 /\ E < 0
    /\ Zpos s / Zpos n * 2 ^ (- E) <= Zpos M < (Zpos s / Zpos n + 1) * 2 ^ (- E).
Proof.
  intros Hs Hn.
  assert (Ds : dig s <= 53) by (apply dig_le_53; lia).
  assert (Dn : dig n <= 53) by (apply dig_le_53; lia).
  pose proof (dig_pos s). pose proof (dig_pos n).
  pose proof (dig_bounds n) as [Nlo Nhi].
  assert (Dsn : dig s <= dig n + 8).
  { apply dig_le_of_lt. rewrite Z.pow_add_r by lia. change (2 ^ 8) with 256. lia. }
  destruct (div_bounds (norm_mant s) (norm_mant n) (dig s - 53) (dig n - 53))
    as (M & j & Hdiv & Hj & HM & Hlo & Hhi);
    [apply norm_mant_dig; exact Ds | apply norm_mant_dig; exact Dn | lia | ].
  exists M, (dig s - 53 - (dig n - 53) - 53 + j).
  split; [exact Hdiv | split; [exact HM | ]].
  rewrite !norm_mant_spec in Hlo, Hhi by assumption.
  set (k := Zpos s / Zpos n).
  assert (Kn : Zpos n * k <= Zpos s) by (apply Z.mul_div_le; lia).
  assert (Kn' : Zpos s < Zpos n * (k + 1)).
  { replace (k + 1) with (Z.succ k) by lia. apply Z.mul_succ_div_gt. lia. }
  assert (K0 : 0 <= k) by (apply Z.div_pos; lia).
  assert (K255 : k <= 255).
  { apply Z.lt_succ_r. apply Z.div_lt_upper_bound; lia. }
  set (E := dig s - 53 - (dig n - 53) - 53 + j).
  assert (HE : E < 0) by (subst E; lia).
  split; [exact HE | ].
  (* the powers of two in play *)
  assert (PT : 0 < 2 ^ (- E)) by (apply Z.pow_pos_nonneg; lia).
  assert (PA : 0 < 2 ^ (53 - dig s)) by (apply Z.pow_pos_nonneg; lia).
  assert (PB : 0 < 2 ^ (53 - dig n)) by (apply Z.pow_pos_nonneg; lia).
  assert (PJ : 0 < 2 ^ j) by (apply Z.pow_pos_nonneg; lia).
  assert (HW : 2 ^ (- E) * 2 ^ j * 2 ^ (53 - dig n) = 2 ^ (53 - dig s) * 2 ^ 53).
  { rewrite <- !Z.pow_add_r by lia. f_equal. subst E. lia. }
  assert (HnB : Zpos n * 2 ^ (53 - dig n) < 2 ^ 53).
  { replace (2 ^ 53) with (2 ^ dig n * 2 ^ (53 - dig n))
      by (rewrite <- Z.pow_add_r by lia; f_equal; lia).
    apply Z.mul_lt_mono_pos_r; assumption. }
  set (T := 2 ^ (- E)) in *. set (A := 2 ^ (53 - dig s)) in *.
  set (B := 2 ^ (53 - dig n)) in *. set (J := 2 ^ j) in *.
  set (W := A * 2 ^ 53) in *.
  assert (PW : 2 ^ 53 <= W) by (subst W; nia).
  set (q := Zpos s * A * 2 ^ 53 / (Zpos n * B)) in *.
  assert (Qlo : k * T * J <= q).
  { subst q. apply Z.div_le_lower_bound; [lia | ].
    replace (Zpos n * B * (k * T * J)) with (Zpos n * k * (T * J * B)) by ring.
    rewrite HW. replace (Zpos s * A * 2 ^ 53) with (Zpos s * W) by (subst W; ring).
    apply Z.mul_le_mono_nonneg_r; lia. }
  assert (Qhi : q < (k + 1) * T * J - 1).
  { subst q. apply Z.div_lt_upper_bound; [lia | ].
    replace (Zpos n * B * ((k + 1) * T * J - 1))
      with (Zpos n * (k + 1) * (T * J * B) - Zpos n * B) by ring.
    rewrite HW. replace (Zpos s * A * 2 ^ 53) with (Zpos s * W) by (subst W; ring).
    assert ((Zpos s + 1) * W <= Zpos n * (k + 1) * W)
      by (apply Z.mul_le_mono_nonneg_r; lia).
    lia. }
  clearbody T A B J W q.
  split.
  - apply Z.lt_succ_r. apply (Z.mul_lt_mono_pos_r J); [exact PJ | ]. lia.
  - apply (Z.mul_lt_mono_pos_r J); [exact PJ | ]. lia.
Qed.

Lemma quotient_le_255 (s n : Z) : 0 < n -> 0 <= s <= 255 * n -> 0 <= s / n <= 255.
Proof.
  intros Hn Hs. split; [apply Z.div_pos; lia | ].
  apply Z.lt_succ_r. apply Z.div_lt_upper_bound; lia.
Qed.

(** The sample written for the integer sum [s] of [n] images is the floor
    of [s / n]. *)
Lemma canon_div_floor (s n : positive) :
  Zpos s <= 255 * Zpos n -> 255 * Zpos n < 2 ^ 53 ->
  astype_uint8 (clip_u8 (f64_div (canon s) (canon n))) = u8_of_Z (Zpos s / Zpos n).
Proof.
  intros Hs Hn.
  destruct (canon_div_range s n Hs Hn) as (M & E & -> & HM & HE & Hr).
  apply cast_floor_range; [exact HM | exact HE | apply quotient_le_255; lia | exact Hr].
Qed.

(** Clipping changes no binary64 number below 255. *)
Lemma clip_id_range (M : positive) (E k : Z) :
  dig M = 53 -> E < 0 -> 0 <= k <= 254 ->
  k * 2 ^ (- E) <= Zpos M < (k + 1) * 2 ^ (- E) ->
  clip_u8 (S754_finite false M E) = S754_finite false M E.
Proof.
  intros HM HE Hk [Hlo Hhi].
  pose proof (dig_53_bounds M HM) as BM.
  assert (Hpw : 0 < 2 ^ (- E)) by (apply Z.pow_pos_nonneg; lia).
  unfold clip_u8, f64_clip. rewrite f64_255.
  change (f64_of_Z 0) with (S754_zero false). cbn [SFcompare].
  destruct (Z.compare_spec E (-45)) as [-> | Hlt | Hgt].
  - rewrite compare_cont_Eq.
    destruct (Pos.compare_spec M 8972014882652160) as [Ec | Ec | Ec]; try reflexivity.
    apply Pos2Z.pos_lt_pos in Ec. change (- -45) with 45 in Hhi.
    change (2 ^ 45) with 35184372088832 in Hhi. lia.
  - reflexivity.
  - exfalso. assert (2 ^ (- E) <= 2 ^ 44) by (apply Z.pow_le_mono_r; lia).
    change (2 ^ 52) with 4503599627370496 in BM.
    change (2 ^ 44) with 17592186044416 in H. nia.
Qed.

(** [np.clip(_, 0, 255)] changes no quotient of a sum of 8-bit samples by
    their number. *)
Lemma clip_quotient (n s : Z) :
  0 < n -> 0 <= s <= 255 * n -> 255 * n < 2 ^ 53 ->
  clip_u8 (f64_div (f64_of_Z s) (f64_of_Z n)) = f64_div (f64_of_Z s) (f64_of_Z n).
Proof.
  intros Hn Hs Hb.
  destruct (Z.eq_dec s (n * 255)) as [-> | Ne].
  - rewrite f64_div_exact by lia. vm_compute. reflexivity.
  - destruct (f64_of_Z_small n) as (pn & -> & ->); [lia | ].
    destruct (Z.eq_dec s 0) as [-> | Ns]; [unfold canon; vm_compute; reflexivity | ].
    destruct (f64_of_Z_small s) as (ps & -> & ->); [lia | ].
    destruct (canon_div_range ps pn) as (M & E & -> & HM & HE & Hr); [lia | lia | ].
    apply (clip_id_range M E (Zpos ps / Zpos pn)); [exact HM | exact HE | | exact Hr].
    split; [apply Z.div_pos; lia | ].
    apply Z.lt_succ_r. apply Z.div_lt_upper_bound; lia.
Qed.

(** One output sample, from the integer sum and the count. *)
Lemma average_sample_floor (n s : Z) :
  0 < n -> 0 <= s <= 255 * n -> 255 * n < 2 ^ 53 ->
  average_sample n (f64_of_Z s) = u8_of_Z (s / n).
Proof.
  intros Hn Hs Hb. unfold average_sample.
  destruct (f64_of_Z_small n) as (pn & -> & ->); [lia | ].
  destruct (Z.eq_dec s 0) as [-> | Ns].
  - unfold canon. vm_compute. reflexivity.
  - destruct (f64_of_Z_small s) as (ps & -> & ->); [lia | ].
    apply canon_div_floor; lia.
Qed.

End QuotientFacts.

Section MeanFacts.

Import Binary64Facts QuotientFacts.

(** The averaged raster in integers: each sample is the floor of the
    integer column sum over the number of images. *)
Lemma mean_image_floor (t : nat * nat) (imgs : list rgb_image) :
  imgs <> [] -> 255 * Z.of_nat (List.length imgs) < 2 ^ 53 ->
  mean_image t imgs
  = mk_rgb t (map (fun s => u8_of_Z (s / Z.of_nat (List.length imgs)))
                  (column_sums (repeat 0 (n_samples t)) imgs)).
Proof.
  intros Hne Hb. unfold mean_image.
  destruct (sum_from_zero_exact (n_samples t) imgs Hb) as [-> F].
  rewrite map_map. f_equal. apply map_ext_in. intros s Hs.
  rewrite Forall_forall in F. specialize (F s Hs).
  apply average_sample_floor; [ | exact F | exact Hb].
  destruct imgs; [congruence | cbn [List.length]; lia].
Qed.

Lemma successes_length_le {codec : Codec} w input_folder t names :
  (List.length (successes w input_folder t names) <= List.length names)%nat.
Proof.
  induction names as [ | n r IH]; [reflexivity | ]. cbn [successes].
  destruct (process w input_folder t n); cbn [List.length]; lia.
Qed.

End MeanFacts.

(** X4. While fewer than 2^53 / 255 files are processed, the float64
    accumulator the loop ends with holds integers: each element is the exact
    sum of the corresponding 8-bit samples of the processed images. *)
Theorem accumulator_is_exact {codec : Codec} (input_folder : string) (total cur : Z)
  (names : list string) (w : World) :
  255 * Z.of_nat (List.length names) < 2 ^ 53 ->
  exists f w1,
    main_loop input_folder total cur names (init_frame, w) = (inr tt, (f, w1))
    /\ forall t, target_size f = Some t ->
         sum_array f
         = Some (mk_nd (shape_of_size t)
                       (map f64_of_Z (column_sums (repeat 0 (n_samples t))
                                                  (successes w input_folder t names)))).
Proof.
  intros Hb.
  destruct (main_loop_init w input_folder total names cur init_frame w)
    as (w1 & evs & Hrun & _); try reflexivity.
  eexists. exists w1. split; [exact Hrun | ].
  unfold loop_result, reference_or_default. cbn [target_size sum_array].
  intros t Ht. rewrite Ht. do 2 f_equal.
  apply sum_from_zero_exact.
  pose proof (successes_length_le w input_folder t names). lia.
Qed.

Lemma accumulator_is_exact_witness :
  255 * Z.of_nat (List.length (file_list Raw.mixed_world "images")) < 2 ^ 53
  /\ exists f w1,
      main_loop "images" 5 1 (file_list Raw.mixed_world "images")
                (init_frame, Raw.mixed_world)
      = (inr tt, (f, w1))
      /\ forall t, target_size f = Some t ->
           sum_array f
           = Some (mk_nd (shape_of_size t)
                         (map f64_of_Z
                              (column_sums (repeat 0 (n_samples t))
                                 (successes Raw.mixed_world "images" t
                                            (file_list Raw.mixed_world "images"))))).
Proof.
  split; [vm_compute; reflexivity | ].
  apply (accumulator_is_exact "images" 5 1 (file_list Raw.mixed_world "images")
                              Raw.mixed_world).
  vm_compute. reflexivity.
Defined.

(** X5. While fewer than 2^53 / 255 files are matched, every sample of the
    image a returning call writes is the floor of the arithmetic mean of the
    corresponding samples of the processed images: the integer sum divided
    by their number, rounded down. *)
Theorem written_samples_are_floors {codec : Codec} (input_folder output_path : string)
  (w w' : World) :
  255 * Z.of_nat (List.length (file_list w input_folder)) < 2 ^ 53 ->
  call input_folder output_path w = (inr tt, w') ->
  exists t imgs evs,
    reference_size w input_folder (file_list w input_folder) = Some t
    /\ imgs = successes w input_folder t (file_list w input_folder)
    /\ log w' = log w ++ evs
    /\ filter is_write evs
       = [MadeDirs (os_path_dirname output_path);
          Saved output_path (opts_of_ext (lower (os_path_splitext_ext output_path)))
                (mk_rgb t (map (fun s => u8_of_Z (s / Z.of_nat (List.length imgs)))
                               (column_sums (repeat 0 (n_samples t)) imgs)))].
Proof.
  intros Hb H.
  destruct (call_ok_events _ _ _ _ H) as (t & evs & _ & Rf & Hl & _ & Hout & _).
  exists t, (successes w input_folder t (file_list w input_folder)), evs.
  split; [exact Rf | split; [reflexivity | split; [exact Hl | ]]].
  rewrite <- filter_write_of_output, Hout, filter_app, filter_write_report.
  rewrite mean_image_floor; [reflexivity | | ].
  - apply (reference_some_successes _ _ _ _ Rf).
  - pose proof (successes_length_le w input_folder t (file_list w input_folder)). lia.
Qed.

Lemma written_samples_are_floors_witness :
  255 * Z.of_nat (List.length (file_list Raw.mixed_world "images")) < 2 ^ 53
  /\ call "images" "output/avg.png" Raw.mixed_world
     = (inr tt, snd (call "images" "output/avg.png" Raw.mixed_world))
  /\ exists t imgs evs,
      reference_size Raw.mixed_world "images" (file_list Raw.mixed_world "images") = Some t
      /\ imgs = successes Raw.mixed_world "images" t (file_list Raw.mixed_world "images")
      /\ log (snd (call "images" "output/avg.png" Raw.mixed_world))
         = log Raw.mixed_world ++ evs
      /\ filter is_write evs
         = [MadeDirs (os_path_dirname "output/avg.png");
            Saved "output/avg.png"
                  (opts_of_ext (lower (os_path_splitext_ext "output/avg.png")))
                  (mk_rgb t (map (fun s => u8_of_Z (s / Z.of_nat (List.length imgs)))
                                 (column_sums (repeat 0 (n_samples t)) imgs)))].
Proof.
  split; [vm_compute; reflexivity | split; [vm_compute; reflexivity | ]].
  apply (written_samples_are_floors "images" "output/avg.png" Raw.mixed_world).
  - vm_compute. reflexivity.
  - vm_compute. reflexivity.
Defined.

(** X6. While fewer than 2^53 / 255 images are averaged, the averaged raster
    does not depend on the order in which the images are added to the
    accumulator. *)
Theorem mean_is_order_independent (t : nat * nat) (imgs1 imgs2 : list rgb_image) :
  Permutation imgs1 imgs2 ->
  255 * Z.of_nat (List.length imgs1) < 2 ^ 53 ->
  mean_image t imgs1 = mean_image t imgs2.
Proof.
  intros Hp Hb. unfold mean_image.
  destruct (sum_from_zero_exact (n_samples t) imgs1 Hb) as [-> _].
  rewrite (Permutation_length Hp) in Hb |- *.
  destruct (sum_from_zero_exact (n_samples t) imgs2 Hb) as [-> _].
  rewrite (column_sums_perm _ _ Hp). reflexivity.
Qed.

Lemma mean_is_order_independent_witness :
  Permutation [Raw.one_pixel; mk_rgb (1, 1)%nat [x07; x08; x09]]
              [mk_rgb (1, 1)%nat [x07; x08; x09]; Raw.one_pixel]
  /\ 255 * Z.of_nat (List.length [Raw.one_pixel; mk_rgb (1, 1)%nat [x07; x08; x09]]) < 2 ^ 53
  /\ mean_image (1, 1)%nat [Raw.one_pixel; mk_rgb (1, 1)%nat [x07; x08; x09]]
     = mean_image (1, 1)%nat [mk_rgb (1, 1)%nat [x07; x08; x09]; Raw.one_pixel].
Proof.
  split; [apply perm_swap | split; [vm_compute; reflexivity | ]].
  apply (mean_is_order_independent (1, 1)%nat); [apply perm_swap | vm_compute; reflexivity].
Defined.

(** ** How the loop ends *)

(** X7. However the loop of lines 39-66 ends, from whatever state and on
    whatever console, it ends in one of two ways.  Either normally: then
    it has printed one progress line for each name, in order, numbered
    from the starting number and carrying the announced total, and has
    opened every file.  Or on the [UnicodeEncodeError] of a [print] the
    console refused (lines 41 and 65 are not protected by the [try]).  No
    exception of opening, decoding, converting, resizing or adding a file
    leaves the loop.  The loop leaves the directory tree as it is and
    prints no line of the report. *)
Theorem loop_ends_normally_or_on_print {codec : Codec} {console : Console}
  (input_folder : string) (total cur : Z) (names : list string)
  (f f' : Frame) (w w' : World) (r : exn + unit) :
  main_loop input_folder total cur names (f, w) = (r, (f', w')) ->
  root w' = root w
  /\ exists evs,
       log w' = log w ++ evs
       /\ filter is_output_event evs = []
       /\ ((r = inr tt
            /\ progress evs = map (fun p => (fst p, total, snd p)) (enumerate cur names)
            /\ opened evs = map (os_path_join input_folder) names)
           \/ print_failure r).
Proof.
  intros H.
  destruct (main_loop_kinds input_folder total names cur f w)
    as (r1 & f1 & w1 & evs & Hrun & (R & _ & L) & Hout & _ & _ & Hkind).
  rewrite Hrun in H. injection H as <- <- <-.
  split; [exact R | ]. exists evs. split; [exact L | split; [exact Hout | exact Hkind]].
Qed.

(** Two files, the second under a name with the byte 0xff, on a console
    that cannot encode it: the first file is processed, the progress line
    of the second is refused and the loop ends there. *)
Lemma loop_ends_normally_or_on_print_witness :
  file_list Raw.accent_world "images" = ["a.png"; Raw.byte_name]
  /\ fst (@main_loop Raw.raw_codec Raw.strict_console "images" 2 1 ["a.png"; Raw.byte_name]
            (init_frame, Raw.accent_world))
     = inl (FromLibrary (UnicodeEncodeError "codec can't encode character"))
  /\ root (snd (snd (@main_loop Raw.raw_codec Raw.strict_console "images" 2 1
                       ["a.png"; Raw.byte_name] (init_frame, Raw.accent_world))))
     = root Raw.accent_world
  /\ exists evs,
       log (snd (snd (@main_loop Raw.raw_codec Raw.strict_console "images" 2 1
                        ["a.png"; Raw.byte_name] (init_frame, Raw.accent_world))))
       = log Raw.accent_world ++ evs
       /\ filter is_output_event evs = []
       /\ ((@inl exn unit (FromLibrary (UnicodeEncodeError "codec can't encode character"))
            = inr tt
            /\ progress evs
               = map (fun p => (fst p, 2, snd p)) (enumerate 1 ["a.png"; Raw.byte_name])
            /\ opened evs = map (os_path_join "images") ["a.png"; Raw.byte_name])
           \/ @print_failure Raw.strict_console unit
                (inl (FromLibrary (UnicodeEncodeError "codec can't encode character")))).
Proof.
  split; [vm_compute; reflexivity | split; [vm_compute; reflexivity | ]].
  apply (@loop_ends_normally_or_on_print Raw.raw_codec Raw.strict_console
           "images" 2 1 ["a.png"; Raw.byte_name] init_frame
           (fst (snd (@main_loop Raw.raw_codec Raw.strict_console "images" 2 1
                        ["a.png"; Raw.byte_name] (init_frame, Raw.accent_world))))
           Raw.accent_world).
  vm_compute. reflexivity.
Defined.

(** ** The processing order *)

Section OrderFacts.

Lemma ascii_compare_spec (a b : ascii) :
  CompareSpec (a = b) (N_of_ascii a < N_of_ascii b)%N (N_of_ascii b < N_of_ascii a)%N
              (Ascii.compare a b).
Proof.
  unfold Ascii.compare.
  destruct (N.compare_spec (N_of_ascii a) (N_of_ascii b)) as [E | L | L];
    constructor; try assumption.
  apply (f_equal ascii_of_N) in E. rewrite !ascii_N_embedding in E. exact E.
Qed.

Lemma string_leb_trans (a : string) :
  forall b c, String.leb a b = true -> String.leb b c = true -> String.leb a c = true.
Proof.
  unfold String.leb.
  induction a as [ | x a IH]; intros [ | y b] [ | z c]; cbn [String.compare];
    try discriminate; try reflexivity.
  destruct (ascii_compare_spec x y), (ascii_compare_spec y z), (ascii_compare_spec x z);
    subst; try discriminate; try reflexivity; try (exfalso; lia).
  apply IH.
Qed.

Lemma string_leb_false (a b : string) : String.leb a b = false -> String.leb b a = true.
Proof.
  intros H. destruct (String.leb_total a b) as [E | E]; [congruence | exact E].
Qed.

Lemma ascending_insert_sorted (x : string) (l : list string) :
  ascending l -> ascending (insert_sorted x l).
Proof.
  induction l as [ | y r IH]; intros Hl; cbn [insert_sorted].
  - cbn. split; [intros y [] | exact I].
  - destruct Hl as [Hy Hr]. destruct (String.leb x y) eqn:E.
    + split; [ | split; assumption].
      intros z [<- | Hz]; [exact E | ].
      apply (string_leb_trans x y z E). apply Hy. exact Hz.
    + split; [ | apply IH; exact Hr].
      intros z Hz. apply In_insert_sorted in Hz as [-> | Hz].
      * apply string_leb_false. exact E.
      * apply Hy. exact Hz.
Qed.

Lemma ascending_sorted (l : list string) : ascending (sorted l).
Proof.
  induction l as [ | x r IH]; [exact I | ]. cbn [sorted].
  apply ascending_insert_sorted. exact IH.
Qed.

Lemma insert_sorted_perm (x : string) (l : list string) :
  Permutation (insert_sorted x l) (x :: l).
Proof.
  induction l as [ | y r IH]; cbn [insert_sorted]; [reflexivity | ].
  destruct (String.leb x y); [reflexivity | ].
  rewrite IH. apply perm_swap.
Qed.

Lemma sorted_perm (l : list string) : Permutation (sorted l) l.
Proof.
  induction l as [ | x r IH]; [reflexivity | ]. cbn [sorted].
  rewrite insert_sorted_perm, IH. reflexivity.
Qed.

(** An ascending arrangement of given names is unique. *)
Lemma ascending_unique (a : list string) :
  forall b, ascending a -> ascending b -> Permutation a b -> a = b.
Proof.
  induction a as [ | x a IH]; intros b Ha Hb Hp.
  - apply Permutation_nil in Hp. congruence.
  - destruct b as [ | y b]; [apply Permutation_sym, Permutation_nil in Hp; discriminate | ].
    destruct Ha as [Hx Ha]. destruct Hb as [Hy Hb].
    assert (E : x = y).
    { assert (Iy : In y (x :: a))
        by (apply (Permutation_in y (Permutation_sym Hp)); left; reflexivity).
      assert (Ix : In x (y :: b)) by (apply (Permutation_in x Hp); left; reflexivity).
      destruct Iy as [E | Iy]; [exact E | ].
      destruct Ix as [E | Ix]; [congruence | ].
      apply String.leb_antisym; [apply Hx; exact Iy | apply Hy; exact Ix]. }
    subst y. f_equal. apply IH; [exact Ha | exact Hb | ].
    apply Permutation_cons_inv in Hp. exact Hp.
Qed.

Lemma sorted_of_perm (a b : list string) : Permutation a b -> sorted a = sorted b.
Proof.
  intros Hp. apply ascending_unique; try apply ascending_sorted.
  rewrite !sorted_perm. exact Hp.
Qed.

Lemma filter_perm {A} (p : A -> bool) (a b : list A) :
  Permutation a b -> Permutation (filter p a) (filter p b).
Proof.
  induction 1 as [ | x l l' _ IH | x y l | l l' l'' _ IH1 _ IH2]; cbn [filter].
  - reflexivity.
  - destruct (p x); [apply perm_skip | ]; exact IH.
  - destruct (p x), (p y); try reflexivity. apply perm_swap.
  - rewrite IH1. exact IH2.
Qed.

End OrderFacts.

(** X8. A returning call opens the matched files in ascending order of
    their names.  The names it processes are those selected from the
    directory listing, each as often as listed, arranged so that every name
    is at most every later one, byte by byte; for the ASCII names this
    statement is about, that is the code point order of Python's
    [sorted]. *)
Theorem files_opened_in_name_order {codec : Codec} {console : Console}
  (input_folder output_path : string) (w w' : World) :
  (forall t, accepts (LBaseSize t) = true) ->
  (forall n, In n (file_list w input_folder) -> ascii_name n = true) ->
  call input_folder output_path w = (inr tt, w') ->
  exists listing names evs,
    listdir w input_folder = inr listing
    /\ Permutation names (select_files listing)
    /\ ascending names
    /\ log w' = log w ++ evs
    /\ opened evs = map (os_path_join input_folder) names.
Proof.
  intros Hb _ H. apply call_normal in H; [ | exact Hb].
  destruct (call_ok_events _ _ _ _ H) as (t & evs & Hne & _ & Hl & Hop & _).
  unfold file_list in *.
  destruct (listdir w input_folder) as [e | listing]; [congruence | ].
  exists listing, (sorted (select_files listing)), evs.
  split; [reflexivity | split; [apply sorted_perm | split; [apply ascending_sorted | ]]].
  split; assumption.
Qed.

Lemma files_opened_in_name_order_witness :
  (forall t, @accepts lenient_console (LBaseSize t) = true)
  /\ (forall n, In n (file_list Raw.mixed_world "images") -> ascii_name n = true)
  /\ call "images" "output/avg.png" Raw.mixed_world
     = (inr tt, snd (call "images" "output/avg.png" Raw.mixed_world))
  /\ exists listing names evs,
      listdir Raw.mixed_world "images" = inr listing
      /\ Permutation names (select_files listing)
      /\ ascending names
      /\ log (snd (call "images" "output/avg.png" Raw.mixed_world))
         = log Raw.mixed_world ++ evs
      /\ opened evs = map (os_path_join "images") names.
Proof.
  assert (Hascii : forall n, In n (file_list Raw.mixed_world "images") -> ascii_name n = true).
  { intros n Hn. change (In n ["a.jpg"; "b.PNG"; "c.png"; "d.tiff"; "e.bmp"]) in Hn.
    destruct Hn as [<- | [<- | [<- | [<- | [<- | []]]]]]; reflexivity. }
  split; [intros t; reflexivity | split; [exact Hascii | ]].
  split; [vm_compute; reflexivity | ].
  apply (@files_opened_in_name_order Raw.raw_codec lenient_console
           "images" "output/avg.png" Raw.mixed_world).
  - intros t. reflexivity.
  - exact Hascii.
  - vm_compute. reflexivity.
Defined.

(** X9. The order in which the directory lists its entries does not
    matter: two directories whose listings are permutations of each other
    give the same list of files to process, in the same order. *)
Theorem listing_order_is_irrelevant (w1 w2 : World)
  (folder1 folder2 : string) (l1 l2 : list string) :
  listdir w1 folder1 = inr l1 ->
  listdir w2 folder2 = inr l2 ->
  Permutation l1 l2 ->
  file_list w1 folder1 = file_list w2 folder2.
Proof.
  intros H1 H2 Hp. unfold file_list. rewrite H1, H2.
  apply sorted_of_perm. unfold select_files. apply filter_perm. exact Hp.
Qed.

Lemma listing_order_is_irrelevant_witness :
  listdir Raw.single_world "images" = inr ["broken.jpg"; "only.png"]
  /\ listdir (mk_world (Dir [("images", Dir [("only.png", File []); ("broken.jpg", File [])])])
                       [] [])
             "images"
     = inr ["only.png"; "broken.jpg"]
  /\ Permutation ["broken.jpg"; "only.png"] ["only.png"; "broken.jpg"]
  /\ file_list Raw.single_world "images"
     = file_list (mk_world (Dir [("images", Dir [("only.png", File []);
                                                 ("broken.jpg", File [])])])
                           [] [])
                 "images".
Proof.
  split; [vm_compute; reflexivity | split; [vm_compute; reflexivity | split; [apply perm_swap | ]]].
  apply (listing_order_is_irrelevant Raw.single_world _ "images" "images"
           ["broken.jpg"; "only.png"] ["only.png"; "broken.jpg"]).
  - vm_compute. reflexivity.
  - vm_compute. reflexivity.
  - apply perm_swap.
Defined.

(** ** What a call leaves alone *)

Section TreeFacts.

Lemma find_entry_set_entry_other (c c0 : string) (x : node) (es : list (string * node)) :
  c0 <> c -> find_entry c0 (set_entry c x es) = find_entry c0 es.
Proof.
  intros N. induction es as [ | [n y] r IH]; cbn [set_entry find_entry].
  - destruct (String.eqb_spec c c0); [congruence | reflexivity].
  - destruct (String.eqb_spec n c) as [-> | N1]; cbn [find_entry].
    + destruct (String.eqb_spec c c0); [congruence | reflexivity].
    + destruct (String.eqb_spec n c0); [reflexivity | exact IH].
Qed.

Lemma lookup_file_nonempty (d0 : list byte) (q : list string) (d : list byte) :
  q <> [] -> lookup (File d0) q = Some (File d) <-> False.
Proof. destruct q; [congruence | ]. intros _. cbn. split; [discriminate | tauto]. Qed.

(** [os.makedirs] neither creates nor changes a regular file. *)
Lemma mkdir_p_files (p : string) (comps : list string) :
  forall n n', mkdir_p p n comps = inr n' ->
  forall q d, lookup n' q = Some (File d) <-> lookup n q = Some (File d).
Proof.
  induction comps as [ | c r IH]; intros n n'; cbn [mkdir_p].
  - destruct n; try discriminate. intros H. injection H as <-. reflexivity.
  - destruct n as [ | es | ]; try discriminate.
    destruct (mkdir_p p _ r) as [e | ch'] eqn:E; [discriminate | ].
    intros H. injection H as <-. intros [ | c0 q'] d; cbn [lookup].
    + split; discriminate.
    + destruct (String.eqb_spec c0 c) as [-> | N].
      * rewrite find_entry_set_entry, (IH _ _ E q' d).
        destruct (find_entry c es); [reflexivity | ].
        destruct q'; cbn; split; discriminate.
      * rewrite find_entry_set_entry_other by exact N. reflexivity.
Qed.

(** Writing a file changes no regular file at another place. *)
Lemma write_at_files (p : string) (d0 : list byte) (comps : list string) :
  forall n n', write_at p n comps d0 = inr n' ->
  forall q d, q <> comps -> lookup n' q = Some (File d) <-> lookup n q = Some (File d).
Proof.
  induction comps as [ | c r IH]; intros n n'; cbn [write_at]; [discriminate | ].
  destruct n as [ | es | ]; try discriminate.
  destruct r as [ | c' r'].
  - intros H [ | c0 q'] d Hq; cbn [lookup].
    + destruct (find_entry c es) as [[ | | ] | ]; try discriminate;
        injection H as <-; split; discriminate.
    + destruct (String.eqb_spec c0 c) as [-> | N].
      * assert (Hq' : q' <> []) by congruence.
        destruct (find_entry c es) as [[d1 | | ] | ] eqn:F; try discriminate;
          injection H as <-; cbn [lookup]; rewrite find_entry_set_entry, ?F.
        -- rewrite !lookup_file_nonempty by exact Hq'. reflexivity.
        -- rewrite lookup_file_nonempty by exact Hq'. split; [tauto | discriminate].
      * destruct (find_entry c es) as [[ | | ] | ]; try discriminate;
          injection H as <-; cbn [lookup];
          rewrite find_entry_set_entry_other by exact N; reflexivity.
  - destruct (find_entry c es) as [ch | ] eqn:F; [ | discriminate].
    destruct (write_at p ch (c' :: r') d0) as [e | ch'] eqn:E; [discriminate | ].
    intros H. injection H as <-. intros [ | c0 q'] d Hq; cbn [lookup].
    + split; discriminate.
    + destruct (String.eqb_spec c0 c) as [-> | N].
      * rewrite find_entry_set_entry, F. apply (IH _ _ E). congruence.
      * rewrite find_entry_set_entry_other by exact N. reflexivity.
Qed.

Lemma read_file_inr (w : World) (p : string) (d : list byte) :
  read_file w p = inr d <-> p <> "" /\ lookup (root w) (resolve w p) = Some (File d).
Proof.
  unfold read_file, stat. destruct (String.eqb_spec p "") as [-> | N].
  - split; [discriminate | intros [H _]; congruence].
  - destruct (lookup (root w) (resolve w p)) as [[d1 | es | ] | ].
    + split; [intros H; injection H as ->; auto | intros [_ H]; congruence].
    + split; [discriminate | intros [_ H]; discriminate].
    + split; [discriminate | intros [_ H]; discriminate].
    + split; [discriminate | intros [_ H]; discriminate].
Qed.

Lemma read_file_same_tree (w w1 : World) (p : string) :
  root w1 = root w -> cwd w1 = cwd w -> read_file w1 p = read_file w p.
Proof. intros R C. unfold read_file, stat, resolve. rewrite R, C. reflexivity. Qed.

Lemma makedirs_files (w w2 : World) (dir p : string) (d : list byte) :
  makedirs w dir = inr w2 ->
  cwd w2 = cwd w /\ (read_file w2 p = inr d <-> read_file w p = inr d).
Proof.
  unfold makedirs. destruct (String.eqb dir ""); [discriminate | ].
  destruct (mkdir_p dir (root w) (resolve w dir)) as [e | r] eqn:E; [discriminate | ].
  intros H. injection H as <-. split; [reflexivity | ].
  rewrite !read_file_inr. change (resolve (set_root w r) p) with (resolve w p).
  cbn [set_root root]. rewrite (mkdir_p_files _ _ _ _ E). reflexivity.
Qed.

Lemma write_file_files (w w3 : World) (o p : string) (bytes d : list byte) :
  write_file w o bytes = inr w3 -> resolve w p <> resolve w o ->
  cwd w3 = cwd w /\ (read_file w3 p = inr d <-> read_file w p = inr d).
Proof.
  unfold write_file. destruct (String.eqb o ""); [discriminate | ].
  destruct (write_at o (root w) (resolve w o) bytes) as [e | r] eqn:E; [discriminate | ].
  intros H Hp. injection H as <-. split; [reflexivity | ].
  rewrite !read_file_inr. change (resolve (set_root w r) p) with (resolve w p).
  cbn [set_root root]. rewrite (write_at_files _ _ _ _ _ E) by exact Hp. reflexivity.
Qed.

End TreeFacts.

Section UntouchedFacts.

Context {codec : Codec}.

Lemma output_phase_files output_path f img w r w' (p : string) (d : list byte) :
  output_phase output_path f img w = (r, w') ->
  resolve w p <> resolve w output_path ->
  read_file w' p = inr d <-> read_file w p = inr d.
Proof.
  unfold output_phase.
  set (dir := os_path_dirname output_path).
  set (opts := opts_of_ext (lower (os_path_splitext_ext output_path))).
  intros H Hp.
  destruct (makedirs (add_log w [MadeDirs dir]) dir) as [e | w2] eqn:Md.
  { injection H as <- <-. rewrite read_file_add_log. reflexivity. }
  destruct (makedirs_files _ _ _ p d Md) as [C2 R2].
  rewrite read_file_add_log in R2. cbn [add_log cwd] in C2.
  destruct (pil_encode output_path opts img) as [e | bytes].
  { injection H as <- <-. rewrite read_file_add_log. exact R2. }
  destruct (write_file (add_log w2 [Saved output_path opts img]) output_path bytes)
    as [e | w3] eqn:Wr.
  { injection H as <- <-. rewrite read_file_add_log. exact R2. }
  injection H as <- <-.
  destruct (write_file_files _ _ _ p _ d Wr) as [C3 R3].
  { unfold resolve in *. cbn [add_log cwd]. rewrite C2. exact Hp. }
  rewrite !read_file_add_log in *. rewrite R3. exact R2.
Qed.

End UntouchedFacts.

(** X10. Whatever its outcome, a call changes no regular file other than the
    one at [output_path], and creates none: a path that does not name the
    same place as [output_path] holds a regular file with given content
    after the call exactly when it did before. *)
Theorem only_the_output_file_changes {codec : Codec} (input_folder output_path : string)
  (w : World) (p : string) (d : list byte) :
  resolve w p <> resolve w output_path ->
  read_file (snd (call input_folder output_path w)) p = inr d <-> read_file w p = inr d.
Proof.
  intros Hp.
  destruct (call_cases input_folder output_path w)
    as [(_ & E) | [(_ & _ & E) | [(_ & _ & _ & w1 & evs & E & Hext & _)
                                 | (_ & _ & t & w1 & evs & _ & Hext & _ & _ & E)]]];
    rewrite E; cbn [snd]; try reflexivity.
  - destruct Hext as (R & C & _). rewrite (read_file_same_tree w w1) by assumption.
    reflexivity.
  - destruct Hext as (R & C & _).
    destruct (output_phase output_path _ _ w1) as [r w'] eqn:O. cbn [snd].
    rewrite (output_phase_files _ _ _ _ _ _ p d O).
    + rewrite (read_file_same_tree w w1) by assumption. reflexivity.
    + unfold resolve in *. rewrite C. exact Hp.
Qed.

Lemma only_the_output_file_changes_witness :
  resolve Raw.mixed_world "images/a.jpg" <> resolve Raw.mixed_world "output/avg.png"
  /\ (read_file (snd (call "images" "output/avg.png" Raw.mixed_world)) "images/a.jpg"
      = inr [x01; x01; x01; x02; x04]
      <-> read_file Raw.mixed_world "images/a.jpg" = inr [x01; x01; x01; x02; x04]).
Proof.
  split; [vm_compute; discriminate | ].
  apply (only_the_output_file_changes "images" "output/avg.png" Raw.mixed_world).
  vm_compute. discriminate.
Defined.

(** ** The completion line *)

Section DoneFacts.

Context {codec : Codec}.

Lemma not_output_not_done (evs : list event) :
  filter is_output_event evs = [] -> ~ In (Print LDone) evs.
Proof.
  intros Hf Hin.
  assert (H : In (Print LDone) (filter is_output_event evs))
    by (apply filter_In; split; [exact Hin | reflexivity]).
  rewrite Hf in H. exact H.
Qed.

Lemma output_phase_done output_path f img w r w' :
  output_phase output_path f img w = (r, w') ->
  exists evs,
    log w' = log w ++ evs
    /\ (In (Print LDone) evs <-> r = inr tt)
    /\ (r = inr tt -> exists bytes, read_file w' output_path = inr bytes).
Proof.
  intros H. destruct r as [e | []].
  - revert H. unfold output_phase.
    set (d := os_path_dirname output_path).
    set (opts := opts_of_ext (lower (os_path_splitext_ext output_path))).
    destruct (makedirs (add_log w [MadeDirs d]) d) as [e1 | w2] eqn:Md.
    { intros H. injection H as <- <-. exists [MadeDirs d].
      split; [reflexivity | split; [ | discriminate]].
      split; [intros [E | []]; discriminate | discriminate]. }
    apply makedirs_ok in Md as (_ & _ & L2 & _). cbn [add_log log] in L2.
    destruct (pil_encode output_path opts img) as [e1 | bytes].
    { intros H. injection H as <- <-. exists [MadeDirs d; Saved output_path opts img].
      split; [cbn [add_log log]; rewrite L2, <- app_assoc; reflexivity | ].
      split; [ | discriminate].
      split; [intros [E | [E | []]]; discriminate | discriminate]. }
    destruct (write_file (add_log w2 [Saved output_path opts img]) output_path bytes)
      as [e1 | w3]; [ | discriminate].
    intros H. injection H as <- <-. exists [MadeDirs d; Saved output_path opts img].
    split; [cbn [add_log log]; rewrite L2, <- app_assoc; reflexivity | ].
    split; [ | discriminate].
    split; [intros [E | [E | []]]; discriminate | discriminate].
  - apply output_phase_ok in H as (_ & Hl & bytes & _ & Rd).
    eexists. split; [exact Hl | split; [ | intros _; exists bytes; exact Rd]].
    split; [reflexivity | intros _].
    apply in_or_app. right. unfold report.
    apply in_or_app. left. left. reflexivity.
Qed.

End DoneFacts.

(** X11. The completion line is printed exactly when the call returns
    normally, and then the output file exists: every failure, of the script
    or of a library call, happens before it. *)
Theorem done_line_means_written {codec : Codec} (input_folder output_path : string)
  (w : World) (r : exn + unit) (w' : World) :
  call input_folder output_path w = (r, w') ->
  exists evs,
    log w' = log w ++ evs
    /\ (In (Print LDone) evs <-> r = inr tt)
    /\ (In (Print LDone) evs -> exists bytes, read_file w' output_path = inr bytes).
Proof.
  assert (C : call input_folder output_path w = (r, w') ->
              exists evs,
                log w' = log w ++ evs
                /\ (In (Print LDone) evs <-> r = inr tt)
                /\ (r = inr tt -> exists bytes, read_file w' output_path = inr bytes)).
  {
    destruct (call_cases input_folder output_path w)
      as [(_ & E) | [(_ & _ & E) | [(_ & _ & _ & w1 & evs & E & Hext & _ & Hwr)
                                   | (_ & _ & t & w1 & evs & _ & Hext & _ & Hwr & E)]]];
      rewrite E.
    - intros H. injection H as <- <-. exists [].
      split; [rewrite app_nil_r; reflexivity | split; [ | discriminate]].
      split; [intros [] | discriminate].
    - intros H. injection H as <- <-. exists [].
      split; [rewrite app_nil_r; reflexivity | split; [ | discriminate]].
      split; [intros [] | discriminate].
    - intros H. injection H as <- <-. destruct Hext as (_ & _ & Hl).
      eexists. split; [exact Hl | split; [ | discriminate]].
      split; [ | discriminate].
      intros [Ed | Hin]; [discriminate | ].
      exfalso. exact (not_output_not_done _ Hwr Hin).
    - intros H. destruct Hext as (_ & _ & Hl).
      destruct (output_phase_done _ _ _ _ _ _ H) as (evs2 & Hl2 & Hd & Hb).
      exists ((Print (LFound (Z.of_nat (List.length (file_list w input_folder)))) :: evs)
              ++ evs2).
      split; [rewrite Hl2, Hl, <- app_assoc; reflexivity | split; [ | exact Hb]].
      rewrite <- Hd. split.
      + intros Hin. apply in_app_or in Hin as [[Ed | Hin] | Hin];
          [discriminate | exfalso; exact (not_output_not_done _ Hwr Hin) | exact Hin].
      + intros Hin. apply in_or_app. right. exact Hin.
  }
  intros H. destruct (C H) as (evs & Hl & Hd & Hb).
  exists evs. split; [exact Hl | split; [exact Hd | ]].
  intros Hin. apply Hb, Hd, Hin.
Qed.

Lemma done_line_means_written_witness :
  call "images" "output/avg.png" Raw.mixed_world
  = (inr tt, snd (call "images" "output/avg.png" Raw.mixed_world))
  /\ exists evs,
      log (snd (call "images" "output/avg.png" Raw.mixed_world))
      = log Raw.mixed_world ++ evs
      /\ (In (Print LDone) evs <-> @inr exn unit tt = inr tt)
      /\ (In (Print LDone) evs ->
          exists bytes,
            read_file (snd (call "images" "output/avg.png" Raw.mixed_world))
                      "output/avg.png"
            = inr bytes).
Proof.
  split; [vm_compute; reflexivity | ].
  apply (done_line_means_written "images" "output/avg.png" Raw.mixed_world).
  vm_compute. reflexivity.
Defined.

(** ** The extension of the output path *)

Section ExtensionFacts.

Lemma list_ascii_of_string_app (a b : string) :
  list_ascii_of_string (a ++ b) = list_ascii_of_string a ++ list_ascii_of_string b.
Proof. induction a as [ | c a IH]; [reflexivity | ]. cbn. rewrite IH. reflexivity. Qed.

Lemma take_while_app {A} (f : A -> bool) (a b : list A) :
  forallb f a = true -> take_while f (a ++ b) = a ++ take_while f b.
Proof.
  induction a as [ | x a IH]; [reflexivity | ]. cbn [forallb app take_while].
  intros H. apply andb_prop in H as [-> H]. rewrite IH by exact H. reflexivity.
Qed.

Lemma drop_while_app {A} (f : A -> bool) (a b : list A) :
  forallb f a = true -> drop_while f (a ++ b) = drop_while f b.
Proof.
  induction a as [ | x a IH]; [reflexivity | ]. cbn [forallb app drop_while].
  intros H. apply andb_prop in H as [-> H]. exact (IH H).
Qed.

Lemma forallb_rev {A} (f : A -> bool) (l : list A) :
  forallb f l = true -> forallb f (rev l) = true.
Proof.
  rewrite !forallb_forall. intros H x Hx. apply H, in_rev. exact Hx.
Qed.

Lemma forallb_weaken {A} (f g : A -> bool) (l : list A) :
  (forall x, f x = true -> g x = true) -> forallb f l = true -> forallb g l = true.
Proof. rewrite !forallb_forall. auto. Qed.

(** [os.path.splitext] on a name that ends in a character other than a dot
    or a slash, a dot, and letters without dots or slashes. *)
Lemma splitext_ext_of (stem : string) (c : ascii) (e : string) :
  is_dot c = false -> is_sep c = false ->
  forallb (fun a => negb (is_dot a) && negb (is_sep a)) (list_ascii_of_string e) = true ->
  os_path_splitext_ext (stem ++ String c (String "." e)) = String "." e.
Proof.
  intros Hd Hs He.
  assert (Ed : forallb (fun a => negb (is_dot a)) (rev (list_ascii_of_string e)) = true).
  { apply forallb_rev. revert He. apply forallb_weaken.
    intros x H. apply andb_prop in H as [H _]. exact H. }
  assert (Es : forallb (fun a => negb (is_sep a)) (rev (list_ascii_of_string e)) = true).
  { apply forallb_rev. revert He. apply forallb_weaken.
    intros x H. apply andb_prop in H as [_ H]. exact H. }
  unfold os_path_splitext_ext, os_path_basename.
  rewrite list_ascii_of_string_app. cbn [list_ascii_of_string].
  rewrite rev_app_distr. cbn [rev]. rewrite <- !app_assoc. cbn [app].
  rewrite (take_while_app _ _ _ Es). cbn [take_while].
  change (is_sep "."%char) with false. rewrite Hs. cbn [negb].
  set (T := take_while (fun c0 => negb (is_sep c0)) (rev (list_ascii_of_string stem))).
  rewrite list_ascii_of_string_of_list_ascii, rev_involutive.
  rewrite (take_while_app _ _ _ Ed), (drop_while_app _ _ _ Ed).
  cbn [take_while drop_while]. change (is_dot "."%char) with true. cbn [negb forallb].
  rewrite Hd. cbn [andb]. rewrite app_nil_r, rev_app_distr, rev_involutive.
  cbn [rev app]. cbn [string_of_list_ascii]. rewrite string_of_list_ascii_of_string.
  reflexivity.
Qed.

Lemma opts_of_dot_ext (e : string) :
  opts_of_ext (lower (String "." e))
  = if String.eqb (lower e) "jpg" || String.eqb (lower e) "jpeg" then SaveJpegBest
    else if String.eqb (lower e) "png" then SavePngOptimize
    else SaveDefault.
Proof. reflexivity. Qed.

End ExtensionFacts.

(** X12. The save options follow the extension of the output path, letter
    case ignored: when the path ends in a character other than a dot or a
    slash, then a dot and an extension without dots or slashes, a returning
    call saves with quality 100 and no subsampling for jpg and jpeg, with
    optimisation for png, and with the defaults of the library for anything
    else. *)
Theorem save_options_follow_extension {codec : Codec} (input_folder stem : string)
  (c : ascii) (e : string) (w w' : World) :
  is_dot c = false -> is_sep c = false ->
  forallb (fun a => negb (is_dot a) && negb (is_sep a)) (list_ascii_of_string e) = true ->
  call input_folder (stem ++ String c (String "." e)) w = (inr tt, w') ->
  exists evs img,
    log w' = log w ++ evs
    /\ filter is_write evs
       = [MadeDirs (os_path_dirname (stem ++ String c (String "." e)));
          Saved (stem ++ String c (String "." e))
                (if String.eqb (lower e) "jpg" || String.eqb (lower e) "jpeg"
                 then SaveJpegBest
                 else if String.eqb (lower e) "png" then SavePngOptimize
                 else SaveDefault)
                img].
Proof.
  intros Hd Hs He H.
  destruct (call_ok_events _ _ _ _ H) as (t & evs & _ & _ & Hl & _ & Hout & _).
  exists evs, (mean_image t (successes w input_folder t (file_list w input_folder))).
  split; [exact Hl | ].
  rewrite <- filter_write_of_output, Hout, filter_app, filter_write_report.
  rewrite (splitext_ext_of stem c e Hd Hs He), opts_of_dot_ext. reflexivity.
Qed.

Lemma save_options_follow_extension_witness :
  is_dot "g" = false /\ is_sep "g" = false
  /\ forallb (fun a => negb (is_dot a) && negb (is_sep a)) (list_ascii_of_string "JPG") = true
  /\ call "images" ("output/av" ++ String "g" (String "." "JPG")) Raw.mixed_world
     = (inr tt, snd (call "images" ("output/av" ++ String "g" (String "." "JPG"))
                          Raw.mixed_world))
  /\ exists evs img,
      log (snd (call "images" ("output/av" ++ String "g" (String "." "JPG"))
                     Raw.mixed_world))
      = log Raw.mixed_world ++ evs
      /\ filter is_write evs
         = [MadeDirs (os_path_dirname ("output/av" ++ String "g" (String "." "JPG")));
            Saved ("output/av" ++ String "g" (String "." "JPG"))
                  (if String.eqb (lower "JPG") "jpg" || String.eqb (lower "JPG") "jpeg"
                   then SaveJpegBest
                   else if String.eqb (lower "JPG") "png" then SavePngOptimize
                   else SaveDefault)
                  img].
Proof.
  split; [reflexivity | split; [reflexivity | split; [reflexivity | ]]].
  split; [vm_compute; reflexivity | ].
  apply (save_options_follow_extension "images" "output/av" "g" "JPG" Raw.mixed_world);
    [reflexivity | reflexivity | reflexivity | vm_compute; reflexivity].
Defined.

(** ** The mean, sample by sample *)

Section SampleFacts.

Import Binary64Facts QuotientFacts.

Lemma zadd_nth (a : list Z) :
  forall (b : list Z) (k : nat) (v : Z),
    nth_error (zadd a b) k = Some v ->
    exists x y, nth_error a k = Some x /\ nth_error b k = Some y /\ v = x + y.
Proof.
  induction a as [ | x a IH]; intros [ | y b] [ | k] v; cbn [zadd nth_error];
    try discriminate.
  - intros H. injection H as <-. exists x, y. auto.
  - apply IH.
Qed.

(** An element of the integer accumulator is the element it started from
    plus one sample of every image. *)
Lemma column_sums_nth (k : nat) (lo hi : Z) (imgs : list rgb_image) :
  forall (acc : list Z) (s : Z),
    nth_error (column_sums acc imgs) k = Some s ->
    (forall i, In i imgs ->
       exists x, nth_error (img_data i) k = Some x /\ lo <= u8_to_Z x <= hi) ->
    exists s0, nth_error acc k = Some s0
               /\ s0 + Z.of_nat (List.length imgs) * lo <= s
                  <= s0 + Z.of_nat (List.length imgs) * hi.
Proof.
  induction imgs as [ | i r IH]; intros acc s Hs Hb.
  - exists s. split; [exact Hs | cbn; lia].
  - unfold column_sums in Hs. cbn [fold_left] in Hs.
    destruct (IH _ s Hs) as (s1 & H1 & B1); [intros j Hj; apply Hb; right; exact Hj | ].
    destruct (zadd_nth _ _ _ _ H1) as (x & y & Hx & Hy & ->).
    destruct (Hb i (or_introl eq_refl)) as (x0 & Hx0 & Bx0).
    rewrite (map_nth_error u8_to_Z _ _ Hx0) in Hy. injection Hy as <-.
    exists x. split; [exact Hx | ]. cbn [List.length]. rewrite Nat2Z.inj_succ. lia.
Qed.

Lemma nth_error_zeros (n k : nat) (s : Z) : nth_error (repeat 0 n) k = Some s -> s = 0.
Proof. intros H. apply nth_error_In in H. apply repeat_spec in H. exact H. Qed.

End SampleFacts.

(** X13. While fewer than 2^53 / 255 images are averaged, every sample of
    the averaged raster lies between the smallest and the largest of the
    samples the images have at that position. *)
Theorem mean_between_extremes (t : nat * nat) (imgs : list rgb_image) (k : nat)
  (lo hi : Z) (b : byte) :
  imgs <> [] -> 255 * Z.of_nat (List.length imgs) < 2 ^ 53 ->
  (forall i, In i imgs ->
     exists x, nth_error (img_data i) k = Some x /\ lo <= u8_to_Z x <= hi) ->
  nth_error (img_data (mean_image t imgs)) k = Some b ->
  lo <= u8_to_Z b <= hi.
Proof.
  intros Hne Hb Hin Hk.
  assert (HN : 0 < Z.of_nat (List.length imgs))
    by (destruct imgs; [congruence | cbn [List.length]; lia]).
  rewrite mean_image_floor in Hk by assumption. cbn [img_data] in Hk.
  rewrite nth_error_map in Hk.
  destruct (nth_error (column_sums (repeat 0 (n_samples t)) imgs) k) as [s | ] eqn:Es;
    [ | discriminate].
  cbn [option_map] in Hk. injection Hk as <-.
  destruct (sum_from_zero_exact (n_samples t) imgs Hb) as [_ F].
  rewrite Forall_forall in F. pose proof (F s (nth_error_In _ _ Es)) as Bs.
  destruct (column_sums_nth k lo hi imgs _ s Es Hin) as (s0 & H0 & B0).
  apply nth_error_zeros in H0. subst s0.
  rewrite Binary64Facts.u8_to_of_Z by (apply QuotientFacts.quotient_le_255; lia).
  split.
  - apply Z.div_le_lower_bound; lia.
  - apply Z.lt_succ_r. apply Z.div_lt_upper_bound; lia.
Qed.

Lemma mean_between_extremes_witness :
  [mk_rgb (1, 1)%nat [x0a; x14; x1e]; mk_rgb (1, 1)%nat [x01; x02; x04]] <> []
  /\ 255 * Z.of_nat (List.length [mk_rgb (1, 1)%nat [x0a; x14; x1e];
                                  mk_rgb (1, 1)%nat [x01; x02; x04]]) < 2 ^ 53
  /\ (forall i, In i [mk_rgb (1, 1)%nat [x0a; x14; x1e]; mk_rgb (1, 1)%nat [x01; x02; x04]] ->
        exists x, nth_error (img_data i) 0 = Some x /\ 1 <= u8_to_Z x <= 10)
  /\ nth_error (img_data (mean_image (1, 1)%nat
                            [mk_rgb (1, 1)%nat [x0a; x14; x1e];
                             mk_rgb (1, 1)%nat [x01; x02; x04]])) 0
     = Some x05
  /\ 1 <= u8_to_Z x05 <= 10.
Proof.
  assert (H : forall i, In i [mk_rgb (1, 1)%nat [x0a; x14; x1e];
                              mk_rgb (1, 1)%nat [x01; x02; x04]] ->
                exists x, nth_error (img_data i) 0 = Some x /\ 1 <= u8_to_Z x <= 10).
  { intros i [<- | [<- | []]]; eexists; (split; [reflexivity | ]); vm_compute;
      split; discriminate. }
  split; [discriminate | split; [vm_compute; reflexivity | split; [exact H | ]]].
  split; [vm_compute; reflexivity | ].
  apply (mean_between_extremes (1, 1)%nat
           [mk_rgb (1, 1)%nat [x0a; x14; x1e]; mk_rgb (1, 1)%nat [x01; x02; x04]] 0 1 10 x05).
  - discriminate.
  - vm_compute. reflexivity.
  - exact H.
  - vm_compute. reflexivity.
Defined.

(** X14. While fewer than 2^53 / 255 images are averaged, clipping to
    [0, 255] changes no element of [sum_array / count]: every quotient is
    already in that range. *)
Theorem clip_changes_nothing (n : nat) (imgs : list rgb_image) :
  imgs <> [] -> 255 * Z.of_nat (List.length imgs) < 2 ^ 53 ->
  map (fun s => clip_u8 (f64_div s (f64_of_Z (Z.of_nat (List.length imgs)))))
      (sum_images (repeat f64_zero n) imgs)
  = map (fun s => f64_div s (f64_of_Z (Z.of_nat (List.length imgs))))
        (sum_images (repeat f64_zero n) imgs).
Proof.
  intros Hne Hb.
  assert (HN : 0 < Z.of_nat (List.length imgs))
    by (destruct imgs; [congruence | cbn [List.length]; lia]).
  destruct (sum_from_zero_exact n imgs Hb) as [-> F].
  rewrite !map_map. apply map_ext_in. intros s Hs.
  rewrite Forall_forall in F. apply QuotientFacts.clip_quotient; [exact HN | exact (F s Hs) | exact Hb].
Qed.

Lemma clip_changes_nothing_witness :
  [mk_rgb (1, 1)%nat [xff; x14; x00]; mk_rgb (1, 1)%nat [xff; x02; x00]] <> []
  /\ 255 * Z.of_nat (List.length [mk_rgb (1, 1)%nat [xff; x14; x00];
                                  mk_rgb (1, 1)%nat [xff; x02; x00]]) < 2 ^ 53
  /\ map (fun s => clip_u8 (f64_div s (f64_of_Z (Z.of_nat (List.length
            [mk_rgb (1, 1)%nat [xff; x14; x00]; mk_rgb (1, 1)%nat [xff; x02; x00]])))))
         (sum_images (repeat f64_zero 3)
            [mk_rgb (1, 1)%nat [xff; x14; x00]; mk_rgb (1, 1)%nat [xff; x02; x00]])
     = map (fun s => f64_div s (f64_of_Z (Z.of_nat (List.length
            [mk_rgb (1, 1)%nat [xff; x14; x00]; mk_rgb (1, 1)%nat [xff; x02; x00]]))))
           (sum_images (repeat f64_zero 3)
              [mk_rgb (1, 1)%nat [xff; x14; x00]; mk_rgb (1, 1)%nat [xff; x02; x00]]).
Proof.
  split; [discriminate | split; [vm_compute; reflexivity | ]].
  apply (clip_changes_nothing 3
           [mk_rgb (1, 1)%nat [xff; x14; x00]; mk_rgb (1, 1)%nat [xff; x02; x00]]).
  - discriminate.
  - vm_compute. reflexivity.
Defined.

(** ** Running the function again *)

Section OffPathFacts.

Lemma set_entry_same (c : string) (x : node) (es : list (string * node)) :
  find_entry c es = Some x -> set_entry c x es = es.
Proof.
  induction es as [ | [n y] r IH]; cbn [find_entry set_entry]; [discriminate | ].
  destruct (String.eqb n c); [intros H; injection H as ->; reflexivity | ].
  intros H. rewrite (IH H). reflexivity.
Qed.

(** [os.makedirs] changes nothing off the path it creates. *)
Lemma mkdir_p_off_path (p : string) (comps : list string) :
  forall n n', mkdir_p p n comps = inr n' ->
  forall q, (forall rest, comps <> q ++ rest) -> lookup n' q = lookup n q.
Proof.
  induction comps as [ | c r IH]; intros n n'; cbn [mkdir_p].
  - destruct n; try discriminate. intros H. injection H as <-. reflexivity.
  - destruct n as [ | es | ]; try discriminate.
    destruct (mkdir_p p _ r) as [e | ch'] eqn:E; [discriminate | ].
    intros H. injection H as <-. intros [ | c0 q'] Hq.
    + exfalso. exact (Hq (c :: r) eq_refl).
    + cbn [lookup]. destruct (String.eqb_spec c0 c) as [-> | N].
      * rewrite find_entry_set_entry.
        rewrite (IH _ _ E q') by (intros rest Hr; apply (Hq rest); cbn; congruence).
        destruct (find_entry c es); [reflexivity | ].
        destruct q' as [ | c1 q'']; [exfalso; exact (Hq r eq_refl) | reflexivity].
      * rewrite find_entry_set_entry_other by exact N. reflexivity.
Qed.

(** Writing a file changes nothing off its path. *)
Lemma write_at_off_path (p : string) (d : list byte) (comps : list string) :
  forall n n', write_at p n comps d = inr n' ->
  forall q, (forall rest, comps <> q ++ rest) -> lookup n' q = lookup n q.
Proof.
  induction comps as [ | c r IH]; intros n n'; cbn [write_at]; [discriminate | ].
  destruct n as [ | es | ]; try discriminate.
  destruct r as [ | c' r'].
  - intros H [ | c0 q'] Hq; [exfalso; exact (Hq [c] eq_refl) | ].
    cbn [lookup]. destruct (String.eqb_spec c0 c) as [-> | N].
    + destruct q' as [ | c1 q'']; [exfalso; exact (Hq [] eq_refl) | ].
      destruct (find_entry c es) as [[d1 | | ] | ] eqn:F; try discriminate;
        injection H as <-; rewrite find_entry_set_entry; reflexivity.
    + destruct (find_entry c es) as [[ | | ] | ]; try discriminate;
        injection H as <-; rewrite find_entry_set_entry_other by exact N; reflexivity.
  - destruct (find_entry c es) as [ch | ] eqn:F; [ | discriminate].
    destruct (write_at p ch (c' :: r') d) as [e | ch'] eqn:E; [discriminate | ].
    intros H. injection H as <-. intros [ | c0 q'] Hq.
    + exfalso. exact (Hq (c :: c' :: r') eq_refl).
    + cbn [lookup]. destruct (String.eqb_spec c0 c) as [-> | N].
      * rewrite find_entry_set_entry, F. apply (IH _ _ E).
        intros rest Hr. apply (Hq rest). cbn. congruence.
      * rewrite find_entry_set_entry_other by exact N. reflexivity.
Qed.

(** Writing a file keeps every directory a directory. *)
Lemma write_at_dirs (p : string) (d : list byte) (comps : list string) :
  forall n n', write_at p n comps d = inr n' ->
  forall q es, lookup n q = Some (Dir es) -> exists es', lookup n' q = Some (Dir es').
Proof.
  induction comps as [ | c r IH]; intros n n'; cbn [write_at]; [discriminate | ].
  destruct n as [ | es | ]; try discriminate.
  destruct r as [ | c' r'].
  - intros H [ | c0 q'] es0; cbn [lookup].
    + intros _. destruct (find_entry c es) as [[ | | ] | ]; try discriminate;
        injection H as <-; eexists; reflexivity.
    + destruct (String.eqb_spec c0 c) as [-> | N].
      * destruct (find_entry c es) as [[d1 | | ] | ] eqn:F; try discriminate;
          destruct q'; cbn [lookup]; discriminate.
      * intros Hl. destruct (find_entry c es) as [[ | | ] | ]; try discriminate;
          injection H as <-; cbn [lookup];
          rewrite find_entry_set_entry_other by exact N; eexists; exact Hl.
  - destruct (find_entry c es) as [ch | ] eqn:F; [ | discriminate].
    destruct (write_at p ch (c' :: r') d) as [e | ch'] eqn:E; [discriminate | ].
    intros H. injection H as <-. intros [ | c0 q'] es0; cbn [lookup].
    + intros _. eexists. reflexivity.
    + destruct (String.eqb_spec c0 c) as [-> | N].
      * rewrite find_entry_set_entry, F. apply (IH _ _ E).
      * rewrite find_entry_set_entry_other by exact N. intros Hl. eexists. exact Hl.
Qed.

(** [os.makedirs(_, exist_ok=True)] on a directory that exists changes
    nothing. *)
Lemma mkdir_p_idem (p : string) (comps : list string) :
  forall n es, lookup n comps = Some (Dir es) -> mkdir_p p n comps = inr n.
Proof.
  induction comps as [ | c r IH]; intros n es0; cbn [lookup mkdir_p].
  - intros H. injection H as ->. reflexivity.
  - destruct n as [ | es | ]; try discriminate.
    destruct (find_entry c es) as [ch | ] eqn:F; [ | discriminate].
    intros Hl. rewrite (IH _ _ Hl), (set_entry_same _ _ _ F). reflexivity.
Qed.

(** Writing again what a file holds changes nothing. *)
Lemma write_at_idem (p : string) (d : list byte) (comps : list string) :
  forall n, comps <> [] -> lookup n comps = Some (File d) -> write_at p n comps d = inr n.
Proof.
  induction comps as [ | c r IH]; intros n Hne; [congruence | ]. cbn [lookup write_at].
  destruct n as [ | es | ]; try discriminate.
  destruct (find_entry c es) as [ch | ] eqn:F; [ | discriminate].
  destruct r as [ | c' r'].
  - cbn [lookup]. intros H. injection H as ->.
    rewrite (set_entry_same _ _ _ F). reflexivity.
  - intros Hl. rewrite (IH _ ltac:(discriminate) Hl), (set_entry_same _ _ _ F).
    reflexivity.
Qed.

End OffPathFacts.

Section RerunFacts.

Context {codec : Codec}.

Lemma resolve_cwd (w1 w : World) (p : string) : cwd w1 = cwd w -> resolve w1 p = resolve w p.
Proof. intros C. unfold resolve. rewrite C. reflexivity. Qed.

Lemma stat_same_tree (w1 w : World) (p : string) :
  root w1 = root w -> cwd w1 = cwd w -> stat w1 p = stat w p.
Proof. intros R C. unfold stat. rewrite R, (resolve_cwd w1 w p C). reflexivity. Qed.

Lemma makedirs_stat (w w2 : World) (dir p : string) :
  makedirs w dir = inr w2 ->
  (forall rest, resolve w dir <> resolve w p ++ rest) ->
  stat w2 p = stat w p /\ cwd w2 = cwd w.
Proof.
  unfold makedirs. destruct (String.eqb dir ""); [discriminate | ].
  destruct (mkdir_p dir (root w) (resolve w dir)) as [e | r] eqn:E; [discriminate | ].
  intros H Hp. injection H as <-. split; [ | reflexivity].
  unfold stat. change (resolve (set_root w r) p) with (resolve w p). cbn [set_root root].
  rewrite (mkdir_p_off_path _ _ _ _ E _ Hp). reflexivity.
Qed.

Lemma write_file_stat (w w3 : World) (o p : string) (bytes : list byte) :
  write_file w o bytes = inr w3 ->
  (forall rest, resolve w o <> resolve w p ++ rest) ->
  stat w3 p = stat w p /\ cwd w3 = cwd w.
Proof.
  unfold write_file. destruct (String.eqb o ""); [discriminate | ].
  destruct (write_at o (root w) (resolve w o) bytes) as [e | r] eqn:E; [discriminate | ].
  intros H Hp. injection H as <-. split; [ | reflexivity].
  unfold stat. change (resolve (set_root w r) p) with (resolve w p). cbn [set_root root].
  rewrite (write_at_off_path _ _ _ _ _ E _ Hp). reflexivity.
Qed.

(** What lies off the output path is as it was, whatever the outcome. *)
Lemma output_phase_stat output_path f img w r w' (p : string) :
  output_phase output_path f img w = (r, w') ->
  off_path w output_path p ->
  stat w' p = stat w p.
Proof.
  unfold output_phase, off_path.
  set (dir := os_path_dirname output_path).
  set (opts := opts_of_ext (lower (os_path_splitext_ext output_path))).
  intros H Hp.
  destruct (makedirs (add_log w [MadeDirs dir]) dir) as [e | w2] eqn:Md.
  { injection H as <- <-. reflexivity. }
  destruct (makedirs_stat _ _ _ p Md) as [S2 C2]; [intros rest; apply (Hp rest) | ].
  change (stat (add_log w [MadeDirs dir]) p) with (stat w p) in S2.
  cbn [add_log cwd] in C2.
  destruct (pil_encode output_path opts img) as [e | bytes].
  { injection H as <- <-. exact S2. }
  destruct (write_file (add_log w2 [Saved output_path opts img]) output_path bytes)
    as [e | w3] eqn:Wr.
  { injection H as <- <-. exact S2. }
  injection H as <- <-.
  destruct (write_file_stat _ _ _ p _ Wr) as [S3 _].
  { intros rest. change (resolve (add_log w2 [Saved output_path opts img]) ?x)
      with (resolve w2 x). rewrite !(resolve_cwd w2 w) by exact C2. apply (Hp rest). }
  change (stat (add_log w3 ?l) p) with (stat w3 p). rewrite S3. exact S2.
Qed.

(** What a completed output phase leaves: the directory, and the file with
    the encoded raster in it. *)
Lemma output_phase_ok_tree output_path f img w w' :
  output_phase output_path f img w = (inr tt, w') ->
  exists es bytes,
    os_path_dirname output_path <> "" /\ output_path <> ""
    /\ cwd w' = cwd w
    /\ lookup (root w') (resolve w (os_path_dirname output_path)) = Some (Dir es)
    /\ resolve w output_path <> []
    /\ lookup (root w') (resolve w output_path) = Some (File bytes)
    /\ pil_encode output_path (opts_of_ext (lower (os_path_splitext_ext output_path))) img
       = inr bytes.
Proof.
  unfold output_phase.
  set (dir := os_path_dirname output_path).
  set (opts := opts_of_ext (lower (os_path_splitext_ext output_path))).
  destruct (makedirs (add_log w [MadeDirs dir]) dir) as [e | w2] eqn:Md; [discriminate | ].
  destruct (pil_encode output_path opts img) as [e | bytes]; [discriminate | ].
  destruct (write_file (add_log w2 [Saved output_path opts img]) output_path bytes)
    as [e | w3] eqn:Wr; [discriminate | ].
  intros H. injection H as <-.
  unfold makedirs in Md. destruct (String.eqb_spec dir "") as [ | Nd]; [discriminate | ].
  change (resolve (add_log w [MadeDirs dir]) dir) with (resolve w dir) in Md.
  cbn [add_log root] in Md.
  destruct (mkdir_p dir (root w) (resolve w dir)) as [e | r2] eqn:E2; [discriminate | ].
  injection Md as <-.
  unfold write_file in Wr.
  destruct (String.eqb_spec output_path "") as [ | No]; [discriminate | ].
  change (resolve (add_log (set_root (add_log w [MadeDirs dir]) r2)
                           [Saved output_path opts img]) output_path)
    with (resolve w output_path) in Wr.
  cbn [add_log set_root root] in Wr.
  destruct (write_at output_path r2 (resolve w output_path) bytes) as [e | r3] eqn:E3;
    [discriminate | ].
  injection Wr as <-. cbn [add_log set_root root cwd].
  destruct (mkdir_p_lookup _ _ _ _ E2) as [es2 L2].
  destruct (write_at_dirs _ _ _ _ _ E3 _ _ L2) as [es3 L3].
  exists es3, bytes.
  split; [exact Nd | split; [exact No | split; [reflexivity | split; [exact L3 | ]]]].
  split; [ | split; [exact (write_at_lookup _ _ _ _ _ E3) | reflexivity]].
  intros Hnil. rewrite Hnil in E3. discriminate.
Qed.

(** The output phase on a tree that already holds its result. *)
Lemma output_phase_again output_path f img w es bytes :
  os_path_dirname output_path <> "" -> output_path <> "" ->
  lookup (root w) (resolve w (os_path_dirname output_path)) = Some (Dir es) ->
  resolve w output_path <> [] ->
  lookup (root w) (resolve w output_path) = Some (File bytes) ->
  pil_encode output_path (opts_of_ext (lower (os_path_splitext_ext output_path))) img
  = inr bytes ->
  exists w'', output_phase output_path f img w = (inr tt, w'') /\ root w'' = root w.
Proof.
  intros Nd No Ld Hne Lo En. unfold output_phase, makedirs, write_file.
  rewrite En.
  destruct (String.eqb_spec (os_path_dirname output_path) "") as [ | _]; [congruence | ].
  destruct (String.eqb_spec output_path "") as [ | _]; [congruence | ].
  change (resolve (add_log w ?l) ?x) with (resolve w x). cbn [add_log root].
  rewrite (mkdir_p_idem _ _ _ _ Ld). cbn [set_root root cwd log].
  change (resolve {| root := root w; cwd := cwd w; log := ?l |} output_path)
    with (resolve w output_path).
  rewrite (write_at_idem _ _ _ _ Hne Lo).
  eexists. split; reflexivity.
Qed.

Lemma load_agree (w w' : World) input_folder n :
  stat w' (os_path_join input_folder n) = stat w (os_path_join input_folder n) ->
  load w' input_folder n = load w input_folder n.
Proof. intros H. unfold load, read_file. rewrite H. reflexivity. Qed.

Lemma reference_size_agree (w w' : World) input_folder names :
  (forall n, In n names -> load w' input_folder n = load w input_folder n) ->
  reference_size w' input_folder names = reference_size w input_folder names.
Proof.
  induction names as [ | n r IH]; intros H; [reflexivity | ]. cbn [reference_size].
  rewrite (H n (or_introl eq_refl)), IH by (intros m Hm; apply H; right; exact Hm).
  reflexivity.
Qed.

Lemma successes_agree (w w' : World) input_folder t names :
  (forall n, In n names -> load w' input_folder n = load w input_folder n) ->
  successes w' input_folder t names = successes w input_folder t names.
Proof.
  induction names as [ | n r IH]; intros H; [reflexivity | ]. cbn [successes].
  unfold process. rewrite (H n (or_introl eq_refl)).
  rewrite IH by (intros m Hm; apply H; right; exact Hm). reflexivity.
Qed.

End RerunFacts.

(** X15. Running the function again changes nothing: when a call has
    returned and neither the input folder nor any of the matched files lies
    on the way to the output (the output is not written into the input
    folder), a second call with the same arguments returns as well and
    leaves the directory tree exactly as the first call left it. *)
Theorem rerun_changes_nothing {codec : Codec} (input_folder output_path : string)
  (w w' : World) :
  call input_folder output_path w = (inr tt, w') ->
  off_path w output_path input_folder ->
  (forall name, In name (file_list w input_folder) ->
                off_path w output_path (os_path_join input_folder name)) ->
  exists w'', call input_folder output_path w' = (inr tt, w'') /\ root w'' = root w'.
Proof.
  intros H Hf Hn.
  destruct (call_cases input_folder output_path w)
    as [(_ & E) | [(_ & _ & E) | [(_ & _ & _ & w1 & evs & E & _)
                                 | (D & Hne & t & w1 & evs & Rf & (R1 & C1 & _) & _ & _ & E)]]];
    try congruence.
  rewrite E in H.
  destruct (output_phase_ok_tree _ _ _ _ _ H) as (es & bytes & Nd & No & C & Ld & Hr & Lo & En).
  assert (St : forall p, off_path w output_path p -> stat w' p = stat w p).
  { intros p Hp. rewrite (output_phase_stat _ _ _ _ _ _ p H).
    - apply stat_same_tree; assumption.
    - intros rest. rewrite !(resolve_cwd w1 w) by exact C1. apply (Hp rest). }
  assert (Cw : cwd w' = cwd w) by congruence.
  assert (D' : isdir w' input_folder = true) by (unfold isdir in *; rewrite (St _ Hf); exact D).
  assert (Fl : file_list w' input_folder = file_list w input_folder)
    by (unfold file_list, listdir; rewrite (St _ Hf); reflexivity).
  assert (Ld' : forall n, In n (file_list w input_folder) ->
                          load w' input_folder n = load w input_folder n)
    by (intros n Hin; apply load_agree, St, Hn, Hin).
  destruct (call_cases input_folder output_path w')
    as [(D2 & _) | [(_ & N2 & _) | [(_ & _ & Rf2 & _)
                                   | (_ & _ & t2 & w2 & evs2 & Rf2 & (R2 & C2 & _) & _ & _ & E2)]]].
  - congruence.
  - rewrite Fl in N2. congruence.
  - rewrite Fl, (reference_size_agree w w' _ _ Ld') in Rf2. congruence.
  - rewrite Fl, (reference_size_agree w w' _ _ Ld') in Rf2.
    assert (t2 = t) by congruence. subst t2.
    rewrite E2, Fl, (successes_agree w w' _ _ _ Ld').
    destruct (output_phase_again output_path
                (loop_result w' input_folder (file_list w input_folder) init_frame)
                (mean_image t (successes w input_folder t (file_list w input_folder)))
                w2 es bytes) as (w'' & O & Rw); try assumption.
    + rewrite R2, (resolve_cwd w2 w) by congruence.
      rewrite <- (resolve_cwd w1 w) by exact C1. exact Ld.
    + rewrite (resolve_cwd w2 w) by congruence.
      rewrite <- (resolve_cwd w1 w) by exact C1. exact Hr.
    + rewrite R2, (resolve_cwd w2 w) by congruence.
      rewrite <- (resolve_cwd w1 w) by exact C1. exact Lo.
    + exists w''. split; [exact O | congruence].
Qed.

Lemma rerun_changes_nothing_witness :
  call "images" "output/avg.png" Raw.mixed_world
  = (inr tt, snd (call "images" "output/avg.png" Raw.mixed_world))
  /\ off_path Raw.mixed_world "output/avg.png" "images"
  /\ (forall name, In name (file_list Raw.mixed_world "images") ->
                   off_path Raw.mixed_world "output/avg.png" (os_path_join "images" name))
  /\ exists w'',
      call "images" "output/avg.png" (snd (call "images" "output/avg.png" Raw.mixed_world))
      = (inr tt, w'')
      /\ root w'' = root (snd (call "images" "output/avg.png" Raw.mixed_world)).
Proof.
  assert (Hf : off_path Raw.mixed_world "output/avg.png" "images")
    by (intros rest; split; vm_compute; intros E; discriminate E).
  assert (Hn : forall name, In name (file_list Raw.mixed_world "images") ->
                 off_path Raw.mixed_world "output/avg.png" (os_path_join "images" name)).
  { intros name Hin. vm_compute in Hin. intros rest.
    repeat (destruct Hin as [<- | Hin]); try contradiction;
      (split; vm_compute; intros E; discriminate E). }
  split; [vm_compute; reflexivity | split; [exact Hf | split; [exact Hn | ]]].
  apply (rerun_changes_nothing "images" "output/avg.png" Raw.mixed_world).
  - vm_compute. reflexivity.
  - exact Hf.
  - exact Hn.
Defined.
